(** * AtomsMM: custom nonbonded forces and utilities over a molecular-dynamics toolkit

    A shallow embedding of [atomsmm/utils.py], [atomsmm/forces.py] and
    [atomsmm/reporters.py].

    The Python code builds algebraic energy expressions as text and hands them,
    together with cutoff and switching settings, to the toolkit's force
    objects.  The embedding keeps that shape:

    - the text-building helpers of [utils.py] are functions on [string];
    - the toolkit's expression language is modelled by a lexer, a
      precedence-climbing parser and an evaluator over the real numbers
      (module [Expr]); the toolkit computes in binary floating point, the
      evaluator is its exact-arithmetic idealisation, and a value that is
      not a finite real (division by zero, square root of a negative
      number) is [None];
    - the toolkit's force objects are records, the classes of [forces.py]
      are functions that build and update them, and a constructor that can
      raise returns a sum whose left side is the exception;
    - [splitPotentialEnergy] runs in a store of mutable objects, so that
      what it writes and what it leaves alone can be stated.

    The arguments that are physical quantities (a value with a unit, which
    the code divides by its unit or compares with another quantity) are
    real numbers in the toolkit's base units (nanometre, kilojoule per
    mole, dalton, elementary charge). *)

From Stdlib Require Import Reals Lra ZArith String Ascii List.
From Stdlib Require Import DecimalString DecimalN DecimalZ.
From stdpp Require Import base option gmap strings list.

(** Comparisons of real numbers, as decisions. *)
#[global] Instance Req_decision : EqDecision R := Req_dec_T.
#[global] Instance Rle_decision (x y : R) : Decision (x <= y)%R := Rle_dec x y.
#[global] Instance Rlt_decision (x y : R) : Decision (x < y)%R := Rlt_dec x y.

(** * Text helpers of [utils.py] *)

(** [LennardJones(r)]: ["4*epsilon*((sigma/%s)^12 - (sigma/%s)^6)" % (r, r)] *)
Definition LennardJones (r : string) : string :=
  "4*epsilon*((sigma/" +:+ r +:+ ")^12 - (sigma/" +:+ r +:+ ")^6)".

(** [Coulomb(r)]: ["Kc*chargeprod/%s" % r] *)
Definition Coulomb (r : string) : string :=
  "Kc*chargeprod/" +:+ r.

(** [LorentzBerthelot()]: three definitions appended to one string. *)
Definition LorentzBerthelot : string :=
  let mixingRule := "chargeprod = charge1*charge2;" in
  let mixingRule := mixingRule +:+ "sigma = 0.5*(sigma1+sigma2);" in
  let mixingRule := mixingRule +:+ "epsilon = sqrt(epsilon1*epsilon2);" in
  mixingRule.

(** Python's ["%d" % n] and [str(n)] for an integer [n]. *)
Definition fmt_d (n : Z) : string :=
  NilZero.string_of_int (Z.to_int n).

(** * The toolkit's expression language *)

Module Expr.

(** ** Tokens *)

(** A number token [TNum m e] stands for [m / 10^e]. *)
Inductive token : Type :=
| TNum (m : N) (e : nat)
| TId (x : string)
| TSym (c : ascii).

Definition is_digit (c : ascii) : bool :=
  let n := N_of_ascii c in ((48 <=? n) && (n <=? 57))%N.

Definition is_alpha (c : ascii) : bool :=
  let n := N_of_ascii c in
  (((65 <=? n) && (n <=? 90)) || ((97 <=? n) && (n <=? 122)) || (n =? 95))%N.

Definition is_dot (c : ascii) : bool := Ascii.eqb c ".".

Definition is_word (c : ascii) : bool := is_digit c || is_alpha c || is_dot c.

Definition is_space (c : ascii) : bool :=
  let n := N_of_ascii c in ((n =? 32) || (n =? 9) || (n =? 10) || (n =? 13))%N.

(** Operators, parentheses, and the separators [;] and [=] of definitions. *)
Definition is_sym (c : ascii) : bool :=
  existsb (Ascii.eqb c) (list_ascii_of_string "+-*/^();=").

Fixpoint before_dot (w : string) : string :=
  match w with
  | EmptyString => EmptyString
  | String c r => if is_dot c then EmptyString else String c (before_dot r)
  end.

Fixpoint after_dot (w : string) : option string :=
  match w with
  | EmptyString => None
  | String c r => if is_dot c then Some r else after_dot r
  end.

Definition number_of_word (w : string) : option token :=
  match after_dot w with
  | None => d ← NilZero.uint_of_string w; Some (TNum (N.of_uint d) 0)
  | Some f =>
      d ← NilZero.uint_of_string (before_dot w +:+ f);
      Some (TNum (N.of_uint d) (String.length f))
  end.

Definition is_ident (w : string) : bool :=
  forallb (fun c => is_digit c || is_alpha c) (list_ascii_of_string w).

Definition token_of_word (w : string) : option token :=
  match w with
  | EmptyString => None
  | String c _ =>
      if is_digit c || is_dot c then number_of_word w
      else if is_ident w then Some (TId w) else None
  end.

(** The word read so far is kept reversed, as a list of characters. *)
Definition flush (w : list ascii) (acc : list token) : option (list token) :=
  match w with
  | [] => Some acc
  | _ => t ← token_of_word (string_of_list_ascii (rev w)); Some (t :: acc)
  end.

(** The characters are read from left to right; the state is the word
    being read and the tokens read so far, both in reverse order. *)
Fixpoint lex_state (s : string) (w : list ascii) (acc : list token)
  : option (list ascii * list token) :=
  match s with
  | EmptyString => Some (w, acc)
  | String c r =>
      if is_word c then lex_state r (c :: w) acc
      else
        acc' ← flush w acc;
        if is_space c then lex_state r [] acc'
        else if is_sym c then lex_state r [] (TSym c :: acc')
        else None
  end.

Definition lex (s : string) : option (list token) :=
  '(w, acc) ← lex_state s [] [];
  acc' ← flush w acc;
  Some (rev acc').

(** The decimal text of a natural number, and the test that a text is
    made of digits only. *)
Definition decimal (n : N) : string := NilZero.string_of_uint (N.to_uint n).

Definition all_digits (s : string) : bool :=
  forallb is_digit (list_ascii_of_string s).

(** ** Syntax trees *)

Inductive binop : Type := Add | Sub | Mul | Div | Pow.

Inductive expr : Type :=
| ENum (m : N) (e : nat)
| EVar (x : string)
| ECall (f : string) (a : expr)
| ENeg (a : expr)
| EBin (op : binop) (a b : expr).

Definition binop_of (c : ascii) : option binop :=
  if Ascii.eqb c "+" then Some Add
  else if Ascii.eqb c "-" then Some Sub
  else if Ascii.eqb c "*" then Some Mul
  else if Ascii.eqb c "/" then Some Div
  else if Ascii.eqb c "^" then Some Pow
  else None.

Definition precedence (op : binop) : nat :=
  match op with Add | Sub => 0 | Mul | Div => 1 | Pow => 3 end.

Definition left_assoc (op : binop) : bool :=
  match op with Pow => false | _ => true end.

(** ** Precedence climbing

    [parsePrecedence] reads one operand (a number, a variable, a call
    [f(e)], a parenthesised expression, or a negation, which binds with
    precedence 2) and [parseOperators] then folds in the binary operators
    whose precedence is at least [prec]. *)
Fixpoint parsePrecedence (fuel : nat) (toks : list token) (prec : nat)
  : option (expr * list token) :=
  match fuel with
  | O => None
  | S fuel =>
      match toks with
      | TNum m e :: rest => parseOperators fuel (ENum m e) rest prec
      | TId f :: TSym "(" :: rest =>
          '(a, rest) ← parsePrecedence fuel rest 0;
          match rest with
          | TSym ")" :: rest => parseOperators fuel (ECall f a) rest prec
          | _ => None
          end
      | TId x :: rest => parseOperators fuel (EVar x) rest prec
      | TSym "(" :: rest =>
          '(a, rest) ← parsePrecedence fuel rest 0;
          match rest with
          | TSym ")" :: rest => parseOperators fuel a rest prec
          | _ => None
          end
      | TSym "-" :: rest =>
          '(a, rest) ← parsePrecedence fuel rest 2;
          parseOperators fuel (ENeg a) rest prec
      | _ => None
      end
  end
with parseOperators (fuel : nat) (lhs : expr) (toks : list token) (prec : nat)
  : option (expr * list token) :=
  match fuel with
  | O => None
  | S fuel =>
      match toks with
      | TSym c :: rest =>
          match binop_of c with
          | Some op =>
              if precedence op <? prec then Some (lhs, toks)
              else
                '(rhs, rest) ← parsePrecedence fuel rest
                  (if left_assoc op then S (precedence op) else precedence op);
                parseOperators fuel (EBin op lhs rhs) rest prec
          | None => Some (lhs, toks)
          end
      | _ => Some (lhs, toks)
      end
  end.

Definition parse_expr (toks : list token) : option expr :=
  '(e, rest) ← parsePrecedence (2 * length toks + 2) toks 0;
  match rest with [] => Some e | _ => None end.

(** ** Expressions with definitions

    The text is [main; x1 = e1; x2 = e2; ...].  A definition may use the
    ones written after it, and the main expression may use all of them. *)
Record program : Type := Program { main : expr; defs : list (string * expr) }.

Fixpoint split_semi (toks cur : list token) : list (list token) :=
  match toks with
  | [] => [rev cur]
  | TSym ";" :: rest => rev cur :: split_semi rest []
  | t :: rest => split_semi rest (t :: cur)
  end.

Definition parse_def (toks : list token) : option (string * expr) :=
  match toks with
  | TId x :: TSym "=" :: rhs => e ← parse_expr rhs; Some (x, e)
  | _ => None
  end.

Fixpoint parse_defs (pieces : list (list token)) : option (list (string * expr)) :=
  match pieces with
  | [] => Some []
  | [] :: rest => parse_defs rest
  | p :: rest => d ← parse_def p; ds ← parse_defs rest; Some (d :: ds)
  end.

Definition parse (s : string) : option program :=
  toks ← lex s;
  match split_semi toks [] with
  | [] => None
  | m :: ds => e ← parse_expr m; ds ← parse_defs ds; Some (Program e ds)
  end.

(** A text made of definitions only. *)
Definition parse_definitions (s : string) : option (list (string * expr)) :=
  toks ← lex s; parse_defs (split_semi toks []).

(** ** Evaluation over the reals *)

Local Open Scope R_scope.

(** The complementary error function, [erfc x = 1 - 2/sqrt(pi) * int_0^x exp(-t^2) dt]. *)
Definition gauss (t : R) : R := exp (- (t * t)).

Lemma gauss_continuity : continuity gauss.
Proof. unfold gauss. reg. Qed.

Definition erf_nonneg (x : R) (H : 0 <= x) : R :=
  2 / sqrt PI *
  RiemannInt (continuity_implies_RiemannInt H (fun t _ => gauss_continuity t)).

Lemma opp_nonneg (x : R) : ~ 0 <= x -> 0 <= - x.
Proof. lra. Qed.

Definition erf (x : R) : R :=
  match Rle_dec 0 x with
  | left H => erf_nonneg x H
  | right H => - erf_nonneg (- x) (opp_nonneg x H)
  end.

Definition erfc (x : R) : R := 1 - erf x.

(** [step(x)] is 1 for [x >= 0] and 0 otherwise. *)
Definition step (x : R) : R := if Rle_dec 0 x then 1 else 0.

Definition apply_fun (f : string) (x : R) : option R :=
  if String.eqb f "sqrt" then (if Rle_dec 0 x then Some (sqrt x) else None)
  else if String.eqb f "step" then Some (step x)
  else if String.eqb f "erfc" then Some (erfc x)
  else if String.eqb f "exp" then Some (exp x)
  else None.

(** An environment gives each name a value, or [None] when the name is
    that of a definition whose value is not a finite real. *)
Definition env : Type := list (string * option R).

Definition bind_values (l : list (string * R)) : env :=
  map (fun '(x, v) => (x, Some v)) l.

Fixpoint lookup (x : string) (rho : env) : option R :=
  match rho with
  | [] => None
  | (y, v) :: rho => if String.eqb x y then v else lookup x rho
  end.

Definition apply_binop (op : binop) (x y : R) : option R :=
  match op with
  | Add => Some (x + y)
  | Sub => Some (x - y)
  | Mul => Some (x * y)
  | Div => if Req_dec_T y 0 then None else Some (x / y)
  | Pow => None
  end.

(** A power is evaluated for an exponent that is an integer literal, which
    is the only kind the expressions of this package contain. *)
Definition apply_pow (x : R) (b : expr) : option R :=
  match b with
  | ENum n O => Some (x ^ N.to_nat n)
  | ENeg (ENum n O) => if Req_dec_T x 0 then None else Some (/ x ^ N.to_nat n)
  | _ => None
  end.

Fixpoint eval (rho : env) (e : expr) : option R :=
  match e with
  | ENum m k => Some (IZR (Z.of_N m) / 10 ^ k)
  | EVar x => lookup x rho
  | ECall f a => x ← eval rho a; apply_fun f x
  | ENeg a => x ← eval rho a; Some (- x)
  | EBin Pow a b => x ← eval rho a; apply_pow x b
  | EBin op a b => x ← eval rho a; y ← eval rho b; apply_binop op x y
  end.

(** A definition stands for its right-hand side, read in the environment
    of the definitions written after it; the main expression sees them
    all. A definition that has no value only matters where it is used. *)
Fixpoint eval_defs (ds : list (string * expr)) (rho : env) : env :=
  match ds with
  | [] => rho
  | (x, e) :: ds => let rho' := eval_defs ds rho in (x, eval rho' e) :: rho'
  end.

Definition eval_program (p : program) (rho : env) : option R :=
  eval (eval_defs (defs p) rho) (main p).

(** The value of one named definition of the program. *)
Definition eval_variable (p : program) (rho : env) (x : string) : option R :=
  lookup x (eval_defs (defs p) rho).

End Expr.

(** * Exceptions

    [InputError] is the class of [utils.py]; [OpenMMException] is the
    toolkit's own; the others are Python's. A function that can raise
    returns [exn + A]. *)
Inductive exn : Type :=
| InputError (msg : string)
| OpenMMException (msg : string)
| IndexError (msg : string)
| AttributeError (msg : string)
| TypeError (msg : string).

Definition raises {A : Type} (r : exn + A) (e : exn) : Prop := r = inl e.

Definition returns {A : Type} (r : exn + A) (a : A) : Prop := r = inr a.

#[global] Instance exn_ret : MRet (sum exn) := fun A a => inr a.

#[global] Instance exn_bind : MBind (sum exn) :=
  fun A B k r =>
    match r with
    | inl e => inl e
    | inr a => k a
    end.

(** * The toolkit's force objects *)

Module OpenMM.

Local Open Scope R_scope.

Inductive NonbondedMethod : Type :=
| NoCutoff | CutoffNonPeriodic | CutoffPeriodic | Ewald | PME | LJPME.

(** ** [CustomNonbondedForce] *)

Record CustomNonbondedForce : Type := MkCustomNonbondedForce {
  cnb_energy : string;
  cnb_perParticleParameters : list string;
  cnb_globalParameters : list (string * R);
  cnb_nonbondedMethod : NonbondedMethod;
  cnb_cutoffDistance : R;
  cnb_useLongRangeCorrection : bool;
  cnb_useSwitchingFunction : bool;
  cnb_switchingDistance : R;
  cnb_particles : list (list R);
  cnb_exclusions : list (nat * nat);
  cnb_forceGroup : Z
}.

(** A new force has no cutoff, no switching and belongs to group 0. *)
Definition CustomNonbondedForce_new (energy : string) : CustomNonbondedForce :=
  MkCustomNonbondedForce energy [] [] NoCutoff 1 false false (-1) [] [] 0.

Definition cnb_addPerParticleParameter (name : string) (f : CustomNonbondedForce) :=
  let '(MkCustomNonbondedForce e pp gp m c l u s ps ex g) := f in
  MkCustomNonbondedForce e (pp ++ [name]) gp m c l u s ps ex g.

Definition cnb_addGlobalParameter (name : string) (v : R) (f : CustomNonbondedForce) :=
  let '(MkCustomNonbondedForce e pp gp m c l u s ps ex g) := f in
  MkCustomNonbondedForce e pp (gp ++ [(name, v)]) m c l u s ps ex g.

Definition cnb_setNonbondedMethod (m' : NonbondedMethod) (f : CustomNonbondedForce) :=
  let '(MkCustomNonbondedForce e pp gp m c l u s ps ex g) := f in
  MkCustomNonbondedForce e pp gp m' c l u s ps ex g.

Definition cnb_setCutoffDistance (c' : R) (f : CustomNonbondedForce) :=
  let '(MkCustomNonbondedForce e pp gp m c l u s ps ex g) := f in
  MkCustomNonbondedForce e pp gp m c' l u s ps ex g.

Definition cnb_setUseLongRangeCorrection (l' : bool) (f : CustomNonbondedForce) :=
  let '(MkCustomNonbondedForce e pp gp m c l u s ps ex g) := f in
  MkCustomNonbondedForce e pp gp m c l' u s ps ex g.

Definition cnb_setUseSwitchingFunction (u' : bool) (f : CustomNonbondedForce) :=
  let '(MkCustomNonbondedForce e pp gp m c l u s ps ex g) := f in
  MkCustomNonbondedForce e pp gp m c l u' s ps ex g.

Definition cnb_setSwitchingDistance (s' : R) (f : CustomNonbondedForce) :=
  let '(MkCustomNonbondedForce e pp gp m c l u s ps ex g) := f in
  MkCustomNonbondedForce e pp gp m c l u s' ps ex g.

Definition cnb_addParticle (p : list R) (f : CustomNonbondedForce) :=
  let '(MkCustomNonbondedForce e pp gp m c l u s ps ex g) := f in
  MkCustomNonbondedForce e pp gp m c l u s (ps ++ [p]) ex g.

Definition cnb_addExclusion (i j : nat) (f : CustomNonbondedForce) :=
  let '(MkCustomNonbondedForce e pp gp m c l u s ps ex g) := f in
  MkCustomNonbondedForce e pp gp m c l u s ps (ex ++ [(i, j)]) g.

Definition cnb_setForceGroup (g' : Z) (f : CustomNonbondedForce) :=
  let '(MkCustomNonbondedForce e pp gp m c l u s ps ex g) := f in
  MkCustomNonbondedForce e pp gp m c l u s ps ex g'.

(** ** [NonbondedForce] *)

Record Exception : Type := MkException {
  exc_i : nat; exc_j : nat;
  exc_chargeprod : R; exc_sigma : R; exc_epsilon : R
}.

Record NonbondedForce : Type := MkNonbondedForce {
  nb_nonbondedMethod : NonbondedMethod;
  nb_cutoffDistance : R;
  nb_useDispersionCorrection : bool;
  nb_useSwitchingFunction : bool;
  nb_switchingDistance : R;
  nb_particles : list (R * R * R);       (* charge, sigma, epsilon *)
  nb_exceptions : list Exception;
  nb_forceGroup : Z
}.

Definition NonbondedForce_new : NonbondedForce :=
  MkNonbondedForce NoCutoff 1 true false (-1) [] [] 0.

Definition nb_setNonbondedMethod (m' : NonbondedMethod) (f : NonbondedForce) :=
  let '(MkNonbondedForce m c d u s ps xs g) := f in MkNonbondedForce m' c d u s ps xs g.

Definition nb_setCutoffDistance (c' : R) (f : NonbondedForce) :=
  let '(MkNonbondedForce m c d u s ps xs g) := f in MkNonbondedForce m c' d u s ps xs g.

Definition nb_setUseDispersionCorrection (d' : bool) (f : NonbondedForce) :=
  let '(MkNonbondedForce m c d u s ps xs g) := f in MkNonbondedForce m c d' u s ps xs g.

Definition nb_setUseSwitchingFunction (u' : bool) (f : NonbondedForce) :=
  let '(MkNonbondedForce m c d u s ps xs g) := f in MkNonbondedForce m c d u' s ps xs g.

Definition nb_setSwitchingDistance (s' : R) (f : NonbondedForce) :=
  let '(MkNonbondedForce m c d u s ps xs g) := f in MkNonbondedForce m c d u s' ps xs g.

Definition nb_addParticle (charge sigma epsilon : R) (f : NonbondedForce) :=
  let '(MkNonbondedForce m c d u s ps xs g) := f in
  MkNonbondedForce m c d u s (ps ++ [(charge, sigma, epsilon)]) xs g.

Definition nb_addException (i j : nat) (chargeprod sigma epsilon : R) (f : NonbondedForce) :=
  let '(MkNonbondedForce m c d u s ps xs g) := f in
  MkNonbondedForce m c d u s ps (xs ++ [MkException i j chargeprod sigma epsilon]) g.

Definition nb_setForceGroup (g' : Z) (f : NonbondedForce) :=
  let '(MkNonbondedForce m c d u s ps xs g) := f in MkNonbondedForce m c d u s ps xs g'.

(** ** [CustomBondForce] *)

Record CustomBondForce : Type := MkCustomBondForce {
  cb_energy : string;
  cb_globalParameters : list (string * R);
  cb_perBondParameters : list string;
  cb_bonds : list (nat * nat * list R);
  cb_forceGroup : Z
}.

Definition CustomBondForce_new (energy : string) : CustomBondForce :=
  MkCustomBondForce energy [] [] [] 0.

Definition cb_addGlobalParameter (name : string) (v : R) (f : CustomBondForce) :=
  let '(MkCustomBondForce e gp bp bs g) := f in MkCustomBondForce e (gp ++ [(name, v)]) bp bs g.

Definition cb_addPerBondParameter (name : string) (f : CustomBondForce) :=
  let '(MkCustomBondForce e gp bp bs g) := f in MkCustomBondForce e gp (bp ++ [name]) bs g.

Definition cb_addBond (i j : nat) (params : list R) (f : CustomBondForce) :=
  let '(MkCustomBondForce e gp bp bs g) := f in MkCustomBondForce e gp bp (bs ++ [(i, j, params)]) g.

Definition cb_setForceGroup (g' : Z) (f : CustomBondForce) :=
  let '(MkCustomBondForce e gp bp bs g) := f in MkCustomBondForce e gp bp bs g'.

(** ** Any force of a system *)

(** [FOther] stands for a force of any other class of the toolkit; of
    such a force only the class name and the group are kept. *)
Inductive Force : Type :=
| FNonbonded (f : NonbondedForce)
| FCustomNonbonded (f : CustomNonbondedForce)
| FCustomBond (f : CustomBondForce)
| FOther (className : string) (forceGroup : Z).

(** [force.__class__.__name__] *)
Definition className (f : Force) : string :=
  match f with
  | FNonbonded _ => "NonbondedForce"
  | FCustomNonbonded _ => "CustomNonbondedForce"
  | FCustomBond _ => "CustomBondForce"
  | FOther c _ => c
  end.

Definition getForceGroup (f : Force) : Z :=
  match f with
  | FNonbonded f => nb_forceGroup f
  | FCustomNonbonded f => cnb_forceGroup f
  | FCustomBond f => cb_forceGroup f
  | FOther _ g => g
  end.

(** [Force.setForceGroup]: legal groups are 0 to 31. *)
Definition setForceGroup (group : Z) (f : Force) : exn + Force :=
  if ((group <? 0) || (31 <? group))%Z
  then inl (OpenMMException "Force group must be between 0 and 31")
  else inr match f with
           | FNonbonded f => FNonbonded (nb_setForceGroup group f)
           | FCustomNonbonded f => FCustomNonbonded (cnb_setForceGroup group f)
           | FCustomBond f => FCustomBond (cb_setForceGroup group f)
           | FOther c _ => FOther c group
           end.

End OpenMM.

(** ** What the toolkit computes for a pair

    A [CustomNonbondedForce] with a cutoff gives no energy to a pair at or
    beyond the cutoff distance; inside it, the energy is the value of the
    expression, times the toolkit's own switching function when that is
    enabled. The expression sees the distance as [r], the global
    parameters under their names, and the per-particle parameters of the
    two particles under their names followed by [1] and [2]. *)

Module Energy.

Import OpenMM.
Local Open Scope R_scope.

Definition uses_cutoff (m : NonbondedMethod) : bool :=
  match m with NoCutoff => false | _ => true end.

(** The toolkit's switching function between [rs] and [rc]. *)
Definition switching (rs rc r : R) : R :=
  if Rlt_dec rs r then
    let t := (r - rs) / (rc - rs) in
    1 + t * t * t * (-10 + t * (15 - t * 6))
  else 1.

Definition switchValue (f : CustomNonbondedForce) (r : R) : R :=
  if uses_cutoff (cnb_nonbondedMethod f) && cnb_useSwitchingFunction f
  then switching (cnb_switchingDistance f) (cnb_cutoffDistance f) r
  else 1.

Definition suffixed (k : string) (names : list string) (values : list R)
  : list (string * R) :=
  zip (map (fun n => n +:+ k) names) values.

Definition pair_env (f : CustomNonbondedForce) (p1 p2 : list R) (r : R) : Expr.env :=
  Expr.bind_values
    (("r", r) :: cnb_globalParameters f
       ++ suffixed "1" (cnb_perParticleParameters f) p1
       ++ suffixed "2" (cnb_perParticleParameters f) p2).

Definition beyond_cutoff (f : CustomNonbondedForce) (r : R) : bool :=
  uses_cutoff (cnb_nonbondedMethod f)
  && (if Rle_dec (cnb_cutoffDistance f) r then true else false).

Definition pair_energy (f : CustomNonbondedForce) (p1 p2 : list R) (r : R) : option R :=
  p ← Expr.parse (cnb_energy f);
  if beyond_cutoff f r then Some 0
  else e ← Expr.eval_program p (pair_env f p1 p2 r); Some (switchValue f r * e).

(** The value of a named definition of the energy expression for a pair. *)
Definition pair_variable (f : CustomNonbondedForce) (x : string)
    (p1 p2 : list R) (r : R) : option R :=
  p ← Expr.parse (cnb_energy f);
  Expr.eval_variable p (pair_env f p1 p2 r) x.

(** The factor by which the force scales the potential of a pair: the
    toolkit's switching value times the [S] of the energy expression. *)
Definition multiplier (f : CustomNonbondedForce) (p1 p2 : list R) (r : R) : option R :=
  s ← pair_variable f "S" p1 p2 r; Some (switchValue f r * s).

(** A [CustomBondForce] evaluates its expression for each bond, with the
    per-bond parameters under their names; no cutoff applies. *)
Definition bond_env (f : CustomBondForce) (params : list R) (r : R) : Expr.env :=
  Expr.bind_values
    (("r", r) :: cb_globalParameters f ++ zip (cb_perBondParameters f) params).

Definition bond_energy (f : CustomBondForce) (params : list R) (r : R) : option R :=
  p ← Expr.parse (cb_energy f);
  Expr.eval_program p (bond_env f params r).

End Energy.

(** * The classes of [forces.py] *)

Import OpenMM.

(** Coulomb's constant, [138.935456*unit.kilojoules/unit.nanometer]. *)
Definition Kc : R := 138.935456%R.

(** ** [_NonbondedForce], an extension of the toolkit's [NonbondedForce] *)

Module _NonbondedForce.

Definition __init__ (cutoff_distance : R) (switch_distance : option R)
    (nonbondedMethod : NonbondedMethod) : NonbondedForce :=
  let self := NonbondedForce_new in
  let self := nb_setNonbondedMethod nonbondedMethod self in
  let self := nb_setCutoffDistance cutoff_distance self in
  let self := nb_setUseDispersionCorrection true self in
  match switch_distance with
  | None => nb_setUseSwitchingFunction false self
  | Some switch_distance =>
      let self := nb_setUseSwitchingFunction true self in
      nb_setSwitchingDistance switch_distance self
  end.

(** Every particle is copied; every exception is copied with its charge
    product and its epsilon multiplied by zero. *)
Definition importFrom (force : NonbondedForce) (self : NonbondedForce) : NonbondedForce :=
  let self :=
    fold_left (fun self '(charge, sigma, epsilon) => nb_addParticle charge sigma epsilon self)
              (nb_particles force) self in
  fold_left (fun self x =>
               nb_addException (exc_i x) (exc_j x)
                 (0.0 * exc_chargeprod x) (exc_sigma x) (0.0 * exc_epsilon x) self)
            (nb_exceptions force) self.

End _NonbondedForce.

(** ** [_CustomNonbondedForce], an extension of [CustomNonbondedForce] *)

Module _CustomNonbondedForce.

Definition default_parameters : list string := ["charge"; "sigma"; "epsilon"].

Definition __init__ (energy : string) (cutoff_distance : R) (switch_distance : option R)
    (parameters : list string) (kwargs : list (string * R)) : CustomNonbondedForce :=
  let self := CustomNonbondedForce_new energy in
  let self := fold_left (fun self name => cnb_addPerParticleParameter name self)
                        parameters self in
  let self := fold_left (fun self '(name, value) => cnb_addGlobalParameter name value self)
                        kwargs self in
  let self := cnb_setNonbondedMethod CutoffPeriodic self in
  let self := cnb_setCutoffDistance cutoff_distance self in
  let self := cnb_setUseLongRangeCorrection false self in
  match switch_distance with
  | None => cnb_setUseSwitchingFunction false self
  | Some switch_distance =>
      let self := cnb_setUseSwitchingFunction true self in
      cnb_setSwitchingDistance switch_distance self
  end.

(** Every particle is copied; every exception becomes an exclusion. *)
Definition importFrom (force : NonbondedForce) (self : CustomNonbondedForce)
  : CustomNonbondedForce :=
  let self :=
    fold_left (fun self '(charge, sigma, epsilon) => cnb_addParticle [charge; sigma; epsilon] self)
              (nb_particles force) self in
  fold_left (fun self x => cnb_addExclusion (exc_i x) (exc_j x) self)
            (nb_exceptions force) self.

End _CustomNonbondedForce.

(** ** [_CustomBondForce], an extension of [CustomBondForce] *)

Module _CustomBondForce.

Definition __init__ : CustomBondForce :=
  let energy := LennardJones "r" +:+ "+" +:+ Coulomb "r" +:+ ";" in
  let self := CustomBondForce_new energy in
  let self := cb_addGlobalParameter "Kc" Kc self in
  let self := cb_addPerBondParameter "chargeprod" self in
  let self := cb_addPerBondParameter "sigma" self in
  cb_addPerBondParameter "epsilon" self.

(** An exception becomes a bond unless both its charge product and its
    epsilon are zero. *)
Definition importFrom (force : NonbondedForce) (self : CustomBondForce) : CustomBondForce :=
  fold_left (fun self x =>
               if negb (bool_decide (exc_chargeprod x = 0.0%R))
                  || negb (bool_decide (exc_epsilon x = 0.0%R))
               then cb_addBond (exc_i x) (exc_j x)
                      [exc_chargeprod x; exc_sigma x; exc_epsilon x] self
               else self)
            (nb_exceptions force) self.

End _CustomBondForce.

(** ** [Force], a list of toolkit forces treated as one *)

Module Force.

Record t : Type := Build { forces : list OpenMM.Force }.

Definition setForceGroup (group : Z) (self : t) : exn + t :=
  fs ← mapM (OpenMM.setForceGroup group) (forces self); mret (Build fs).

Definition __init__ (forces : list OpenMM.Force) : exn + t :=
  setForceGroup 0 (Build forces).

Definition getForceGroup (self : t) : exn + Z :=
  match forces self with
  | [] => inl (IndexError "list index out of range")
  | f :: _ => inr (OpenMM.getForceGroup f)
  end.

Definition includeExceptions (self : t) : exn + t :=
  let exceptions := FCustomBond _CustomBondForce.__init__ in
  group ← getForceGroup self;
  exceptions ← OpenMM.setForceGroup group exceptions;
  mret (Build (forces self ++ [exceptions])).

(** [importFrom] calls the [importFrom] of each force of the list, which
    the three classes above define. *)
Definition importFrom_one (force : NonbondedForce) (f : OpenMM.Force) : exn + OpenMM.Force :=
  match f with
  | FNonbonded f => inr (FNonbonded (_NonbondedForce.importFrom force f))
  | FCustomNonbonded f => inr (FCustomNonbonded (_CustomNonbondedForce.importFrom force f))
  | FCustomBond f => inr (FCustomBond (_CustomBondForce.importFrom force f))
  | FOther _ _ => inl (AttributeError "object has no attribute 'importFrom'")
  end.

Definition importFrom (force : NonbondedForce) (self : t) : exn + t :=
  fs ← mapM (importFrom_one force) (forces self); mret (Build fs).

End Force.

(** ** [DampedSmoothedForce] *)

Module DampedSmoothedForce.

Definition energy (degree : Z) : string :=
  let energy := "S*(" +:+ LennardJones "r" +:+ " + erfc(alpha*r)*" +:+ Coulomb "r" +:+ ");" in
  let energy :=
    if (degree =? 1)%Z then energy +:+ "S = 1;"
    else
      let energy := energy +:+ "S = 1 + step(r - rswitch)*u^3*(15*u - 6*u^2 - 10);" in
      energy +:+ ("u = (r^" +:+ fmt_d degree +:+ " - rswitch^" +:+ fmt_d degree
                  +:+ ")/(rcut^" +:+ fmt_d degree +:+ " - rswitch^" +:+ fmt_d degree +:+ ");") in
  energy +:+ LorentzBerthelot.

Definition __init__ (alpha cutoff_distance switch_distance : R) (degree : Z) : exn + Force.t :=
  if bool_decide (switch_distance < 0.0)%R || bool_decide (switch_distance >= cutoff_distance)%R
  then inl (InputError "Switching distance must satisfy 0 <= r_switch < r_cutoff")
  else
    let force :=
      _CustomNonbondedForce.__init__ (energy degree) cutoff_distance
        (if (degree =? 1)%Z then Some switch_distance else None)
        _CustomNonbondedForce.default_parameters
        [("Kc", Kc); ("alpha", alpha); ("rswitch", switch_distance); ("rcut", cutoff_distance)] in
    Force.__init__ [FCustomNonbonded force].

End DampedSmoothedForce.

(** ** [NonbondedExceptionsForce] *)

Module NonbondedExceptionsForce.

Definition __init__ : exn + Force.t :=
  Force.__init__ [FCustomBond _CustomBondForce.__init__].

End NonbondedExceptionsForce.

(** ** [NearNonbondedForce] *)

Module NearNonbondedForce.

(** The object keeps, besides its list of forces, the attributes [index],
    [rswitch], [rcut] and [shifted]. *)
Record t : Type := Build {
  base : Force.t;
  index : Z;
  rswitch : R;
  rcut : R;
  shifted : bool
}.

Definition energy (shifted : bool) : string :=
  let potential := LennardJones "r" +:+ "+" +:+ Coulomb "r" in
  let potential :=
    if shifted
    then potential +:+ ("-(" +:+ LennardJones "rc0" +:+ "+" +:+ Coulomb "rc0" +:+ ")")
    else potential in
  potential +:+ "; " +:+ LorentzBerthelot.

Definition __init__ (cutoff_distance switch_distance : R) (shifted : bool) : exn + t :=
  let globalParams := [("Kc", Kc); ("rc0", cutoff_distance)] in
  let force :=
    _CustomNonbondedForce.__init__ (energy shifted) cutoff_distance (Some switch_distance)
      _CustomNonbondedForce.default_parameters globalParams in
  self ← Force.__init__ [FCustomNonbonded force];
  mret (Build self 0 switch_distance cutoff_distance shifted).

End NearNonbondedForce.

(** ** Python values that can be passed as [preceding] *)

Inductive value : Type :=
| VNone
| VNumber (x : R)
| VString (s : string)
| VDampedSmoothedForce (f : Force.t)
| VNonbondedExceptionsForce (f : Force.t)
| VNearNonbondedForce (f : NearNonbondedForce.t)
| VFarNonbondedForce (f : Force.t).

(** [isinstance(v, NearNonbondedForce)] *)
Definition isinstance_NearNonbondedForce (v : value) : bool :=
  match v with
  | VNearNonbondedForce _ => true
  | _ => false
  end.

(** Reading [v.index], [v.rswitch], [v.rcut] and [v.shifted]: only a
    [NearNonbondedForce] has them. *)
Definition attributes (v : value) : exn + NearNonbondedForce.t :=
  match v with
  | VNearNonbondedForce f => inr f
  | _ => inl (AttributeError "object has no attribute 'index'")
  end.

(** ** [FarNonbondedForce] *)

Module FarNonbondedForce.

Definition energy (rsi rci : string) (shifted : bool) : string :=
  let potential := "-(" +:+ LennardJones "r" +:+ "+" +:+ Coulomb "r" +:+ ")" in
  let potential :=
    if shifted
    then potential +:+ ("+" +:+ LennardJones rci +:+ "+" +:+ Coulomb rci)
    else potential in
  let energy := "step(" +:+ rci +:+ "-r)*S*(" +:+ potential +:+ ");" in
  let energy := energy +:+ ("S = 1 + step(r - " +:+ rsi +:+ ")*u^3*(15*u - 6*u^2 - 10);") in
  let energy := energy +:+ ("u = (r - " +:+ rsi +:+ ")/(" +:+ rci +:+ " - " +:+ rsi +:+ ");") in
  energy +:+ LorentzBerthelot.

Definition __init__ (preceding : value) (cutoff_distance : R) (switch_distance : option R)
    (nonbondedMethod : NonbondedMethod) : exn + Force.t :=
  if negb (isinstance_NearNonbondedForce preceding)
  then inl (InputError "argument 'preceding' must be an internal RESPA force")
  else
    preceding ← attributes preceding;
    let rsi := "rs" +:+ fmt_d (NearNonbondedForce.index preceding) in
    let rci := "rc" +:+ fmt_d (NearNonbondedForce.index preceding) in
    let globalParams :=
      [("Kc", Kc); (rsi, NearNonbondedForce.rswitch preceding);
       (rci, NearNonbondedForce.rcut preceding)] in
    let discount :=
      _CustomNonbondedForce.__init__
        (energy rsi rci (NearNonbondedForce.shifted preceding))
        cutoff_distance None _CustomNonbondedForce.default_parameters globalParams in
    let total := _NonbondedForce.__init__ cutoff_distance switch_distance nonbondedMethod in
    Force.__init__ [FNonbonded total; FCustomNonbonded discount].

End FarNonbondedForce.

(** * Systems and the object store

    A system, its forces, a topology and a list of positions are mutable
    Python objects; the store maps their addresses to their current
    contents. A system refers to its forces by address, so a force read
    from a system and then modified is modified in that system. *)

Definition loc : Type := nat.

Record System : Type := MkSystem {
  sys_masses : list R;          (* one mass per particle *)
  sys_numConstraints : nat;
  sys_forces : list loc
}.

Record Topology : Type := MkTopology { top_atoms : list string }.

Definition Positions : Type := list (R * R * R).

Inductive object : Type :=
| OForce (f : OpenMM.Force)
| OSystem (s : System)
| OTopology (t : Topology)
| OPositions (ps : Positions).

(** A computation reads and writes the store and returns a value or raises. *)
Definition M (A : Type) : Type := gmap loc object -> (exn + A) * gmap loc object.

#[global] Instance M_ret : MRet M := fun A a sigma => (inr a, sigma).

#[global] Instance M_bind : MBind M :=
  fun A B k m sigma =>
    match m sigma with
    | (inl e, sigma') => (inl e, sigma')
    | (inr a, sigma') => k a sigma'
    end.

Definition raise {A : Type} (e : exn) : M A := fun sigma => (inl e, sigma).

Definition alloc (o : object) : M loc :=
  fun sigma => let l := fresh (dom sigma) in (inr l, <[l := o]> sigma).

Definition read_force (l : loc) : M OpenMM.Force :=
  fun sigma =>
    match sigma !! l with
    | Some (OForce f) => (inr f, sigma)
    | _ => (inl (TypeError "a Force is expected"), sigma)
    end.

Definition read_system (l : loc) : M System :=
  fun sigma =>
    match sigma !! l with
    | Some (OSystem s) => (inr s, sigma)
    | _ => (inl (TypeError "a System is expected"), sigma)
    end.

Definition read_topology (l : loc) : M Topology :=
  fun sigma =>
    match sigma !! l with
    | Some (OTopology t) => (inr t, sigma)
    | _ => (inl (TypeError "a Topology is expected"), sigma)
    end.

Definition read_positions (l : loc) : M Positions :=
  fun sigma =>
    match sigma !! l with
    | Some (OPositions ps) => (inr ps, sigma)
    | _ => (inl (TypeError "a list of positions is expected"), sigma)
    end.

Definition write (l : loc) (o : object) : M () :=
  fun sigma => (inr (), <[l := o]> sigma).

(** [force.setForceGroup(group)] on the force object at [l]. *)
Definition setForceGroup_at (l : loc) (group : Z) : M () :=
  f ← read_force l;
  match OpenMM.setForceGroup group f with
  | inl e => raise e
  | inr f' => write l (OForce f')
  end.

(** [deepcopy(system)]: a new system object with a new copy of each force. *)
Definition deepcopy (system : loc) : M loc :=
  s ← read_system system;
  fs ← mapM (fun l => f ← read_force l; alloc (OForce f)) (sys_forces s);
  alloc (OSystem (MkSystem (sys_masses s) (sys_numConstraints s) fs)).

(** A [for] loop that carries a value from one round to the next. *)
Fixpoint foldM {A B : Type} (f : B -> A -> M B) (b : B) (l : list A) : M B :=
  match l with
  | [] => mret b
  | x :: l => b' ← f b x; foldM f b' l
  end.

(** Python's [enumerate]. *)
Definition enumerate {A : Type} (l : list A) : list (Z * A) :=
  zip (map Z.of_nat (seq 0 (length l))) l.

(** * [utils.py] *)

(** ** [countDegreesOfFreedom] *)

Definition getParticleMass (system : System) (i : nat) : exn + R :=
  match sys_masses system !! i with
  | Some m => inr m
  | None => inl (OpenMMException "Assertion failure: index out of range")
  end.

Definition getNumParticles (system : System) : nat := length (sys_masses system).

Definition sum_Z (l : list Z) : Z := foldr Z.add 0%Z l.

Definition countDegreesOfFreedom (system : System) : exn + Z :=
  let N := getNumParticles system in
  masses ← mapM (getParticleMass system) (seq 0 N);
  let dof := (sum_Z (map (fun _ => 3) (filter (fun m => 0 < m)%R masses)) - 3)%Z in
  let dof := (dof - Z.of_nat (sys_numConstraints system))%Z in
  mret dof.

(** ** [splitPotentialEnergy] *)

Section SplitPotentialEnergy.

(** The energy the toolkit computes for one force at given positions. *)
Variable forceEnergy : OpenMM.Force -> Positions -> R.

(** A context holds the forces of its system as they were when it was
    created, and the positions set on it. *)
Record Context : Type := MkContext {
  ctx_numParticles : nat;
  ctx_forces : list OpenMM.Force;
  ctx_positions : Positions
}.

(** [app.Simulation(topology, system, integrator, platform)] *)
Definition Simulation (topology system : loc) : M Context :=
  _ ← read_topology topology;
  s ← read_system system;
  fs ← mapM read_force (sys_forces s);
  mret (MkContext (getNumParticles s) fs []).

(** [context.setPositions(positions)] *)
Definition setPositions (positions : loc) (ctx : Context) : M Context :=
  ps ← read_positions positions;
  if bool_decide (length ps = ctx_numParticles ctx)
  then mret (MkContext (ctx_numParticles ctx) (ctx_forces ctx) ps)
  else raise (OpenMMException "Called setPositions() on a Context with the wrong number of positions").

Definition sum_R (l : list R) : R := foldr Rplus 0%R l.

(** [context.getState(getEnergy=True, groups=set([group])).getPotentialEnergy()] *)
Definition getPotentialEnergy (ctx : Context) (group : Z) : R :=
  sum_R (map (fun f => forceEnergy f (ctx_positions ctx))
             (filter (fun f => getForceGroup f = group) (ctx_forces ctx))).

(** [sum(energy.values(), 0.0*unit.kilojoules_per_mole)] *)
Definition sum_values (energy : gmap string R) : R :=
  map_fold (fun _ v acc => (acc + v)%R) 0%R energy.

(** One round of the loop that fills [terms] and [energy]. *)
Definition record_term (forceType : string) (e : R)
    (acc : gmap string Z * gmap string R) : gmap string Z * gmap string R :=
  let '(terms, energy) := acc in
  match terms !! forceType with
  | None => (<[forceType := 0%Z]> terms, <[forceType := e]> energy)
  | Some n =>
      let n := (n + 1)%Z in
      (<[forceType := n]> terms,
       <[forceType +:+ "(" +:+ fmt_d n +:+ ")" := e]> energy)
  end.

Definition splitPotentialEnergy (system topology positions : loc) : M (gmap string R) :=
  syscopy ← deepcopy system;
  s ← read_system syscopy;
  let forces := sys_forces s in
  _ ← mapM (fun '(index, force) => setForceGroup_at force index) (enumerate forces);
  simulation ← Simulation topology syscopy;
  simulation ← setPositions positions simulation;
  '(terms, energy) ←
    foldM (fun acc '(index, force) =>
              let state := getPotentialEnergy simulation index in
              f ← read_force force;
              mret (record_term (className f) state acc))
           (∅, ∅) (enumerate forces);
  mret (<["Total" := sum_values energy]> energy).

End SplitPotentialEnergy.

(** * Energies of whole forces

    The distance between particles [i] and [j] is [dist i j]; how it comes
    from the positions (periodic images) is the toolkit's business. *)

Module Kernel.

Local Open Scope R_scope.

Definition sum_option (l : list (option R)) : option R :=
  foldr (fun o acc => x ← o; s ← acc; Some (x + s)) (Some 0) l.

(** The pairs [(i, j)] with [i < j < n]. *)
Definition all_pairs (n : nat) : list (nat * nat) :=
  flat_map (fun i => map (fun j => (i, j)) (seq (S i) (n - S i))) (seq 0 n).

Definition excluded (f : CustomNonbondedForce) (i j : nat) : bool :=
  existsb (fun '(a, b) => ((a =? i) && (b =? j) || (a =? j) && (b =? i))%nat)
          (cnb_exclusions f).

(** What the pair [(i, j)] adds to the energy of a [CustomNonbondedForce]:
    nothing when the pair is excluded. *)
Definition pair_contribution (f : CustomNonbondedForce) (dist : nat -> nat -> R)
    (i j : nat) : option R :=
  if excluded f i j then Some 0
  else
    p1 ← cnb_particles f !! i;
    p2 ← cnb_particles f !! j;
    Energy.pair_energy f p1 p2 (dist i j).

Definition custom_nonbonded_energy (f : CustomNonbondedForce) (dist : nat -> nat -> R)
  : option R :=
  sum_option (map (fun '(i, j) => pair_contribution f dist i j)
                  (all_pairs (length (cnb_particles f)))).

Definition custom_bond_energy (f : CustomBondForce) (dist : nat -> nat -> R) : option R :=
  sum_option (map (fun '(i, j, params) => Energy.bond_energy f params (dist i j))
                  (cb_bonds f)).

(** What an exception adds to the energy of the toolkit's [NonbondedForce]:
    the Lennard-Jones and Coulomb terms of its own parameters. *)
Definition exception_energy (x : Exception) (r : R) : R :=
  4 * exc_epsilon x * ((exc_sigma x / r) ^ 12 - (exc_sigma x / r) ^ 6)
  + Kc * exc_chargeprod x / r.

Section Native.

(** What the toolkit's [NonbondedForce] computes for a pair of particles
    that is not an exception: Lennard-Jones and Coulomb terms with the
    cutoff, switching and long-range method set on the force. *)
Variable native_pair_energy : NonbondedForce -> R * R * R -> R * R * R -> R -> option R.

Definition parameters (p : R * R * R) : list R :=
  let '(charge, sigma, epsilon) := p in [charge; sigma; epsilon].

Definition force_pair_energy (f : OpenMM.Force) (p1 p2 : R * R * R) (r : R) : option R :=
  match f with
  | FNonbonded f => native_pair_energy f p1 p2 r
  | FCustomNonbonded f => Energy.pair_energy f (parameters p1) (parameters p2) r
  | FCustomBond _ => Some 0
  | FOther _ _ => None
  end.

(** The energy a [Force] of this package gives to a pair is the sum over
    its toolkit forces. *)
Definition pair_energy (F : Force.t) (p1 p2 : R * R * R) (r : R) : option R :=
  sum_option (map (fun f => force_pair_energy f p1 p2 r) (Force.forces F)).

End Native.

End Kernel.

(** * The combination rule

    [combine] gives the three combined parameters of a pair of particles,
    as the text of [LorentzBerthelot] defines them; [pair_parameters] reads
    the same three names in the energy expression of a force. *)

Definition combine (p1 p2 : R * R * R) : option (R * R * R) :=
  ds ← Expr.parse_definitions LorentzBerthelot;
  let rho :=
    Expr.eval_defs ds
      (Expr.bind_values
         (Energy.suffixed "1" _CustomNonbondedForce.default_parameters (Kernel.parameters p1)
          ++ Energy.suffixed "2" _CustomNonbondedForce.default_parameters
               (Kernel.parameters p2))) in
  chargeprod ← Expr.lookup "chargeprod" rho;
  sigma ← Expr.lookup "sigma" rho;
  epsilon ← Expr.lookup "epsilon" rho;
  Some (chargeprod, sigma, epsilon).

Definition pair_parameters (f : CustomNonbondedForce) (p1 p2 : R * R * R) (r : R)
  : option (R * R * R) :=
  chargeprod ← Energy.pair_variable f "chargeprod" (Kernel.parameters p1) (Kernel.parameters p2) r;
  sigma ← Energy.pair_variable f "sigma" (Kernel.parameters p1) (Kernel.parameters p2) r;
  epsilon ← Energy.pair_variable f "epsilon" (Kernel.parameters p1) (Kernel.parameters p2) r;
  Some (chargeprod, sigma, epsilon).

(** * The formulas of the docstrings *)

Module Formula.

Local Open Scope R_scope.

(** [4 epsilon ((sigma/r)^12 - (sigma/r)^6)] *)
Definition LennardJones (sigma epsilon r : R) : R :=
  4 * epsilon * ((sigma / r) ^ 12 - (sigma / r) ^ 6).

(** [Kc q1 q2 / r] *)
Definition Coulomb (chargeprod r : R) : R := Kc * chargeprod / r.

(** [U(r)], the Lennard-Jones plus Coulomb potential. *)
Definition U (chargeprod sigma epsilon r : R) : R :=
  LennardJones sigma epsilon r + Coulomb chargeprod r.

(** [S = 1 + step(r - rs) u^3 (15 u - 6 u^2 - 10)] *)
Definition S (rs r u : R) : R :=
  1 + Expr.step (r - rs) * u ^ 3 * (15 * u - 6 * u ^ 2 - 10).

(** The combined parameters: all three when the product of the two
    epsilons has a square root. *)
Definition mixed (q1 s1 e1 q2 s2 e2 : R) : option (R * R * R) :=
  if Rle_dec 0 (e1 * e2) then Some (q1 * q2, 0.5 * (s1 + s2), sqrt (e1 * e2)) else None.

End Formula.

(** * The syntax trees of the energy expressions

    What each text of [utils.py] and [forces.py] is read as; that the
    parser reads them so is proved below. *)

Module Tree.

Import Expr.

Definition LennardJones (r : string) : expr :=
  EBin Mul (EBin Mul (ENum 4 0) (EVar "epsilon"))
    (EBin Sub (EBin Pow (EBin Div (EVar "sigma") (EVar r)) (ENum 12 0))
              (EBin Pow (EBin Div (EVar "sigma") (EVar r)) (ENum 6 0))).

Definition Coulomb (r : string) : expr :=
  EBin Div (EBin Mul (EVar "Kc") (EVar "chargeprod")) (EVar r).

Definition potential (r : string) : expr := EBin Add (LennardJones r) (Coulomb r).

Definition LorentzBerthelot : list (string * expr) :=
  [("chargeprod", EBin Mul (EVar "charge1") (EVar "charge2"));
   ("sigma", EBin Mul (ENum 5 1) (EBin Add (EVar "sigma1") (EVar "sigma2")));
   ("epsilon", ECall "sqrt" (EBin Mul (EVar "epsilon1") (EVar "epsilon2")))].

(** [1 + step(r - rs)*u^3*(15*u - 6*u^2 - 10)] *)
Definition S (rs : string) : expr :=
  EBin Add (ENum 1 0)
    (EBin Mul
       (EBin Mul (ECall "step" (EBin Sub (EVar "r") (EVar rs)))
                 (EBin Pow (EVar "u") (ENum 3 0)))
       (EBin Sub
          (EBin Sub (EBin Mul (ENum 15 0) (EVar "u"))
                    (EBin Mul (ENum 6 0) (EBin Pow (EVar "u") (ENum 2 0))))
          (ENum 10 0))).

(** [(r^n - rswitch^n)/(rcut^n - rswitch^n)] *)
Definition u_degree (n : N) : expr :=
  EBin Div
    (EBin Sub (EBin Pow (EVar "r") (ENum n 0)) (EBin Pow (EVar "rswitch") (ENum n 0)))
    (EBin Sub (EBin Pow (EVar "rcut") (ENum n 0)) (EBin Pow (EVar "rswitch") (ENum n 0))).

(** [(r - rs)/(rc - rs)] *)
Definition u_linear (rs rc : string) : expr :=
  EBin Div (EBin Sub (EVar "r") (EVar rs)) (EBin Sub (EVar rc) (EVar rs)).

(** [S*(LJ(r) + erfc(alpha*r)*Kc*chargeprod/r)] *)
Definition DampedSmoothed_main : expr :=
  EBin Mul (EVar "S")
    (EBin Add (LennardJones "r")
       (EBin Div
          (EBin Mul
             (EBin Mul (ECall "erfc" (EBin Mul (EVar "alpha") (EVar "r"))) (EVar "Kc"))
             (EVar "chargeprod"))
          (EVar "r"))).

Definition DampedSmoothed (degree : Z) : program :=
  Program DampedSmoothed_main
    (if (degree =? 1)%Z
     then ("S", ENum 1 0) :: LorentzBerthelot
     else ("S", S "rswitch") :: ("u", u_degree (Z.to_N degree)) :: LorentzBerthelot).

Definition Near (shifted : bool) : program :=
  Program (if shifted then EBin Sub (potential "r") (potential "rc0") else potential "r")
          LorentzBerthelot.

Definition Far (shifted : bool) : program :=
  Program
    (EBin Mul
       (EBin Mul (ECall "step" (EBin Sub (EVar "rc0") (EVar "r"))) (EVar "S"))
       (if shifted
        then EBin Add (EBin Add (ENeg (potential "r")) (LennardJones "rc0")) (Coulomb "rc0")
        else ENeg (potential "r")))
    (("S", S "rs0") :: ("u", u_linear "rs0" "rc0") :: LorentzBerthelot).

Definition Bond : program := Program (potential "r") [].

End Tree.

(** * The toolkit forces the constructors build *)

Module Built.

Local Open Scope R_scope.

Definition near_force (rc rs : R) (shifted : bool) : CustomNonbondedForce :=
  MkCustomNonbondedForce (NearNonbondedForce.energy shifted)
    ["charge"; "sigma"; "epsilon"] [("Kc", Kc); ("rc0", rc)]
    CutoffPeriodic rc false true rs [] [] 0.

Definition far_discount (cutoff rs rc : R) (shifted : bool) : CustomNonbondedForce :=
  MkCustomNonbondedForce (FarNonbondedForce.energy "rs0" "rc0" shifted)
    ["charge"; "sigma"; "epsilon"] [("Kc", Kc); ("rs0", rs); ("rc0", rc)]
    CutoffPeriodic cutoff false false (-1) [] [] 0.

Definition far_total (cutoff : R) (switch : option R) (method : NonbondedMethod)
  : NonbondedForce :=
  nb_setForceGroup 0 (_NonbondedForce.__init__ cutoff switch method).

Definition damped_force (alpha rc rs : R) (degree : Z) : CustomNonbondedForce :=
  MkCustomNonbondedForce (DampedSmoothedForce.energy degree)
    ["charge"; "sigma"; "epsilon"]
    [("Kc", Kc); ("alpha", alpha); ("rswitch", rs); ("rcut", rc)]
    CutoffPeriodic rc false (degree =? 1)%Z (if (degree =? 1)%Z then rs else -1) [] [] 0.

(** An exception as [_NonbondedForce.importFrom] stores it. *)
Definition zeroed (x : Exception) : Exception :=
  MkException (exc_i x) (exc_j x) (0.0 * exc_chargeprod x) (exc_sigma x) (0.0 * exc_epsilon x).

(** One round of the loop of [_CustomBondForce.importFrom]. *)
Definition bond_step (self : CustomBondForce) (x : Exception) : CustomBondForce :=
  if negb (bool_decide (exc_chargeprod x = 0.0)) || negb (bool_decide (exc_epsilon x = 0.0))
  then cb_addBond (exc_i x) (exc_j x) [exc_chargeprod x; exc_sigma x; exc_epsilon x] self
  else self.

(** The reference force without its [k]-th exception. *)
Definition without_exception (k : nat) (force : NonbondedForce) : NonbondedForce :=
  let '(MkNonbondedForce m c d u s ps xs g) := force in
  MkNonbondedForce m c d u s ps (delete k xs) g.

End Built.

(** * Properties of stores *)

Module StoreProps.

(** The objects that exist in [sigma0] are the same in [sigma]. *)
Definition frame (sigma0 sigma : gmap loc object) : Prop :=
  forall l, l ∈ dom sigma0 -> sigma !! l = sigma0 !! l.

(** The class name of every force object of the store satisfies [Q]. *)
Definition classes (Q : string -> Prop) (sigma : gmap loc object) : Prop :=
  forall l f, sigma !! l = Some (OForce f) -> Q (className f).

Definition is_force (sigma : gmap loc object) (l : loc) : Prop :=
  exists f, sigma !! l = Some (OForce f).

(** The arguments of [splitPotentialEnergy] are what the function expects:
    a system of at most 32 forces, a topology, and one position for each
    particle. *)
Definition well_formed (sigma : gmap loc object) (system topology positions : loc) : Prop :=
  exists s t ps,
    sigma !! system = Some (OSystem s) /\
    sigma !! topology = Some (OTopology t) /\
    sigma !! positions = Some (OPositions ps) /\
    length ps = getNumParticles s /\
    Forall (is_force sigma) (sys_forces s) /\
    (length (sys_forces s) <= 32)%nat.

(** Forces stay forces and every other object stays as it is. *)
Definition same_shape (sigma sigma' : gmap loc object) : Prop :=
  forall l,
    match sigma !! l with
    | Some (OForce _) => is_force sigma' l
    | o => sigma' !! l = o
    end.

(** The dictionary [energy] has no entry ["Total"] yet. *)
Definition no_Total_key (acc : gmap string Z * gmap string R) : Prop :=
  acc.2 !! "Total" = None.

End StoreProps.

(** * Inputs of the examples *)

Module Example.

Local Open Scope R_scope.

(** A store with a system of two particles and two bond forces, the second
    in group 5, a topology and two positions. *)
Definition store : gmap loc object :=
  <[0%nat := OSystem (MkSystem [1; 1] 0 [1%nat; 2%nat])]>
  (<[1%nat := OForce (FOther "HarmonicBondForce" 0)]>
  (<[2%nat := OForce (FOther "HarmonicBondForce" 5)]>
  (<[3%nat := OTopology (MkTopology ["O"; "H"])]>
  (<[4%nat := OPositions [(0, 0, 0); (1, 0, 0)]]> ∅)))).

(** Every force has the energy 1. *)
Definition unit_energy (f : OpenMM.Force) (ps : Positions) : R := 1.

(** A reference force of two charged particles whose pair is an exception
    with a zero charge product and a zero epsilon. *)
Definition reference : NonbondedForce :=
  MkNonbondedForce PME 1 true false (-1) [(1, 1, 0); (1, 1, 0)]
    [MkException 0 1 0 1 0] 0.

(** A toolkit potential that is zero everywhere. *)
Definition no_native (f : NonbondedForce) (p1 p2 : R * R * R) (r : R) : option R := Some 0.

End Example.

(** * The remaining functions of [utils.py] and [forces.py] *)

(** A variable name of the expression language: letters, digits and
    underscores, the first of them not a digit. *)
Definition is_name (r : string) : bool :=
  match r with
  | EmptyString => false
  | String c _ => negb (Expr.is_digit c) && Expr.is_ident r
  end.

(** A result or an exception, with no effect on the store. *)
Definition lift {A : Type} (r : exn + A) : M A := fun sigma => (r, sigma).

(** ** The forces of a system, by index *)

Definition getNumForces (system : System) : nat := length (sys_forces system).

(** [system.getForce(index)]: the toolkit refuses an index that is negative
    or not below the number of forces. *)
Definition getForce (system : System) (index : Z) : exn + loc :=
  if ((index <? 0) || (Z.of_nat (getNumForces system) <=? index))%Z
  then inl (OpenMMException "Assertion failure: index out of range")
  else match sys_forces system !! Z.to_nat index with
       | Some l => inr l
       | None => inl (OpenMMException "Assertion failure: index out of range")
       end.

(** [system.addForce(force)]: the force object enters the store, the system
    refers to it from then on, and its index is returned. *)
Definition addForce (system : loc) (f : OpenMM.Force) : M Z :=
  s ← read_system system;
  l ← alloc (OForce f);
  _ ← write system
        (OSystem (MkSystem (sys_masses s) (sys_numConstraints s) (sys_forces s ++ [l])));
  mret (Z.of_nat (getNumForces s)).

(** The end of an object, which the toolkit deletes. *)
Definition dispose (l : loc) : M () := fun sigma => (inr (), delete l sigma).

(** [system.removeForce(index)]: the force leaves the list of the system and
    the toolkit deletes the force object. *)
Definition removeForce (system : loc) (index : Z) : M () :=
  s ← read_system system;
  l ← lift (getForce s index);
  _ ← write system
        (OSystem (MkSystem (sys_masses s) (sys_numConstraints s)
                    (delete (Z.to_nat index) (sys_forces s))));
  dispose l.

(** ** The group of a [Force]

    All the toolkit forces of a [Force] are in the group [g]. *)
Definition one_group (g : Z) (self : Force.t) : Prop :=
  Forall (fun f => OpenMM.getForceGroup f = g) (Force.forces self).

(** ** The energy of the exceptions

    What the exceptions of a reference force add to its energy, each with
    its own parameters at the distance of its pair. *)
Definition exceptions_energy (force : NonbondedForce) (dist : nat -> nat -> R) : R :=
  sum_R (map (fun x => Kernel.exception_energy x (dist (exc_i x) (exc_j x)))
             (nb_exceptions force)).

(** An exception that is not an exclusion. *)
Definition interacting (x : Exception) : Prop :=
  exc_chargeprod x <> 0%R \/ exc_epsilon x <> 0%R.

#[global] Instance interacting_decision (x : Exception) : Decision (interacting x).
Proof. unfold interacting. apply _. Defined.

(** The bond that [_CustomBondForce.importFrom] makes of an exception. *)
Definition bond_of (x : Exception) : nat * nat * list R :=
  (exc_i x, exc_j x, [exc_chargeprod x; exc_sigma x; exc_epsilon x]).

(** ** [findNonbondedForce] *)

(** [isinstance(f, openmm.NonbondedForce)] *)
Definition isinstance_NonbondedForce (f : OpenMM.Force) : bool :=
  match f with
  | FNonbonded _ => true
  | _ => false
  end.

(** [l[position]] on a Python list: a negative position counts from the end. *)
Definition list_item {A : Type} (l : list A) (position : Z) : exn + A :=
  let n := Z.of_nat (length l) in
  let k := if (position <? 0)%Z then (position + n)%Z else position in
  if ((k <? 0) || (n <=? k))%Z
  then inl (IndexError "list index out of range")
  else match l !! Z.to_nat k with
       | Some a => inr a
       | None => inl (IndexError "list index out of range")
       end.

(** [[i for (i, f) in enumerate(forces) if isinstance(f, openmm.NonbondedForce)]] *)
Definition nonbonded_indices (forces : list OpenMM.Force) : list Z :=
  map fst (filter (fun p => isinstance_NonbondedForce p.2) (enumerate forces)).

Definition findNonbondedForce (system : loc) (position : Z) : M Z :=
  s ← read_system system;
  forces ← mapM (fun i => l ← lift (getForce s i); read_force l)
                (map Z.of_nat (seq 0 (getNumForces s)));
  lift (list_item (nonbonded_indices forces) position).

(** The same list when the first force has the index [n]. *)
Definition nonbonded_indices_from (n : nat) (forces : list OpenMM.Force) : list Z :=
  map fst (filter (fun p => isinstance_NonbondedForce p.2)
                  (zip (map Z.of_nat (seq n (length forces))) forces)).

(** How many of the forces are of the class [NonbondedForce]. *)
Definition numNonbonded (forces : list OpenMM.Force) : nat :=
  length (filter (fun f => isinstance_NonbondedForce f) forces).

(** The object at [system] is the system [s], and the objects that [s]
    refers to are the forces [fs], in this order. *)
Definition system_at (sigma : gmap loc object) (system : loc) (s : System)
    (fs : list OpenMM.Force) : Prop :=
  sigma !! system = Some (OSystem s) /\
  Forall2 (fun l f => sigma !! l = Some (OForce f)) (sys_forces s) fs.

(** ** [hijackForce] *)

(** [deepcopy(force)] of one force object. *)
Definition deepcopy_force (force : loc) : M loc :=
  f ← read_force force; alloc (OForce f).

Definition hijackForce (system : loc) (index : Z) : M loc :=
  s ← read_system system;
  l ← lift (getForce s index);
  force ← deepcopy_force l;
  _ ← removeForce system index;
  mret force.

(** ** [Force.addTo]

    A [Force.t] holds its toolkit forces by value; [addTo] hands them to the
    system one by one, in the order of the list. *)
Definition addTo (system : loc) (self : Force.t) : M Force.t :=
  _ ← mapM (addForce system) (Force.forces self);
  mret self.

(** ** What [splitPotentialEnergy] tabulates *)

(** The force [f] in the group [group]. *)
Definition regroup (group : Z) (f : OpenMM.Force) : OpenMM.Force :=
  match f with
  | FNonbonded f => FNonbonded (nb_setForceGroup group f)
  | FCustomNonbonded f => FCustomNonbonded (cnb_setForceGroup group f)
  | FCustomBond f => FCustomBond (cb_setForceGroup group f)
  | FOther c _ => FOther c group
  end.

(** The energies of the forces of a system at the positions [ps], each force
    in the group of its index. *)
Definition force_energies (forceEnergy : OpenMM.Force -> Positions -> R)
    (fs : list OpenMM.Force) (ps : Positions) : list R :=
  map (fun p => forceEnergy (regroup p.1 p.2) ps) (enumerate fs).

(** A class name without a parenthesis that is not the word [Total]; the
    names of the classes of the toolkit are such. *)
Definition plain (c : string) : Prop :=
  c <> "Total" /\ ~ In "("%char (list_ascii_of_string c).

(** ["%s(%d)" % (forceType, n)] *)
Definition numbered (forceType : string) (n : Z) : string :=
  forceType +:+ "(" +:+ fmt_d n +:+ ")".

(** How many of the class names are [c]. *)
Definition occurrences (c : string) (classes : list string) : nat :=
  length (filter (fun c' => c' = c) classes).

(** The key of a force of the class [c] that has [k] forces of its class
    before it. *)
Definition label (c : string) (k : nat) : string :=
  match k with
  | O => c
  | S _ => numbered c (Z.of_nat k)
  end.

(** [terms] counts the class names met so far. *)
Definition counted (terms : gmap string Z) (classes : list string) : Prop :=
  forall c, terms !! c = match occurrences c classes with
                         | O => None
                         | S k => Some (Z.of_nat k)
                         end.

(** The loop that fills [terms] and [energy], on the class names and the
    energies of the forces. *)
Definition tabulate (items : list (string * R)) (acc : gmap string Z * gmap string R)
  : gmap string Z * gmap string R :=
  fold_left (fun acc item => record_term item.1 item.2 acc) items acc.

(** Every key of [energy] is a class name that [terms] counts, or that name
    with a number from 1 to its count. *)
Definition labelled (acc : gmap string Z * gmap string R) : Prop :=
  (forall T n, acc.1 !! T = Some n -> (0 <= n)%Z /\ plain T) /\
  (forall key e, acc.2 !! key = Some e ->
     exists T n, acc.1 !! T = Some n /\
       (key = T \/ exists k, (1 <= k <= n)%Z /\ key = numbered T k)).

(** * [reporters.py]

    [shortName] extends the toolkit's [StateDataReporter] and overrides two
    of its methods. What the class inherits is a parameter here: the
    constants that [_initializeConstants] computes from the simulation, the
    check of [_checkForErrors], the values of [_constructReportValues] and
    Python's [str] on them. *)

Module shortName.

Section Reporter.

Variables (simulation_t state_t value_t constants_t error_t : Type).

Record t : Type := Build {
  _progress : bool;
  _step : bool;
  _time : bool;
  _potentialEnergy : bool;
  _kineticEnergy : bool;
  _totalEnergy : bool;
  _temperature : bool;
  _volume : bool;
  _density : bool;
  _speed : bool;
  _elapsedTime : bool;
  _remainingTime : bool;
  _separator : string;
  _hasInitialized : bool;
  _constants : option constants_t;
  _initialClockTime : option R;
  _initialSimulationTime : option R;
  _initialSteps : option Z;
  _out : list string            (* the texts printed so far, one per call of [print] *)
}.

Variable initializeConstants : t -> simulation_t -> constants_t.
Variable checkForErrors : t -> simulation_t -> state_t -> error_t + ().
Variable constructReportValues : t -> simulation_t -> state_t -> list value_t.
Variable str : value_t -> string.
Variable getTime : state_t -> R.
Variable currentStep : simulation_t -> Z.

(** [if flag: headers.append(name)] *)
Definition append_if (flag : bool) (name : string) (headers : list string) : list string :=
  if flag then headers ++ [name] else headers.

Definition _constructHeaders (self : t) : list string :=
  let headers := [] in
  let headers := append_if (_progress self) "%" headers in
  let headers := append_if (_step self) "Step" headers in
  let headers := append_if (_time self) "t" headers in
  let headers := append_if (_potentialEnergy self) "PE" headers in
  let headers := append_if (_kineticEnergy self) "KE" headers in
  let headers := append_if (_totalEnergy self) "TotE" headers in
  let headers := append_if (_temperature self) "T" headers in
  let headers := append_if (_volume self) "BoxV " headers in
  let headers := append_if (_density self) "D" headers in
  let headers := append_if (_speed self) "Sp" headers in
  let headers := append_if (_elapsedTime self) "Elt" headers in
  let headers := append_if (_remainingTime self) "tRem" headers in
  headers.

(** [print(text, file=self._out)] *)
Definition print (text : string) (self : t) : t :=
  let '(Build a b c d e f g h i j k l sep ini cst ct st ss out) := self in
  Build a b c d e f g h i j k l sep ini cst ct st ss (out ++ [text]).

(** The assignments of the first call of [report]. *)
Definition initialize (now : R) (simulation : simulation_t) (state : state_t) (self : t) : t :=
  let cst := initializeConstants self simulation in
  let '(Build a b c d e f g h i j k l sep ini _ ct st ss out) := self in
  let self := Build a b c d e f g h i j k l sep ini (Some cst) ct st ss out in
  let headers := _constructHeaders self in
  let self := print (String.concat (_separator self) headers) self in
  let '(Build a b c d e f g h i j k l sep _ cst _ _ _ out) := self in
  Build a b c d e f g h i j k l sep true cst
        (Some now) (Some (getTime state)) (Some (currentStep simulation)) out.

(** [report(simulation, state)] at the clock time [now]: the reporter after
    the call, and whether the call returned or raised. *)
Definition report (now : R) (simulation : simulation_t) (state : state_t) (self : t)
  : (error_t + ()) * t :=
  let self :=
    if negb (_hasInitialized self) then initialize now simulation state self else self in
  match checkForErrors self simulation state with
  | inl e => (inl e, self)
  | inr _ =>
      let values := constructReportValues self simulation state in
      (inr (), print (String.concat (_separator self) (map str values)) self)
  end.

(** A run of calls of [report], each at its own clock time; a call that
    raises does not stop the run. *)
Fixpoint reports (calls : list (R * simulation_t * state_t)) (self : t) : t :=
  match calls with
  | [] => self
  | (now, simulation, state) :: calls => reports calls (report now simulation state self).2
  end.

(** The number of calls of the run that returned. *)
Fixpoint returned (calls : list (R * simulation_t * state_t)) (self : t) : nat :=
  match calls with
  | [] => 0
  | (now, simulation, state) :: calls =>
      let '(r, self') := report now simulation state self in
      (match r with inl _ => 0 | inr _ => 1 end) + returned calls self'
  end.

(** The twelve switches of the columns, and how many of them are on. *)
Definition flags (self : t) : list bool :=
  [_progress self; _step self; _time self; _potentialEnergy self;
   _kineticEnergy self; _totalEnergy self; _temperature self; _volume self;
   _density self; _speed self; _elapsedTime self; _remainingTime self].

Definition columns (self : t) : nat := length (filter (fun b : bool => b) (flags self)).

(** The twelve names, in the order of the switches. *)
Definition names : list string :=
  ["%"; "Step"; "t"; "PE"; "KE"; "TotE"; "T"; "BoxV "; "D"; "Sp"; "Elt"; "tRem"].

End Reporter.

End shortName.

(** * Further inputs of examples *)

Module Sample.

Local Open Scope R_scope.

(** A store with a system of three forces, the second and the third of the
    class [NonbondedForce]. *)
Definition nonbonded (g : Z) : NonbondedForce :=
  MkNonbondedForce PME 1 true false (-1) [(1, 1, 0); (-1, 1, 0)] [] g.

Definition store : gmap loc object :=
  <[0%nat := OSystem (MkSystem [1; 1] 0 [1%nat; 2%nat; 3%nat])]>
  (<[1%nat := OForce (FOther "HarmonicBondForce" 0)]>
  (<[2%nat := OForce (FNonbonded (nonbonded 0))]>
  (<[3%nat := OForce (FNonbonded (nonbonded 1))]>
  (<[4%nat := OTopology (MkTopology ["O"; "H"])]>
  (<[5%nat := OPositions [(0, 0, 0); (1, 0, 0)]]> ∅))))).

Definition forces : list OpenMM.Force :=
  [FOther "HarmonicBondForce" 0; FNonbonded (nonbonded 0); FNonbonded (nonbonded 1)].

(** A store with a system of 33 forces, and one with a system of none. *)
Definition crowded : gmap loc object :=
  foldr (fun l sigma => <[l := OForce (FOther "HarmonicBondForce" 0)]> sigma)
        (<[0%nat := OSystem (MkSystem [] 0 (seq 1 33))]> ∅) (seq 1 33).

Definition bare : gmap loc object :=
  <[0%nat := OSystem (MkSystem [1; 1] 0 [])]>
  (<[1%nat := OTopology (MkTopology ["O"; "H"])]>
  (<[2%nat := OPositions [(0, 0, 0); (1, 0, 0)]]> ∅)).

(** A reference force with one exception that is an exclusion and one that
    is not. *)
Definition reference : NonbondedForce :=
  MkNonbondedForce PME 1 true false (-1) [(1, 1, 1); (-1, 1, 1); (0, 1, 1)]
    [MkException 0 1 0 1 0; MkException 1 2 0.5 1 1] 0.

(** A reporter of the step and of the potential energy, separated by a
    comma, that has not reported yet; and what it inherits: a check that
    always passes and two values. *)
Definition reporter : shortName.t unit :=
  shortName.Build unit false true false true false false false false false false false false
    "," false None None None None [].

Definition no_constants (self : shortName.t unit) (simulation : unit) : unit := ().

Definition no_error (self : shortName.t unit) (simulation state : unit) : string + () := inr ().

Definition two_values (self : shortName.t unit) (simulation state : unit) : list Z :=
  [10%Z; (-3)%Z].

Definition zero_time (state : unit) : R := 0.

Definition zero_step (simulation : unit) : Z := 0%Z.

End Sample.

(** * Proofs *)

Import Built StoreProps.

(** ** Reading a printed integer back *)

Module ExprFacts.

Import Expr.

Lemma append_cons (x : ascii) (a b : string) : String x a +:+ b = String x (a +:+ b).
Proof. reflexivity. Qed.

Lemma append_assoc (a b c : string) : (a +:+ b) +:+ c = a +:+ (b +:+ c).
Proof.
  induction a as [|x a IH]; [reflexivity|].
  rewrite !append_cons. f_equal. exact IH.
Qed.

Lemma lex_state_app (a b : string) (w : list ascii) (acc : list token) :
  lex_state (a +:+ b) w acc = st ← lex_state a w acc; lex_state b st.1 st.2.
Proof.
  revert w acc. induction a as [|c a IH]; intros w acc.
  { change ("" +:+ b) with b. simpl. reflexivity. }
  rewrite append_cons. simpl.
  destruct (is_word c); [apply IH|].
  destruct (flush w acc) as [acc'|]; simpl; [|reflexivity].
  destruct (is_space c); [apply IH|].
  destruct (is_sym c); [apply IH | reflexivity].
Qed.

Lemma all_digits_uint (d : Decimal.uint) : all_digits (NilEmpty.string_of_uint d) = true.
Proof. induction d; simpl; auto. Qed.

Lemma lex_state_digits (s : string) (w : list ascii) (acc : list token) :
  all_digits s = true ->
  lex_state s w acc = Some (rev (list_ascii_of_string s) ++ w, acc).
Proof.
  revert w. induction s as [|c s IH]; intros w H; simpl; [reflexivity|].
  unfold all_digits in H. simpl in H. apply andb_prop in H as [Hc Hs].
  unfold is_word. rewrite Hc. simpl. rewrite IH by exact Hs.
  now rewrite <- app_assoc.
Qed.

Lemma after_dot_digits (s : string) : all_digits s = true -> after_dot s = None.
Proof.
  induction s as [|c s IH]; intros H; simpl; [reflexivity|].
  unfold all_digits in H. simpl in H. apply andb_prop in H as [Hc Hs].
  replace (is_dot c) with false; [now apply IH|].
  destruct c as [[] [] [] [] [] [] [] []]; try reflexivity; discriminate Hc.
Qed.

Lemma to_uint_not_Nil (n : N) : N.to_uint n <> Decimal.Nil.
Proof.
  destruct n as [|p]; simpl; [discriminate|].
  intros H. pose proof (DecimalPos.Unsigned.to_uint_nonnil p) as Hn. contradiction.
Qed.

Lemma decimal_digits (n : N) : all_digits (decimal n) = true.
Proof.
  unfold decimal, NilZero.string_of_uint.
  destruct (N.to_uint n); try reflexivity; apply all_digits_uint.
Qed.

Lemma token_of_decimal (n : N) : token_of_word (decimal n) = Some (TNum n 0).
Proof.
  pose proof (decimal_digits n) as Hd.
  unfold token_of_word.
  destruct (decimal n) as [|c s] eqn:E.
  - unfold decimal, NilZero.string_of_uint in E.
    destruct (N.to_uint n) eqn:En; discriminate E.
  - assert (Hc : is_digit c = true).
    { unfold all_digits in Hd. simpl in Hd. now apply andb_prop in Hd as [? _]. }
    rewrite Hc. simpl. unfold number_of_word.
    rewrite after_dot_digits by exact Hd.
    rewrite <- E. unfold decimal.
    rewrite NilZero.usu by apply to_uint_not_Nil.
    simpl. now rewrite DecimalN.Unsigned.of_to.
Qed.

Lemma fmt_d_decimal (n : Z) : (0 <= n)%Z -> fmt_d n = decimal (Z.to_N n).
Proof. intros H. destruct n as [|p|p]; try reflexivity. lia. Qed.

(** After the digits of a printed number, a character that is not part of
    a word closes one number token. *)
Lemma lex_state_decimal (n : N) (acc : list token) :
  lex_state (decimal n) [] acc = Some (rev (list_ascii_of_string (decimal n)), acc).
Proof. rewrite lex_state_digits by apply decimal_digits. now rewrite app_nil_r. Qed.

Lemma flush_decimal (n : N) (acc : list token) :
  flush (rev (list_ascii_of_string (decimal n))) acc = Some (TNum n 0 :: acc).
Proof.
  unfold flush.
  destruct (rev (list_ascii_of_string (decimal n))) as [|x l] eqn:E.
  - apply (f_equal (@rev ascii)) in E. rewrite rev_involutive in E. simpl in E.
    pose proof (token_of_decimal n) as Ht.
    rewrite <- (string_of_list_ascii_of_string (decimal n)), E in Ht. discriminate Ht.
  - rewrite <- E, rev_involutive, string_of_list_ascii_of_string, token_of_decimal.
    reflexivity.
Qed.

Lemma lex_state_after_decimal (n : N) (c : ascii) (rest : string) (acc : list token) :
  is_word c = false ->
  lex_state (String c rest) (rev (list_ascii_of_string (decimal n))) acc
  = lex_state (String c rest) [] (TNum n 0 :: acc).
Proof. intros Hc. simpl. rewrite Hc, flush_decimal. reflexivity. Qed.

End ExprFacts.

(** ** What the parser makes of the texts *)

Module ParseFacts.

Import Expr ExprFacts.

Lemma parse_Near (shifted : bool) :
  parse (NearNonbondedForce.energy shifted) = Some (Tree.Near shifted).
Proof. destruct shifted; vm_compute; reflexivity. Qed.

Lemma parse_Far (shifted : bool) :
  parse (FarNonbondedForce.energy "rs0" "rc0" shifted) = Some (Tree.Far shifted).
Proof. destruct shifted; vm_compute; reflexivity. Qed.

Lemma parse_Bond : parse (cb_energy _CustomBondForce.__init__) = Some Tree.Bond.
Proof. vm_compute; reflexivity. Qed.

Lemma parse_LorentzBerthelot :
  parse ("0;" +:+ LorentzBerthelot) = Some (Program (ENum 0 0) Tree.LorentzBerthelot).
Proof. vm_compute; reflexivity. Qed.

(** Lexing a text piece by piece. *)
Ltac lex_piece :=
  rewrite lex_state_app;
  first
    [ rewrite lex_state_decimal
    | rewrite lex_state_after_decimal by reflexivity;
      match goal with
      | |- context [lex_state ?s ?w ?acc ≫= _] =>
          let v := eval vm_compute in (lex_state s w acc) in
          replace (lex_state s w acc) with v by (vm_compute; reflexivity)
      end
    | match goal with
      | |- context [lex_state ?s ?w ?acc ≫= _] =>
          let v := eval vm_compute in (lex_state s w acc) in
          replace (lex_state s w acc) with v by (vm_compute; reflexivity)
      end ];
  cbn [mbind option_bind fst snd].

Lemma parse_DampedSmoothed (degree : Z) :
  (0 <= degree)%Z ->
  parse (DampedSmoothedForce.energy degree) = Some (Tree.DampedSmoothed degree).
Proof.
  intros H. unfold DampedSmoothedForce.energy, Tree.DampedSmoothed.
  destruct (degree =? 1)%Z; [vm_compute; reflexivity|].
  rewrite (fmt_d_decimal degree H). generalize (Z.to_N degree). clear. intros n.
  unfold parse, lex.
  cbv zeta.
  rewrite !append_assoc.
  repeat lex_piece.
  vm_compute. reflexivity.
Qed.
End ParseFacts.

(** ** The values of the trees *)

Module EvalFacts.

Local Open Scope R_scope.
Import Expr.

Ltac norm_nat :=
  repeat match goal with
    | |- context [N.to_nat ?n] =>
        let v := eval vm_compute in (N.to_nat n) in change (N.to_nat n) with v
    end.

Ltac eval_step :=
  cbn [eval lookup eval_defs mbind option_bind apply_binop apply_pow apply_fun
       String.eqb Ascii.eqb Bool.eqb Z.of_N];
  norm_nat.

Lemma eval_LennardJones rho x sigma epsilon r :
  lookup "sigma" rho = Some sigma -> lookup "epsilon" rho = Some epsilon ->
  lookup x rho = Some r -> r <> 0 ->
  eval rho (Tree.LennardJones x) = Some (Formula.LennardJones sigma epsilon r).
Proof.
  intros Hs He Hx Hr. unfold Tree.LennardJones, Formula.LennardJones.
  eval_step. rewrite Hs, He, Hx. eval_step.
  destruct (Req_dec_T r 0) as [|_]; [contradiction|].
  eval_step. f_equal. field. exact Hr.
Qed.

Lemma eval_Coulomb rho x chargeprod r :
  lookup "Kc" rho = Some Kc -> lookup "chargeprod" rho = Some chargeprod ->
  lookup x rho = Some r -> r <> 0 ->
  eval rho (Tree.Coulomb x) = Some (Formula.Coulomb chargeprod r).
Proof.
  intros Hk Hq Hx Hr. unfold Tree.Coulomb, Formula.Coulomb.
  eval_step. rewrite Hk, Hq, Hx. eval_step.
  destruct (Req_dec_T r 0) as [|_]; [contradiction|]. reflexivity.
Qed.

Lemma eval_potential rho x chargeprod sigma epsilon r :
  lookup "Kc" rho = Some Kc -> lookup "chargeprod" rho = Some chargeprod ->
  lookup "sigma" rho = Some sigma -> lookup "epsilon" rho = Some epsilon ->
  lookup x rho = Some r -> r <> 0 ->
  eval rho (Tree.potential x) = Some (Formula.U chargeprod sigma epsilon r).
Proof.
  intros. unfold Tree.potential. cbn [eval].
  erewrite eval_LennardJones, eval_Coulomb by eassumption. reflexivity.
Qed.

Lemma eval_S rho rs vrs r u :
  lookup "r" rho = Some r -> lookup rs rho = Some vrs -> lookup "u" rho = Some u ->
  eval rho (Tree.S rs) = Some (Formula.S vrs r u).
Proof.
  intros Hr Hs Hu. unfold Tree.S, Formula.S.
  eval_step. rewrite Hr, Hs, Hu. eval_step. f_equal. lra.
Qed.

Lemma eval_u_linear rho rs rc vrs vrc r :
  lookup "r" rho = Some r -> lookup rs rho = Some vrs -> lookup rc rho = Some vrc ->
  vrc <> vrs ->
  eval rho (Tree.u_linear rs rc) = Some ((r - vrs) / (vrc - vrs)).
Proof.
  intros Hr Hs Hc Hne. unfold Tree.u_linear.
  eval_step. rewrite Hr, Hs, Hc. eval_step.
  destruct (Req_dec_T (vrc - vrs) 0) as [E|_]; [lra | reflexivity].
Qed.

Lemma eval_u_degree rho n vrs vrc r :
  lookup "r" rho = Some r -> lookup "rswitch" rho = Some vrs ->
  lookup "rcut" rho = Some vrc ->
  vrc ^ N.to_nat n <> vrs ^ N.to_nat n ->
  eval rho (Tree.u_degree n)
  = Some ((r ^ N.to_nat n - vrs ^ N.to_nat n) / (vrc ^ N.to_nat n - vrs ^ N.to_nat n)).
Proof.
  intros Hr Hs Hc Hne. unfold Tree.u_degree.
  cbn [eval lookup mbind option_bind apply_binop apply_pow String.eqb Ascii.eqb Bool.eqb].
  rewrite Hr, Hs, Hc.
  cbn [eval lookup mbind option_bind apply_binop apply_pow].
  destruct (Req_dec_T _ 0) as [E|_]; [lra | reflexivity].
Qed.

(** The Lorentz-Berthelot definitions, over an environment that binds the
    parameters of the two particles. *)
Section Mixing.

Variables (rho : env) (q1 s1 e1 q2 s2 e2 : R).
Hypothesis Hq1 : lookup "charge1" rho = Some q1.
Hypothesis Hq2 : lookup "charge2" rho = Some q2.
Hypothesis Hs1 : lookup "sigma1" rho = Some s1.
Hypothesis Hs2 : lookup "sigma2" rho = Some s2.
Hypothesis He1 : lookup "epsilon1" rho = Some e1.
Hypothesis He2 : lookup "epsilon2" rho = Some e2.

Lemma mixing_chargeprod :
  lookup "chargeprod" (eval_defs Tree.LorentzBerthelot rho) = Some (q1 * q2).
Proof.
  unfold Tree.LorentzBerthelot. eval_step. rewrite Hq1, Hq2. reflexivity.
Qed.

Lemma mixing_sigma :
  lookup "sigma" (eval_defs Tree.LorentzBerthelot rho) = Some (0.5 * (s1 + s2)).
Proof.
  unfold Tree.LorentzBerthelot. eval_step. rewrite Hs1, Hs2. eval_step.
  f_equal. lra.
Qed.

Lemma mixing_epsilon :
  0 <= e1 * e2 ->
  lookup "epsilon" (eval_defs Tree.LorentzBerthelot rho) = Some (sqrt (e1 * e2)).
Proof.
  intros H. unfold Tree.LorentzBerthelot. eval_step. rewrite He1, He2. eval_step.
  destruct (Rle_dec 0 (e1 * e2)); [reflexivity | contradiction].
Qed.

Lemma mixing_other (x : string) :
  x <> "chargeprod" -> x <> "sigma" -> x <> "epsilon" ->
  lookup x (eval_defs Tree.LorentzBerthelot rho) = lookup x rho.
Proof.
  intros H1 H2 H3. unfold Tree.LorentzBerthelot.
  cbn [eval_defs lookup].
  apply String.eqb_neq in H1, H2, H3. now rewrite H1, H2, H3.
Qed.

End Mixing.

End EvalFacts.

(** ** The forces the constructors build, and their energies *)

Module ForceFacts.

Local Open Scope R_scope.

Import Expr EvalFacts.

Lemma addPerParticleParameters e pp gp m c l u s ps ex g names :
  fold_left (fun self name => cnb_addPerParticleParameter name self) names
            (MkCustomNonbondedForce e pp gp m c l u s ps ex g)
  = MkCustomNonbondedForce e (pp ++ names) gp m c l u s ps ex g.
Proof.
  revert pp. induction names as [|x names IH]; intros pp; simpl.
  - now rewrite app_nil_r.
  - rewrite IH, <- app_assoc. reflexivity.
Qed.

Lemma addGlobalParameters e pp gp m c l u s ps ex g (kwargs : list (string * R)) :
  fold_left (fun self '(name, value) => cnb_addGlobalParameter name value self) kwargs
            (MkCustomNonbondedForce e pp gp m c l u s ps ex g)
  = MkCustomNonbondedForce e pp (gp ++ kwargs) m c l u s ps ex g.
Proof.
  revert gp. induction kwargs as [|[x v] kwargs IH]; intros gp; simpl.
  - now rewrite app_nil_r.
  - rewrite IH, <- app_assoc. reflexivity.
Qed.

(** The force a constructor call of [_CustomNonbondedForce] builds. *)
Lemma CustomNonbondedForce_init energy cutoff switch parameters kwargs :
  _CustomNonbondedForce.__init__ energy cutoff switch parameters kwargs
  = MkCustomNonbondedForce energy parameters kwargs CutoffPeriodic cutoff false
      (match switch with Some _ => true | None => false end)
      (match switch with Some s => s | None => -1 end) [] [] 0.
Proof.
  unfold _CustomNonbondedForce.__init__, CustomNonbondedForce_new.
  rewrite addPerParticleParameters, addGlobalParameters.
  destruct switch; reflexivity.
Qed.

Lemma Force_init_one (f : OpenMM.Force) :
  Force.__init__ [f]
  = inr (Force.Build [match f with
                      | FNonbonded f => FNonbonded (nb_setForceGroup 0 f)
                      | FCustomNonbonded f => FCustomNonbonded (cnb_setForceGroup 0 f)
                      | FCustomBond f => FCustomBond (cb_setForceGroup 0 f)
                      | FOther c _ => FOther c 0
                      end]).
Proof. reflexivity. Qed.

Lemma Near_init rc rs shifted :
  NearNonbondedForce.__init__ rc rs shifted
  = inr (NearNonbondedForce.Build
           (Force.Build [FCustomNonbonded (near_force rc rs shifted)]) 0 rs rc shifted).
Proof.
  unfold NearNonbondedForce.__init__. rewrite CustomNonbondedForce_init. reflexivity.
Qed.

Ltac pair_env_compute :=
  match goal with
  | |- context [Energy.pair_env ?f ?p1 ?p2 ?r] =>
      let e := eval cbv [Energy.pair_env bind_values Energy.suffixed map zip zip_with app
                         String.append cnb_globalParameters cnb_perParticleParameters
                         near_force far_discount damped_force]
               in (Energy.pair_env f p1 p2 r) in
      change (Energy.pair_env f p1 p2 r) with e
  end.

Lemma Near_pair_energy rc rs shifted q1 s1 e1 q2 s2 e2 r :
  r <> 0 -> 0 <= e1 * e2 -> rc <> 0 -> r < rc ->
  Energy.pair_energy (near_force rc rs shifted) [q1; s1; e1] [q2; s2; e2] r
  = Some (Energy.switching rs rc r *
          (Formula.U (q1 * q2) (0.5 * (s1 + s2)) (sqrt (e1 * e2)) r
           - (if shifted then Formula.U (q1 * q2) (0.5 * (s1 + s2)) (sqrt (e1 * e2)) rc else 0))).
Proof.
  intros Hr He Hrc Hlt.
  unfold Energy.pair_energy.
  change (cnb_energy (near_force rc rs shifted)) with (NearNonbondedForce.energy shifted).
  rewrite ParseFacts.parse_Near. cbn [mbind option_bind].
  unfold Energy.beyond_cutoff. cbn [near_force cnb_nonbondedMethod cnb_cutoffDistance Energy.uses_cutoff andb].
  destruct (Rle_dec rc r) as [Hle|_]; [lra|].
  unfold eval_program, Tree.Near. cbn [main defs].
  pair_env_compute.
  set (rho0 := [_; _; _; _; _; _; _; _; _] : env).
  set (rho := eval_defs Tree.LorentzBerthelot rho0).
  assert (Hq : lookup "chargeprod" rho = Some (q1 * q2))
    by (apply mixing_chargeprod; reflexivity).
  assert (Hs : lookup "sigma" rho = Some (0.5 * (s1 + s2)))
    by (apply mixing_sigma; reflexivity).
  assert (Hee : lookup "epsilon" rho = Some (sqrt (e1 * e2)))
    by (apply mixing_epsilon; [reflexivity | reflexivity | exact He]).
  assert (Hk : lookup "Kc" rho = Some Kc)
    by (unfold rho; rewrite mixing_other by discriminate; reflexivity).
  assert (Hrr : lookup "r" rho = Some r)
    by (unfold rho; rewrite mixing_other by discriminate; reflexivity).
  assert (Hc0 : lookup "rc0" rho = Some rc)
    by (unfold rho; rewrite mixing_other by discriminate; reflexivity).
  destruct shifted.
  - cbn [eval]. erewrite !eval_potential by eassumption.
    cbn [mbind option_bind apply_binop].
    unfold Energy.switchValue. cbn. reflexivity.
  - erewrite eval_potential by eassumption. cbn [mbind option_bind].
    unfold Energy.switchValue. cbn. f_equal. lra.
Qed.


(** *** [FarNonbondedForce] *)

Lemma Far_init base rs rc shifted cutoff switch method :
  FarNonbondedForce.__init__
    (VNearNonbondedForce (NearNonbondedForce.Build base 0 rs rc shifted))
    cutoff switch method
  = inr (Force.Build [FNonbonded (far_total cutoff switch method);
                      FCustomNonbonded (far_discount cutoff rs rc shifted)]).
Proof.
  unfold FarNonbondedForce.__init__. cbn [isinstance_NearNonbondedForce negb attributes mbind exn_bind].
  cbn [NearNonbondedForce.index NearNonbondedForce.rswitch NearNonbondedForce.rcut
       NearNonbondedForce.shifted].
  rewrite CustomNonbondedForce_init. reflexivity.
Qed.

Lemma Far_pair_energy cutoff rs rc shifted q1 s1 e1 q2 s2 e2 r :
  r <> 0 -> 0 <= e1 * e2 -> rc <> 0 -> rc <> rs -> r < cutoff ->
  Energy.pair_energy (far_discount cutoff rs rc shifted) [q1; s1; e1] [q2; s2; e2] r
  = Some (step (rc - r) * Formula.S rs r ((r - rs) / (rc - rs)) *
          (- Formula.U (q1 * q2) (0.5 * (s1 + s2)) (sqrt (e1 * e2)) r
           + (if shifted then Formula.U (q1 * q2) (0.5 * (s1 + s2)) (sqrt (e1 * e2)) rc else 0))).
Proof.
  intros Hr He Hrc Hne Hlt.
  unfold Energy.pair_energy.
  change (cnb_energy (far_discount cutoff rs rc shifted))
    with (FarNonbondedForce.energy "rs0" "rc0" shifted).
  rewrite ParseFacts.parse_Far. cbn [mbind option_bind].
  unfold Energy.beyond_cutoff.
  cbn [far_discount cnb_nonbondedMethod cnb_cutoffDistance Energy.uses_cutoff andb].
  destruct (Rle_dec cutoff r) as [Hle|_]; [lra|].
  unfold eval_program, Tree.Far. cbn [main defs].
  pair_env_compute.
  set (rho0 := [_; _; _; _; _; _; _; _; _; _] : env).
  cbn [eval_defs].
  set (rho1 := eval_defs Tree.LorentzBerthelot rho0).
  assert (Hq : lookup "chargeprod" rho1 = Some (q1 * q2))
    by (apply mixing_chargeprod; reflexivity).
  assert (Hs : lookup "sigma" rho1 = Some (0.5 * (s1 + s2)))
    by (apply mixing_sigma; reflexivity).
  assert (Hee : lookup "epsilon" rho1 = Some (sqrt (e1 * e2)))
    by (apply mixing_epsilon; [reflexivity | reflexivity | exact He]).
  assert (Hk : lookup "Kc" rho1 = Some Kc)
    by (unfold rho1; rewrite mixing_other by discriminate; reflexivity).
  assert (Hrr : lookup "r" rho1 = Some r)
    by (unfold rho1; rewrite mixing_other by discriminate; reflexivity).
  assert (Hc0 : lookup "rc0" rho1 = Some rc)
    by (unfold rho1; rewrite mixing_other by discriminate; reflexivity).
  assert (Hs0 : lookup "rs0" rho1 = Some rs)
    by (unfold rho1; rewrite mixing_other by discriminate; reflexivity).
  rewrite (eval_u_linear rho1 "rs0" "rc0" rs rc r Hrr Hs0 Hc0 Hne).
  set (u := (r - rs) / (rc - rs)).
  set (rho2 := ("u", Some u) :: rho1).
  rewrite (eval_S rho2 "rs0" rs r u) by reflexivity || assumption.
  set (rho := ("S", _) :: rho2).
  assert (Hq' : lookup "chargeprod" rho = Some (q1 * q2)) by exact Hq.
  assert (Hs' : lookup "sigma" rho = Some (0.5 * (s1 + s2))) by exact Hs.
  assert (Hee' : lookup "epsilon" rho = Some (sqrt (e1 * e2))) by exact Hee.
  assert (Hk' : lookup "Kc" rho = Some Kc) by exact Hk.
  assert (Hrr' : lookup "r" rho = Some r) by exact Hrr.
  assert (Hc0' : lookup "rc0" rho = Some rc) by exact Hc0.
  cbn [eval]. rewrite Hc0', Hrr'.
  change (lookup "S" rho) with (Some (Formula.S rs r u)).
  destruct shifted.
  - cbn [eval].
    erewrite eval_potential, eval_LennardJones, eval_Coulomb by eassumption.
    cbn [mbind option_bind apply_binop apply_fun String.eqb Ascii.eqb Bool.eqb].
    unfold Energy.switchValue. cbn [far_discount cnb_useSwitchingFunction andb].
    rewrite andb_false_r. f_equal. unfold Formula.U. lra.
  - cbn [eval]. erewrite eval_potential by eassumption.
    cbn [mbind option_bind apply_binop apply_fun String.eqb Ascii.eqb Bool.eqb].
    unfold Energy.switchValue. cbn [far_discount cnb_useSwitchingFunction andb].
    rewrite andb_false_r. f_equal. lra.
Qed.

End ForceFacts.

Module DampedFacts.

Local Open Scope R_scope.

Import Expr EvalFacts ForceFacts.

Lemma DampedSmoothed_init alpha rc rs degree :
  0 <= rs < rc ->
  DampedSmoothedForce.__init__ alpha rc rs degree
  = inr (Force.Build [FCustomNonbonded (damped_force alpha rc rs degree)]).
Proof.
  intros [H0 H1]. unfold DampedSmoothedForce.__init__.
  rewrite bool_decide_eq_false_2 by lra.
  rewrite bool_decide_eq_false_2 by lra.
  cbn [orb]. rewrite CustomNonbondedForce_init.
  unfold damped_force. destruct (degree =? 1)%Z; reflexivity.
Qed.

Lemma DampedSmoothed_init_error alpha rc rs degree :
  rs < 0 \/ rs >= rc ->
  DampedSmoothedForce.__init__ alpha rc rs degree
  = inl (InputError "Switching distance must satisfy 0 <= r_switch < r_cutoff").
Proof.
  intros H. unfold DampedSmoothedForce.__init__.
  destruct (bool_decide (rs < 0.0)) eqn:E1; [reflexivity|].
  destruct (bool_decide (rs >= rc)) eqn:E2; [reflexivity|].
  apply bool_decide_eq_false in E1, E2. lra.
Qed.

Lemma pow_lt_strict (x y : R) (n : nat) : 0 <= x < y -> (0 < n)%nat -> x ^ n < y ^ n.
Proof.
  intros [Hx Hxy] Hn. destruct n as [|n]; [lia|]. clear Hn.
  induction n as [|n IH].
  - simpl. lra.
  - change (x ^ S (S n)) with (x * x ^ S n). change (y ^ S (S n)) with (y * y ^ S n).
    assert (0 <= x ^ S n) by (apply pow_le; exact Hx).
    nra.
Qed.

(** The environment of the definitions of a pair, whatever the lists of
    particle parameters. *)
Lemma damped_env alpha rc rs degree p1 p2 r :
  exists tail,
    Energy.pair_env (damped_force alpha rc rs degree) p1 p2 r
    = ("r", Some r) :: ("Kc", Some Kc) :: ("alpha", Some alpha)
        :: ("rswitch", Some rs) :: ("rcut", Some rc) :: tail.
Proof. eexists. reflexivity. Qed.

Lemma DampedSmoothed_S_linear alpha rc rs p1 p2 r :
  Energy.pair_variable (damped_force alpha rc rs 1) "S" p1 p2 r = Some 1.
Proof.
  unfold Energy.pair_variable.
  change (cnb_energy (damped_force alpha rc rs 1)) with (DampedSmoothedForce.energy 1).
  rewrite ParseFacts.parse_DampedSmoothed by lia.
  cbn [mbind option_bind]. unfold eval_variable, Tree.DampedSmoothed.
  cbn [Z.eqb Pos.eqb defs eval_defs lookup String.eqb Ascii.eqb Bool.eqb eval Z.of_N].
  f_equal. simpl. lra.
Qed.

Lemma DampedSmoothed_S_degree alpha rc rs degree p1 p2 r :
  (2 <= degree)%Z -> 0 <= rs < rc ->
  Energy.pair_variable (damped_force alpha rc rs degree) "S" p1 p2 r
  = Some (Formula.S rs r ((r ^ Z.to_nat degree - rs ^ Z.to_nat degree)
                          / (rc ^ Z.to_nat degree - rs ^ Z.to_nat degree))).
Proof.
  intros Hd Hrs.
  unfold Energy.pair_variable.
  change (cnb_energy (damped_force alpha rc rs degree)) with (DampedSmoothedForce.energy degree).
  rewrite ParseFacts.parse_DampedSmoothed by lia.
  cbn [mbind option_bind]. unfold eval_variable, Tree.DampedSmoothed.
  replace (degree =? 1)%Z with false by (symmetry; apply Z.eqb_neq; lia).
  destruct (damped_env alpha rc rs degree p1 p2 r) as [tail ->].
  set (rho0 := _ :: _ :: _ :: _ :: _ :: tail).
  cbn [defs eval_defs].
  set (rho1 := eval_defs Tree.LorentzBerthelot rho0).
  assert (Hrr : lookup "r" rho1 = Some r)
    by (unfold rho1; rewrite mixing_other by discriminate; reflexivity).
  assert (Hs0 : lookup "rswitch" rho1 = Some rs)
    by (unfold rho1; rewrite mixing_other by discriminate; reflexivity).
  assert (Hc0 : lookup "rcut" rho1 = Some rc)
    by (unfold rho1; rewrite mixing_other by discriminate; reflexivity).
  assert (Hne : rc ^ N.to_nat (Z.to_N degree) <> rs ^ N.to_nat (Z.to_N degree)).
  { assert (rs ^ N.to_nat (Z.to_N degree) < rc ^ N.to_nat (Z.to_N degree)); [|lra].
    apply pow_lt_strict; [exact Hrs | lia]. }
  rewrite (eval_u_degree rho1 (Z.to_N degree) rs rc r Hrr Hs0 Hc0 Hne).
  rewrite Z_N_nat.
  set (u := _ / _).
  cbn [lookup String.eqb Ascii.eqb Bool.eqb].
  apply eval_S; [exact Hrr | exact Hs0 | reflexivity].
Qed.

(** The pair energy is the multiplier times the damped potential. *)
Lemma DampedSmoothed_pair_energy alpha rc rs degree q1 s1 e1 q2 s2 e2 r m :
  (0 <= degree)%Z -> r <> 0 -> 0 <= e1 * e2 -> r < rc ->
  Energy.multiplier (damped_force alpha rc rs degree) [q1; s1; e1] [q2; s2; e2] r = Some m ->
  Energy.pair_energy (damped_force alpha rc rs degree) [q1; s1; e1] [q2; s2; e2] r
  = Some (m * (Formula.LennardJones (0.5 * (s1 + s2)) (sqrt (e1 * e2)) r
               + erfc (alpha * r) * Formula.Coulomb (q1 * q2) r)).
Proof.
  intros Hd Hr He Hlt. unfold Energy.multiplier, Energy.pair_variable, Energy.pair_energy.
  change (cnb_energy (damped_force alpha rc rs degree)) with (DampedSmoothedForce.energy degree).
  rewrite ParseFacts.parse_DampedSmoothed by lia.
  cbn [mbind option_bind]. unfold eval_variable, eval_program.
  unfold Energy.beyond_cutoff.
  set (f := damped_force alpha rc rs degree).
  change (cnb_nonbondedMethod f) with CutoffPeriodic.
  change (cnb_cutoffDistance f) with rc.
  cbn [Energy.uses_cutoff andb].
  destruct (Rle_dec rc r) as [Hle|_]; [lra|].
  set (rho := eval_defs _ _).
  destruct (lookup "S" rho) as [s|] eqn:HS; [|discriminate].
  cbn [mbind option_bind]. intros [= <-].
  assert (Hrho : exists ds,
             rho = ("S", Some s) :: ds
               ++ eval_defs Tree.LorentzBerthelot
                    (Energy.pair_env f [q1; s1; e1] [q2; s2; e2] r)
             /\ forall x, x <> "u" -> lookup x (ds ++ eval_defs Tree.LorentzBerthelot
                    (Energy.pair_env f [q1; s1; e1] [q2; s2; e2] r))
                  = lookup x (eval_defs Tree.LorentzBerthelot
                    (Energy.pair_env f [q1; s1; e1] [q2; s2; e2] r))).
  { unfold rho in *. unfold Tree.DampedSmoothed in *. cbn [defs] in *.
    destruct (degree =? 1)%Z; cbn [eval_defs] in *;
      cbn [lookup String.eqb Ascii.eqb Bool.eqb] in HS; rewrite HS.
    - exists []. split; [reflexivity|]. reflexivity.
    - eexists [_]. split; [reflexivity|].
      intros x Hx. cbn [app lookup]. apply String.eqb_neq in Hx. now rewrite Hx. }
  destruct Hrho as (ds & -> & Hds).
  set (rho1 := eval_defs Tree.LorentzBerthelot _) in *.
  assert (Hq : lookup "chargeprod" rho1 = Some (q1 * q2))
    by (apply mixing_chargeprod; reflexivity).
  assert (Hs : lookup "sigma" rho1 = Some (0.5 * (s1 + s2)))
    by (apply mixing_sigma; reflexivity).
  assert (Hee : lookup "epsilon" rho1 = Some (sqrt (e1 * e2)))
    by (apply mixing_epsilon; [reflexivity | reflexivity | exact He]).
  assert (Hk : lookup "Kc" rho1 = Some Kc)
    by (unfold rho1; rewrite mixing_other by discriminate; reflexivity).
  assert (Hrr : lookup "r" rho1 = Some r)
    by (unfold rho1; rewrite mixing_other by discriminate; reflexivity).
  assert (Ha : lookup "alpha" rho1 = Some alpha)
    by (unfold rho1; rewrite mixing_other by discriminate; reflexivity).
  set (rho2 := ("S", Some s) :: ds ++ rho1).
  assert (L : forall x v, x <> "u" -> x <> "S" -> lookup x rho1 = Some v ->
                          lookup x rho2 = Some v).
  { intros x v Hu HS' Hx. unfold rho2. cbn [lookup].
    apply String.eqb_neq in HS'. rewrite HS'. rewrite Hds by exact Hu. exact Hx. }
  unfold Tree.DampedSmoothed, Tree.DampedSmoothed_main. cbn [main eval].
  erewrite eval_LennardJones by (first [apply L; [discriminate|discriminate|eassumption] | exact Hr]).
  rewrite (L "alpha" alpha), (L "r" r), (L "Kc" Kc), (L "chargeprod" (q1 * q2))
    by (discriminate || assumption).
  change (lookup "S" rho2) with (Some s).
  cbn [mbind option_bind apply_binop apply_fun String.eqb Ascii.eqb Bool.eqb].
  destruct (Req_dec_T r 0) as [|_]; [contradiction|].
  cbn [mbind option_bind]. f_equal. unfold Formula.Coulomb. lra.
Qed.

End DampedFacts.

(** ** The switching multiplier *)

Module SwitchFacts.

Local Open Scope R_scope.
Import Expr EvalFacts ForceFacts DampedFacts.

Lemma switching_below rs rc r : r <= rs -> Energy.switching rs rc r = 1.
Proof. intros H. unfold Energy.switching. destruct (Rlt_dec rs r); [lra | reflexivity]. Qed.

Lemma switching_at_cutoff rs rc : rs < rc -> Energy.switching rs rc rc = 0.
Proof.
  intros H. unfold Energy.switching. destruct (Rlt_dec rs rc); [|lra].
  replace ((rc - rs) / (rc - rs)) with 1 by (field; lra). lra.
Qed.

Lemma step_nonneg x : 0 <= x -> step x = 1.
Proof. intros H. unfold step. destruct (Rle_dec 0 x); [reflexivity | contradiction]. Qed.

Lemma step_neg x : x < 0 -> step x = 0.
Proof. intros H. unfold step. destruct (Rle_dec 0 x); [lra | reflexivity]. Qed.

Lemma S_below rs r u : r < rs -> Formula.S rs r u = 1.
Proof. intros H. unfold Formula.S. rewrite step_neg by lra. lra. Qed.

Lemma S_zero rs r : Formula.S rs r 0 = 1.
Proof. unfold Formula.S. lra. Qed.

Lemma S_one rs r : rs <= r -> Formula.S rs r 1 = 0.
Proof. intros H. unfold Formula.S. rewrite step_nonneg by lra. lra. Qed.

(** The polynomial of the expression and the toolkit's switching function
    are the same function of [u]. *)
Lemma S_switching rs rc r :
  rs < rc -> Formula.S rs r ((r - rs) / (rc - rs)) = Energy.switching rs rc r.
Proof.
  intros H. unfold Energy.switching.
  destruct (Rlt_dec rs r) as [Hlt|Hge].
  - unfold Formula.S. rewrite step_nonneg by lra. cbv zeta. lra.
  - destruct (Req_dec_T r rs) as [->|Hne].
    + replace ((rs - rs) / (rc - rs)) with 0 by (field; lra). apply S_zero.
    + apply S_below. lra.
Qed.

Lemma Far_S cutoff rs rc shifted p1 p2 r :
  rc <> rs ->
  Energy.pair_variable (far_discount cutoff rs rc shifted) "S" p1 p2 r
  = Some (Formula.S rs r ((r - rs) / (rc - rs))).
Proof.
  intros Hne. unfold Energy.pair_variable.
  change (cnb_energy (far_discount cutoff rs rc shifted))
    with (FarNonbondedForce.energy "rs0" "rc0" shifted).
  rewrite ParseFacts.parse_Far. cbn [mbind option_bind].
  unfold eval_variable, Tree.Far. cbn [defs eval_defs].
  assert (exists tail, Energy.pair_env (far_discount cutoff rs rc shifted) p1 p2 r
     = ("r", Some r) :: ("Kc", Some Kc) :: ("rs0", Some rs) :: ("rc0", Some rc) :: tail)
    as [tail ->] by (eexists; reflexivity).
  set (rho0 := _ :: _ :: _ :: _ :: tail).
  set (rho1 := eval_defs Tree.LorentzBerthelot rho0).
  assert (Hrr : lookup "r" rho1 = Some r)
    by (unfold rho1; rewrite mixing_other by discriminate; reflexivity).
  assert (Hs0 : lookup "rs0" rho1 = Some rs)
    by (unfold rho1; rewrite mixing_other by discriminate; reflexivity).
  assert (Hc0 : lookup "rc0" rho1 = Some rc)
    by (unfold rho1; rewrite mixing_other by discriminate; reflexivity).
  rewrite (eval_u_linear rho1 "rs0" "rc0" rs rc r Hrr Hs0 Hc0 Hne).
  cbn [lookup String.eqb Ascii.eqb Bool.eqb].
  apply eval_S; [exact Hrr | exact Hs0 | reflexivity].
Qed.

Lemma DampedSmoothed_multiplier_below alpha rc rs degree p1 p2 r :
  0 <= rs < rc -> (1 <= degree)%Z -> r <= rs ->
  Energy.multiplier (damped_force alpha rc rs degree) p1 p2 r = Some 1.
Proof.
  intros Hrs Hd Hr. unfold Energy.multiplier.
  destruct (Z.eq_dec degree 1%Z) as [->|Hne].
  - rewrite DampedSmoothed_S_linear. cbn [mbind option_bind].
    unfold Energy.switchValue. cbn. rewrite switching_below by exact Hr. f_equal. lra.
  - rewrite DampedSmoothed_S_degree by (lia || assumption). cbn [mbind option_bind].
    unfold Energy.switchValue. cbn [damped_force cnb_useSwitchingFunction].
    replace (degree =? 1)%Z with false by (symmetry; apply Z.eqb_neq; exact Hne).
    rewrite andb_false_r. f_equal.
    destruct (Req_dec_T r rs) as [->|Hlt].
    + replace ((rs ^ _ - rs ^ _) / _) with 0.
      * rewrite S_zero. lra.
      * unfold Rdiv. rewrite Rminus_diag. lra.
    + rewrite S_below by lra. lra.
Qed.

Lemma DampedSmoothed_multiplier_cutoff alpha rc rs degree p1 p2 :
  0 <= rs < rc -> (1 <= degree)%Z ->
  Energy.multiplier (damped_force alpha rc rs degree) p1 p2 rc = Some 0.
Proof.
  intros Hrs Hd. unfold Energy.multiplier.
  destruct (Z.eq_dec degree 1%Z) as [->|Hne].
  - rewrite DampedSmoothed_S_linear. cbn [mbind option_bind].
    unfold Energy.switchValue. cbn. rewrite switching_at_cutoff by lra. f_equal. lra.
  - rewrite DampedSmoothed_S_degree by (lia || assumption). cbn [mbind option_bind].
    f_equal.
    assert (rs ^ Z.to_nat degree < rc ^ Z.to_nat degree)
      by (apply pow_lt_strict; [exact Hrs | lia]).
    replace ((rc ^ _ - rs ^ _) / _) with 1 by (field; lra).
    rewrite S_one by lra. lra.
Qed.

End SwitchFacts.

(** ** The combination rule *)

Module MixFacts.

Import Expr EvalFacts ForceFacts DampedFacts.
Local Open Scope R_scope.

Ltac triple :=
  apply (f_equal Some); repeat (apply injective_projections; cbn [fst snd]); try lra.

Lemma parse_definitions_LorentzBerthelot :
  parse_definitions LorentzBerthelot = Some Tree.LorentzBerthelot.
Proof. vm_compute. reflexivity. Qed.

Lemma mixing_epsilon_undefined rho e1 e2 :
  lookup "epsilon1" rho = Some e1 -> lookup "epsilon2" rho = Some e2 ->
  e1 * e2 < 0 ->
  lookup "epsilon" (eval_defs Tree.LorentzBerthelot rho) = None.
Proof.
  intros He1 He2 H. unfold Tree.LorentzBerthelot. eval_step. rewrite He1, He2. eval_step.
  destruct (Rle_dec 0 (e1 * e2)); [lra | reflexivity].
Qed.

Lemma mixing_triple rho q1 s1 e1 q2 s2 e2 :
  lookup "charge1" rho = Some q1 -> lookup "charge2" rho = Some q2 ->
  lookup "sigma1" rho = Some s1 -> lookup "sigma2" rho = Some s2 ->
  lookup "epsilon1" rho = Some e1 -> lookup "epsilon2" rho = Some e2 ->
  (chargeprod ← lookup "chargeprod" (eval_defs Tree.LorentzBerthelot rho);
   sigma ← lookup "sigma" (eval_defs Tree.LorentzBerthelot rho);
   epsilon ← lookup "epsilon" (eval_defs Tree.LorentzBerthelot rho);
   Some (chargeprod, sigma, epsilon))
  = Formula.mixed q1 s1 e1 q2 s2 e2.
Proof.
  intros Hq1 Hq2 Hs1 Hs2 He1 He2.
  rewrite (mixing_chargeprod rho q1 q2 Hq1 Hq2), (mixing_sigma rho s1 s2 Hs1 Hs2).
  cbn [mbind option_bind]. unfold Formula.mixed.
  destruct (Rle_dec 0 (e1 * e2)) as [H|H].
  - rewrite (mixing_epsilon rho e1 e2 He1 He2 H). reflexivity.
  - rewrite (mixing_epsilon_undefined rho e1 e2 He1 He2) by lra. reflexivity.
Qed.

Lemma combine_mixed q1 s1 e1 q2 s2 e2 :
  combine (q1, s1, e1) (q2, s2, e2) = Formula.mixed q1 s1 e1 q2 s2 e2.
Proof.
  unfold combine. rewrite parse_definitions_LorentzBerthelot. cbn [mbind option_bind].
  cbv zeta. apply mixing_triple; reflexivity.
Qed.

(** Definitions written before the Lorentz-Berthelot ones do not change
    what the three names stand for. *)
Lemma lookup_through (ds : list (string * expr)) rho x :
  Forall (fun d => d.1 <> x) ds ->
  lookup x (eval_defs (ds ++ Tree.LorentzBerthelot) rho)
  = lookup x (eval_defs Tree.LorentzBerthelot rho).
Proof.
  induction ds as [|[y e] ds IH]; intros H; [reflexivity|].
  apply Forall_cons in H as [Hy H]. cbn [app eval_defs lookup fst] in *.
  replace (String.eqb x y) with false; [now apply IH|].
  symmetry. apply String.eqb_neq. congruence.
Qed.

Lemma pair_parameters_mixed f ds m p1 p2 r :
  parse (cnb_energy f) = Some (Program m (ds ++ Tree.LorentzBerthelot)) ->
  Forall (fun d => d.1 <> "chargeprod" /\ d.1 <> "sigma" /\ d.1 <> "epsilon") ds ->
  (forall q1 s1 e1 q2 s2 e2,
      let rho := Energy.pair_env f [q1; s1; e1] [q2; s2; e2] r in
      lookup "charge1" rho = Some q1 /\ lookup "charge2" rho = Some q2 /\
      lookup "sigma1" rho = Some s1 /\ lookup "sigma2" rho = Some s2 /\
      lookup "epsilon1" rho = Some e1 /\ lookup "epsilon2" rho = Some e2) ->
  pair_parameters f p1 p2 r = combine p1 p2.
Proof.
  intros Hp Hds Henv. destruct p1 as [[q1 s1] e1], p2 as [[q2 s2] e2].
  rewrite combine_mixed. unfold pair_parameters, Energy.pair_variable.
  rewrite Hp. cbn [mbind option_bind]. unfold eval_variable. cbn [defs Kernel.parameters].
  rewrite !lookup_through.
  - destruct (Henv q1 s1 e1 q2 s2 e2) as (A & B & C & D & E & F).
    now apply mixing_triple.
  - eapply Forall_impl; [exact Hds|]. intros d H. apply H.
  - eapply Forall_impl; [exact Hds|]. intros d H. apply H.
  - eapply Forall_impl; [exact Hds|]. intros d H. apply H.
Qed.

Lemma Near_parameters rc rs shifted p1 p2 r :
  pair_parameters (near_force rc rs shifted) p1 p2 r = combine p1 p2.
Proof.
  apply (pair_parameters_mixed _ [] (main (Tree.Near shifted))).
  - apply ParseFacts.parse_Near.
  - constructor.
  - intros. repeat split; reflexivity.
Qed.

Lemma Far_parameters cutoff rs rc shifted p1 p2 r :
  pair_parameters (far_discount cutoff rs rc shifted) p1 p2 r = combine p1 p2.
Proof.
  apply (pair_parameters_mixed _ [("S", Tree.S "rs0"); ("u", Tree.u_linear "rs0" "rc0")]
           (main (Tree.Far shifted))).
  - apply ParseFacts.parse_Far.
  - repeat constructor; discriminate.
  - intros. repeat split; reflexivity.
Qed.

Lemma DampedSmoothed_parameters alpha rc rs degree p1 p2 r :
  (0 <= degree)%Z ->
  pair_parameters (damped_force alpha rc rs degree) p1 p2 r = combine p1 p2.
Proof.
  intros Hd.
  apply (pair_parameters_mixed _
           (if (degree =? 1)%Z then [("S", ENum 1 0)]
            else [("S", Tree.S "rswitch"); ("u", Tree.u_degree (Z.to_N degree))])
           Tree.DampedSmoothed_main).
  - change (cnb_energy (damped_force alpha rc rs degree)) with (DampedSmoothedForce.energy degree).
    rewrite ParseFacts.parse_DampedSmoothed by exact Hd.
    unfold Tree.DampedSmoothed. destruct (degree =? 1)%Z; reflexivity.
  - destruct (degree =? 1)%Z; repeat constructor; discriminate.
  - intros. repeat split; reflexivity.
Qed.

End MixFacts.


(** ** Importing particles and exceptions *)

Module ImportFacts.

Local Open Scope R_scope.

Lemma nb_addParticles m c d u s ps xs g (l : list (R * R * R)) :
  fold_left (fun self '(charge, sigma, epsilon) => nb_addParticle charge sigma epsilon self) l
            (MkNonbondedForce m c d u s ps xs g)
  = MkNonbondedForce m c d u s (ps ++ l) xs g.
Proof.
  revert ps. induction l as [|[[q sg] e] l IH]; intros ps; cbn [fold_left].
  - now rewrite app_nil_r.
  - cbn [nb_addParticle]. rewrite IH, <- app_assoc. reflexivity.
Qed.

Lemma nb_addExceptions m c d u s ps xs g (l : list Exception) :
  fold_left (fun self x =>
               nb_addException (exc_i x) (exc_j x)
                 (0.0 * exc_chargeprod x) (exc_sigma x) (0.0 * exc_epsilon x) self) l
            (MkNonbondedForce m c d u s ps xs g)
  = MkNonbondedForce m c d u s ps (xs ++ map zeroed l) g.
Proof.
  revert xs. induction l as [|x l IH]; intros xs; cbn [fold_left map].
  - now rewrite app_nil_r.
  - cbn [nb_addException]. rewrite IH, <- app_assoc. reflexivity.
Qed.

Lemma NonbondedForce_importFrom force self :
  nb_exceptions (_NonbondedForce.importFrom force self)
  = nb_exceptions self ++ map zeroed (nb_exceptions force).
Proof.
  unfold _NonbondedForce.importFrom. destruct self as [m c d u s ps xs g].
  rewrite nb_addParticles, nb_addExceptions. reflexivity.
Qed.

Lemma cnb_addParticles e pp gp m c l u s ps ex g (parts : list (R * R * R)) :
  fold_left (fun self '(charge, sigma, epsilon) =>
               cnb_addParticle [charge; sigma; epsilon] self) parts
            (MkCustomNonbondedForce e pp gp m c l u s ps ex g)
  = MkCustomNonbondedForce e pp gp m c l u s (ps ++ map Kernel.parameters parts) ex g.
Proof.
  revert ps. induction parts as [|[[q sg] ep] parts IH]; intros ps; cbn [fold_left map].
  - now rewrite app_nil_r.
  - cbn [cnb_addParticle]. rewrite IH, <- app_assoc. reflexivity.
Qed.

Lemma cnb_addExclusions e pp gp m c l u s ps ex g (xs : list Exception) :
  fold_left (fun self x => cnb_addExclusion (exc_i x) (exc_j x) self) xs
            (MkCustomNonbondedForce e pp gp m c l u s ps ex g)
  = MkCustomNonbondedForce e pp gp m c l u s ps
      (ex ++ map (fun x => (exc_i x, exc_j x)) xs) g.
Proof.
  revert ex. induction xs as [|x xs IH]; intros ex; cbn [fold_left map].
  - now rewrite app_nil_r.
  - cbn [cnb_addExclusion]. rewrite IH, <- app_assoc. reflexivity.
Qed.

Lemma CustomNonbondedForce_importFrom force self :
  _CustomNonbondedForce.importFrom force self
  = let '(MkCustomNonbondedForce e pp gp m c l u s ps ex g) := self in
    MkCustomNonbondedForce e pp gp m c l u s
      (ps ++ map Kernel.parameters (nb_particles force))
      (ex ++ map (fun x => (exc_i x, exc_j x)) (nb_exceptions force)) g.
Proof.
  unfold _CustomNonbondedForce.importFrom. destruct self as [e pp gp m c l u s ps ex g].
  rewrite cnb_addParticles, cnb_addExclusions. reflexivity.
Qed.

Lemma excluded_after_import force self x :
  x ∈ nb_exceptions force ->
  Kernel.excluded (_CustomNonbondedForce.importFrom force self) (exc_i x) (exc_j x) = true.
Proof.
  intros H. rewrite CustomNonbondedForce_importFrom.
  destruct self as [e pp gp m c l u s ps ex g]. unfold Kernel.excluded. cbn [cnb_exclusions].
  apply existsb_exists. exists (exc_i x, exc_j x). split.
  - apply in_or_app. right. apply in_map_iff. exists x. split; [reflexivity|].
    now apply list_elem_of_In.
  - rewrite !Nat.eqb_refl. reflexivity.
Qed.

Lemma bond_step_all_zero self x :
  exc_chargeprod x = 0 -> exc_epsilon x = 0 -> bond_step self x = self.
Proof.
  intros Hq He. unfold bond_step.
  rewrite !bool_decide_eq_true_2 by lra. reflexivity.
Qed.

Lemma CustomBondForce_importFrom_without force k x self :
  nb_exceptions force !! k = Some x ->
  exc_chargeprod x = 0 -> exc_epsilon x = 0 ->
  _CustomBondForce.importFrom force self
  = _CustomBondForce.importFrom (without_exception k force) self.
Proof.
  intros Hk Hq He. unfold _CustomBondForce.importFrom.
  change (fun (self0 : CustomBondForce) (x0 : Exception) => _) with bond_step.
  destruct force as [m c d u s ps xs g]. cbn [nb_exceptions without_exception] in *.
  rewrite delete_take_drop.
  rewrite <- (take_drop_middle xs k x Hk) at 1.
  rewrite !fold_left_app. cbn [fold_left].
  rewrite bond_step_all_zero by assumption. reflexivity.
Qed.

End ImportFacts.


Lemma pair_energy_settings e pp gp m c l u s ps ex g ps' ex' g' p1 p2 r :
  Energy.pair_energy (MkCustomNonbondedForce e pp gp m c l u s ps ex g) p1 p2 r
  = Energy.pair_energy (MkCustomNonbondedForce e pp gp m c l u s ps' ex' g') p1 p2 r.
Proof. reflexivity. Qed.


(** ** Degrees of freedom *)

Module DofFacts.

Lemma mapM_getParticleMass_from (system : System) (n : nat) (ms : list R) :
  drop n (sys_masses system) = ms ->
  mapM (getParticleMass system) (seq n (length ms)) = inr ms.
Proof.
  revert n. induction ms as [|m ms IH]; intros n H; [reflexivity|].
  cbn [length seq mapM].
  assert (Hn : sys_masses system !! n = Some m).
  { pose proof (lookup_drop (sys_masses system) n 0) as E.
    rewrite H, Nat.add_0_r in E. symmetry. exact E. }
  assert (getParticleMass system n = inr m) as ->
    by (unfold getParticleMass; rewrite Hn; reflexivity).
  cbn [mbind exn_bind].
  rewrite (IH (S n)).
  - reflexivity.
  - pose proof (drop_drop (sys_masses system) 1 n) as E.
    rewrite H, Nat.add_1_r in E. symmetry. exact E.
Qed.

Lemma mapM_getParticleMass (system : System) :
  mapM (getParticleMass system) (seq 0 (getNumParticles system)) = inr (sys_masses system).
Proof. apply mapM_getParticleMass_from. reflexivity. Qed.

Lemma sum_Z_const (l : list R) : sum_Z (map (fun _ => 3%Z) l) = (3 * Z.of_nat (length l))%Z.
Proof.
  induction l as [|x l IH]; [reflexivity|].
  cbn [map length]. change (sum_Z (3%Z :: map (fun _ => 3%Z) l))
    with (3 + sum_Z (map (fun _ : R => 3%Z) l))%Z.
  rewrite IH. lia.
Qed.

Lemma countDegreesOfFreedom_value (system : System) :
  countDegreesOfFreedom system
  = inr (3 * Z.of_nat (length (filter (fun m => 0 < m)%R (sys_masses system))) - 3
         - Z.of_nat (sys_numConstraints system))%Z.
Proof.
  unfold countDegreesOfFreedom.
  rewrite mapM_getParticleMass. cbn [mbind exn_bind mret exn_ret].
  rewrite sum_Z_const. reflexivity.
Qed.

End DofFacts.


(** ** The store *)

Module StoreFacts.

Lemma bind_run {A B : Type} (m : M A) (k : A -> M B) sigma r sigma' :
  (m ≫= k) sigma = (r, sigma') ->
  (exists e, m sigma = (inl e, sigma') /\ r = inl e) \/
  (exists a sigma1, m sigma = (inr a, sigma1) /\ k a sigma1 = (r, sigma')).
Proof.
  unfold mbind, M_bind. destruct (m sigma) as [[e|a] sigma1].
  - intros [= <- <-]. left. eauto.
  - intros H. right. eauto.
Qed.

Lemma bind_inr {A B : Type} (m : M A) (k : A -> M B) sigma b sigma' :
  (m ≫= k) sigma = (inr b, sigma') ->
  exists a sigma1, m sigma = (inr a, sigma1) /\ k a sigma1 = (inr b, sigma').
Proof.
  intros H. apply bind_run in H as [(e & _ & [=])|H]. exact H.
Qed.

Lemma frame_refl sigma : frame sigma sigma.
Proof. intros l _. reflexivity. Qed.

Lemma frame_dom sigma0 sigma l : frame sigma0 sigma -> l ∈ dom sigma0 -> l ∈ dom sigma.
Proof.
  intros F H. apply elem_of_dom. rewrite (F l H). now apply elem_of_dom.
Qed.

Lemma frame_insert sigma0 sigma l o :
  frame sigma0 sigma -> l ∉ dom sigma0 -> frame sigma0 (<[l := o]> sigma).
Proof.
  intros F H l' Hl'. rewrite lookup_insert_ne; [now apply F|].
  intros ->. contradiction.
Qed.

Lemma fresh_outside sigma0 sigma : frame sigma0 sigma -> fresh (dom sigma) ∉ dom sigma0.
Proof.
  intros F H. apply (is_fresh (dom sigma)). eapply frame_dom; eassumption.
Qed.

(** *** Reading *)

Lemma read_force_run l sigma r sigma' :
  read_force l sigma = (r, sigma') ->
  sigma' = sigma /\ forall f, r = inr f -> sigma !! l = Some (OForce f).
Proof.
  unfold read_force. destruct (sigma !! l) as [[f| | |]|]; intros [= <- <-];
    (split; [reflexivity|]); intros f' [=]; congruence.
Qed.

Lemma read_system_run l sigma r sigma' :
  read_system l sigma = (r, sigma') ->
  sigma' = sigma /\ forall s, r = inr s -> sigma !! l = Some (OSystem s).
Proof.
  unfold read_system. destruct (sigma !! l) as [[| s | |]|]; intros [= <- <-];
    (split; [reflexivity|]); intros s' [=]; congruence.
Qed.

Lemma read_topology_run l sigma r sigma' :
  read_topology l sigma = (r, sigma') -> sigma' = sigma.
Proof.
  unfold read_topology. destruct (sigma !! l) as [[| | t |]|]; now intros [= <- <-].
Qed.

Lemma read_positions_run l sigma r sigma' :
  read_positions l sigma = (r, sigma') -> sigma' = sigma.
Proof.
  unfold read_positions. destruct (sigma !! l) as [[| | | ps]|]; now intros [= <- <-].
Qed.

Lemma mapM_read_force_run ls sigma r sigma' :
  mapM read_force ls sigma = (r, sigma') -> sigma' = sigma.
Proof.
  revert r sigma'. induction ls as [|l ls IH]; intros r sigma' H.
  - now injection H as <- <-.
  - cbn [mapM] in H. apply bind_run in H as [(e & H & _)|(f & s1 & H & K)];
      apply read_force_run in H as [-> _]; [reflexivity|].
    apply bind_run in K as [(e & K & _)|(fs & s2 & K & L)].
    + now apply IH in K.
    + apply IH in K as ->. now injection L as <- <-.
Qed.

(** *** Copying *)

Lemma copy_forces_run Q sigma0 ls sigma r sigma' :
  frame sigma0 sigma -> classes Q sigma ->
  mapM (fun l => f ← read_force l; alloc (OForce f)) ls sigma = (r, sigma') ->
  frame sigma0 sigma' /\ classes Q sigma' /\
  forall fs, r = inr fs -> Forall (fun l => l ∉ dom sigma0) fs.
Proof.
  revert sigma r sigma'. induction ls as [|l ls IH]; intros sigma r sigma' F N H.
  - injection H as <- <-. split; [exact F|]. split; [exact N|].
    intros fs [= <-]. constructor.
  - cbn [mapM] in H. apply bind_run in H as [(e & H & ->)|(l' & s1 & H & K)].
    + apply bind_run in H as [(e' & H & _)|(f & s1 & H & K)].
      * apply read_force_run in H as [-> _]. split; [exact F|]. split; [exact N|]. discriminate.
      * discriminate K.
    + apply bind_run in H as [(e' & _ & [=])|(f & s0 & H & A)].
      apply read_force_run in H as [-> Hf]. specialize (Hf f eq_refl).
      unfold alloc in A. injection A as <- <-.
      assert (F1 : frame sigma0 (<[fresh (dom sigma) := OForce f]> sigma))
        by (apply frame_insert; [exact F | now apply fresh_outside]).
      assert (N1 : classes Q (<[fresh (dom sigma) := OForce f]> sigma)).
      { intros l0 f0 H0. destruct (decide (fresh (dom sigma) = l0)) as [<-|Hne].
        - rewrite lookup_insert_eq in H0. injection H0 as <-. eapply N. exact Hf.
        - rewrite lookup_insert_ne in H0 by exact Hne. eapply N. exact H0. }
      apply bind_run in K as [(e & K & ->)|(fs & s2 & K & L)].
      * destruct (IH _ _ _ F1 N1 K) as (F2 & N2 & _). split; [exact F2|]. split; [exact N2|].
        discriminate.
      * destruct (IH _ _ _ F1 N1 K) as (F2 & N2 & P). injection L as <- <-.
        split; [exact F2|]. split; [exact N2|].
        intros fs' [= <-]. constructor; [now apply fresh_outside | now apply P].
Qed.

Lemma deepcopy_run Q sigma0 system sigma r sigma' :
  frame sigma0 sigma -> classes Q sigma ->
  deepcopy system sigma = (r, sigma') ->
  frame sigma0 sigma' /\ classes Q sigma' /\
  forall syscopy, r = inr syscopy ->
    exists s, sigma' !! syscopy = Some (OSystem s)
              /\ Forall (fun l => l ∉ dom sigma0) (sys_forces s).
Proof.
  intros F N H. unfold deepcopy in H.
  apply bind_run in H as [(e & H & ->)|(s & s1 & H & K)].
  { apply read_system_run in H as [-> _]. split; [exact F|]. split; [exact N|]. discriminate. }
  apply read_system_run in H as [-> _].
  apply bind_run in K as [(e & K & ->)|(fs & s2 & K & A)].
  { destruct (copy_forces_run _ _ _ _ _ _ F N K) as (F1 & N1 & _).
    split; [exact F1|]. split; [exact N1|]. discriminate. }
  destruct (copy_forces_run _ _ _ _ _ _ F N K) as (F1 & N1 & P).
  unfold alloc in A. injection A as <- <-.
  split; [apply frame_insert; [exact F1 | now apply fresh_outside]|].
  split.
  - intros l0 f0 H0. destruct (decide (fresh (dom s2) = l0)) as [<-|Hne].
    + rewrite lookup_insert_eq in H0. discriminate H0.
    + rewrite lookup_insert_ne in H0 by exact Hne. eapply N1. exact H0.
  - intros c [= <-]. eexists. split; [apply lookup_insert_eq|].
    cbn [sys_forces]. now apply P.
Qed.

(** *** Tagging *)

Lemma setForceGroup_className group f f' :
  OpenMM.setForceGroup group f = inr f' -> className f' = className f.
Proof.
  unfold OpenMM.setForceGroup. destruct (_ || _)%bool; [discriminate|].
  intros [= <-]. now destruct f.
Qed.

Lemma setForceGroup_at_run Q sigma0 l group sigma r sigma' :
  frame sigma0 sigma -> classes Q sigma -> l ∉ dom sigma0 ->
  setForceGroup_at l group sigma = (r, sigma') ->
  frame sigma0 sigma' /\ classes Q sigma'.
Proof.
  intros F N Hl H. unfold setForceGroup_at in H.
  apply bind_run in H as [(e & H & ->)|(f & s1 & H & K)].
  { apply read_force_run in H as [-> _]. now split. }
  apply read_force_run in H as [-> Hf]. specialize (Hf f eq_refl).
  destruct (OpenMM.setForceGroup group f) as [e|f'] eqn:E.
  - injection K as <- <-. now split.
  - injection K as <- <-. split; [now apply frame_insert|].
    intros l0 f0 H0. destruct (decide (l = l0)) as [<-|Hne].
    + rewrite lookup_insert_eq in H0. injection H0 as <-.
      rewrite (setForceGroup_className _ _ _ E). eapply N. exact Hf.
    + rewrite lookup_insert_ne in H0 by exact Hne. eapply N. exact H0.
Qed.

Lemma tag_forces_run Q sigma0 (pairs : list (Z * loc)) sigma r sigma' :
  frame sigma0 sigma -> classes Q sigma ->
  Forall (fun p => p.2 ∉ dom sigma0) pairs ->
  mapM (fun '(index, force) => setForceGroup_at force index) pairs sigma = (r, sigma') ->
  frame sigma0 sigma' /\ classes Q sigma'.
Proof.
  revert sigma r sigma'. induction pairs as [|[i l] pairs IH]; intros sigma r sigma' F N P H.
  - injection H as <- <-. now split.
  - apply Forall_cons in P as [Hl P]. cbn [mapM] in H.
    apply bind_run in H as [(e & H & ->)|(u & s1 & H & K)].
    + eapply setForceGroup_at_run; eassumption.
    + destruct (setForceGroup_at_run _ _ _ _ _ _ _ F N Hl H) as [F1 N1].
      apply bind_run in K as [(e & K & ->)|(us & s2 & K & L)].
      * eapply IH; eassumption.
      * injection L as <- <-. eapply IH; eassumption.
Qed.

Lemma enumerate_snd {A : Type} (P : A -> Prop) (l : list A) :
  Forall P l -> Forall (fun p => P p.2) (enumerate l).
Proof.
  unfold enumerate. generalize 0%nat. induction l as [|x l IH]; intros n H.
  - constructor.
  - apply Forall_cons in H as [Hx H]. cbn. constructor; [exact Hx | now apply IH].
Qed.

End StoreFacts.

Module SplitFacts.

Import StoreFacts.

Section Split.

Variable forceEnergy : OpenMM.Force -> Positions -> R.

Lemma Simulation_run topology system sigma r sigma' :
  Simulation topology system sigma = (r, sigma') -> sigma' = sigma.
Proof.
  unfold Simulation. intros H.
  apply bind_run in H as [(e & H & _)|(t & s1 & H & K)];
    apply read_topology_run in H as ->; [reflexivity|].
  apply bind_run in K as [(e & K & _)|(s & s2 & K & L)];
    apply read_system_run in K as [-> _]; [reflexivity|].
  apply bind_run in L as [(e & L & _)|(fs & s3 & L & J)];
    apply mapM_read_force_run in L as ->; [reflexivity|].
  now injection J as <- <-.
Qed.

Lemma setPositions_run positions ctx sigma r sigma' :
  setPositions positions ctx sigma = (r, sigma') -> sigma' = sigma.
Proof.
  unfold setPositions. intros H.
  apply bind_run in H as [(e & H & _)|(ps & s1 & H & K)];
    apply read_positions_run in H as ->; [reflexivity|].
  destruct (bool_decide _); now injection K as <- <-.
Qed.

Lemma chars_append (a b : string) :
  list_ascii_of_string (a +:+ b) = list_ascii_of_string a ++ list_ascii_of_string b.
Proof.
  induction a as [|c a IH]; [reflexivity|].
  change (String c a +:+ b) with (String c (a +:+ b)).
  cbn [list_ascii_of_string]. rewrite IH. reflexivity.
Qed.

Lemma numbered_not_Total (forceType suffix : string) :
  forceType +:+ "(" +:+ suffix <> "Total".
Proof.
  intros H. apply (f_equal list_ascii_of_string) in H.
  rewrite chars_append in H.
  assert (I : In "("%char (list_ascii_of_string "Total")).
  { rewrite <- H. apply in_or_app. right. left. reflexivity. }
  cbn in I. intuition discriminate.
Qed.

Lemma record_term_no_Total forceType e acc :
  forceType <> "Total" -> no_Total_key acc -> no_Total_key (record_term forceType e acc).
Proof.
  intros Hne H. destruct acc as [terms energy]. unfold no_Total_key, record_term in *.
  cbn [snd] in *. destruct (terms !! forceType); cbn [snd].
  - rewrite lookup_insert_ne; [exact H | apply numbered_not_Total].
  - rewrite lookup_insert_ne; [exact H | exact Hne].
Qed.

Lemma tabulate_run ctx (pairs : list (Z * loc)) acc sigma r sigma' :
  foldM (fun acc '(index, force) =>
           let state := getPotentialEnergy forceEnergy ctx index in
           f ← read_force force;
           mret (record_term (className f) state acc))
        acc pairs sigma = (r, sigma') ->
  sigma' = sigma /\
  (classes (fun c => c <> "Total") sigma -> no_Total_key acc ->
   forall acc', r = inr acc' -> no_Total_key acc').
Proof.
  revert acc. induction pairs as [|[i l] pairs IH]; intros acc H.
  - injection H as <- <-. split; [reflexivity|]. now intros _ Ha acc' [= <-].
  - cbn [foldM] in H. apply bind_run in H as [(e & H & ->)|(acc1 & s1 & H & K)].
    + apply bind_run in H as [(e' & H & _)|(f & s1 & H & K)].
      * apply read_force_run in H as [-> _]. split; [reflexivity | discriminate].
      * discriminate K.
    + apply bind_run in H as [(e' & _ & [=])|(f & s0 & H & A)].
      apply read_force_run in H as [-> Hf]. specialize (Hf f eq_refl).
      injection A as <- <-.
      destruct (IH _ K) as [-> P]. split; [reflexivity|].
      intros C Ha. apply P; [exact C|].
      apply record_term_no_Total; [eapply C; exact Hf | exact Ha].
Qed.

(** What the call leaves of the store, and what it returns. *)
Lemma splitPotentialEnergy_run Q system topology positions sigma r sigma' :
  classes Q sigma ->
  splitPotentialEnergy forceEnergy system topology positions sigma = (r, sigma') ->
  frame sigma sigma' /\
  ((forall c, Q c -> c <> "Total") ->
   forall energy, r = inr energy ->
     exists e, e !! "Total" = None /\ energy = <["Total" := sum_values e]> e).
Proof.
  intros C H. unfold splitPotentialEnergy in H.
  pose proof (frame_refl sigma) as F.
  apply bind_run in H as [(e & H & ->)|(syscopy & s1 & H & K)].
  { destruct (deepcopy_run _ _ _ _ _ _ F C H) as (F1 & _ & _). split; [exact F1 | discriminate]. }
  destruct (deepcopy_run _ _ _ _ _ _ F C H) as (F1 & C1 & P).
  destruct (P syscopy eq_refl) as (s & Hs & Hfs). clear P H.
  apply bind_run in K as [(e & K & ->)|(s' & s2 & K & L)].
  { apply read_system_run in K as [-> _]. split; [exact F1 | discriminate]. }
  apply read_system_run in K as [-> Hs']. specialize (Hs' s' eq_refl).
  assert (s' = s) as -> by congruence. clear Hs'.
  apply bind_run in L as [(e & L & ->)|(us & s3 & L & J)].
  { destruct (tag_forces_run _ _ _ _ _ _ F1 C1 (enumerate_snd _ _ Hfs) L) as [F2 _].
    split; [exact F2 | discriminate]. }
  destruct (tag_forces_run _ _ _ _ _ _ F1 C1 (enumerate_snd _ _ Hfs) L) as [F2 C2].
  clear L.
  apply bind_run in J as [(e & J & ->)|(sim & s4 & J & I)].
  { apply Simulation_run in J as ->. split; [exact F2 | discriminate]. }
  apply Simulation_run in J as ->.
  apply bind_run in I as [(e & I & ->)|(sim' & s5 & I & G)].
  { apply setPositions_run in I as ->. split; [exact F2 | discriminate]. }
  apply setPositions_run in I as ->.
  apply bind_run in G as [(e & G & ->)|([terms energy] & s6 & G & E)].
  { apply tabulate_run in G as [-> _]. split; [exact F2 | discriminate]. }
  apply tabulate_run in G as [-> T].
  injection E as <- <-. split; [exact F2|].
  intros HQ energy' [= <-]. exists energy. split; [|reflexivity].
  apply (T (fun l f Hf => HQ _ (C2 l f Hf)) (lookup_empty _) (terms, energy) eq_refl).
Qed.

End Split.

End SplitFacts.


Module SplitSuccess.

Import StoreFacts.

Lemma same_shape_refl sigma : same_shape sigma sigma.
Proof. intros l. destruct (sigma !! l) as [[f| | |]|] eqn:E; try reflexivity. now exists f. Qed.

Lemma same_shape_trans s1 s2 s3 : same_shape s1 s2 -> same_shape s2 s3 -> same_shape s1 s3.
Proof.
  intros A B l. specialize (A l). specialize (B l).
  destruct (s1 !! l) as [[f| | |]|].
  - destruct A as [f' A]. now rewrite A in B.
  - now rewrite A in B.
  - now rewrite A in B.
  - now rewrite A in B.
  - now rewrite A in B.
Qed.

Lemma same_shape_force s1 s2 l : same_shape s1 s2 -> is_force s1 l -> is_force s2 l.
Proof. intros A [f H]. specialize (A l). now rewrite H in A. Qed.

Lemma same_shape_other s1 s2 l o :
  same_shape s1 s2 -> s1 !! l = Some o -> (forall f, o <> OForce f) -> s2 !! l = Some o.
Proof.
  intros A H N. specialize (A l). rewrite H in A.
  destruct o; try exact A. now destruct (N f).
Qed.

Lemma is_force_weaken s1 s2 l : s1 ⊆ s2 -> is_force s1 l -> is_force s2 l.
Proof. intros S [f H]. exists f. eapply lookup_weaken; eassumption. Qed.

Lemma alloc_subseteq (sigma : gmap loc object) (o : object) :
  sigma ⊆ <[fresh (dom sigma) := o]> sigma.
Proof. apply insert_subseteq, not_elem_of_dom, is_fresh. Qed.

Lemma bind_ok {A B : Type} (m : M A) (k : A -> M B) sigma a sigma1 :
  m sigma = (inr a, sigma1) -> (m ≫= k) sigma = k a sigma1.
Proof. intros H. unfold mbind, M_bind. now rewrite H. Qed.

Lemma read_force_ok l f sigma :
  sigma !! l = Some (OForce f) -> read_force l sigma = (inr f, sigma).
Proof. intros H. unfold read_force. now rewrite H. Qed.

Lemma read_system_ok l s sigma :
  sigma !! l = Some (OSystem s) -> read_system l sigma = (inr s, sigma).
Proof. intros H. unfold read_system. now rewrite H. Qed.

Lemma read_topology_ok l t sigma :
  sigma !! l = Some (OTopology t) -> read_topology l sigma = (inr t, sigma).
Proof. intros H. unfold read_topology. now rewrite H. Qed.

Lemma read_positions_ok l ps sigma :
  sigma !! l = Some (OPositions ps) -> read_positions l sigma = (inr ps, sigma).
Proof. intros H. unfold read_positions. now rewrite H. Qed.

Lemma copy_forces_ok ls sigma :
  Forall (is_force sigma) ls ->
  exists fs sigma1,
    mapM (fun l => f ← read_force l; alloc (OForce f)) ls sigma = (inr fs, sigma1) /\
    sigma ⊆ sigma1 /\ Forall (is_force sigma1) fs /\ length fs = length ls.
Proof.
  revert sigma. induction ls as [|l ls IH]; intros sigma H.
  - exists [], sigma. repeat split; [reflexivity | constructor].
  - apply Forall_cons in H as [[f Hf] H].
    set (sigma0 := <[fresh (dom sigma) := OForce f]> sigma).
    assert (S0 : sigma ⊆ sigma0) by apply alloc_subseteq.
    destruct (IH sigma0) as (fs & sigma1 & E & S1 & P & L).
    { eapply Forall_impl; [exact H|]. intros x. now apply is_force_weaken. }
    exists (fresh (dom sigma) :: fs), sigma1. split; [|split; [|split]].
    + cbn [mapM].
      erewrite bind_ok; [|erewrite bind_ok by (apply read_force_ok; exact Hf); reflexivity].
      fold sigma0. erewrite bind_ok by exact E. reflexivity.
    + now transitivity sigma0.
    + constructor; [|exact P]. exists f. eapply lookup_weaken; [|exact S1].
      apply lookup_insert_eq.
    + cbn. now rewrite L.
Qed.

Lemma setForceGroup_at_ok l group sigma :
  is_force sigma l -> (0 <= group <= 31)%Z ->
  exists sigma', setForceGroup_at l group sigma = (inr (), sigma') /\ same_shape sigma sigma'.
Proof.
  intros [f Hf] Hg. unfold setForceGroup_at.
  erewrite bind_ok by (apply read_force_ok; exact Hf).
  unfold OpenMM.setForceGroup.
  assert (Hin : ((group <? 0)%Z || (31 <? group)%Z) = false)
    by (apply orb_false_intro; apply Z.ltb_ge; lia).
  rewrite Hin.
  eexists. split; [reflexivity|].
  intros l'. destruct (decide (l = l')) as [<-|Hne].
  - rewrite Hf. eexists. apply lookup_insert_eq.
  - rewrite lookup_insert_ne by exact Hne.
    destruct (sigma !! l') as [[f'| | |]|] eqn:E; try reflexivity.
    exists f'. now rewrite lookup_insert_ne by exact Hne.
Qed.

Lemma tag_forces_ok (pairs : list (Z * loc)) sigma :
  Forall (fun p => is_force sigma p.2 /\ (0 <= p.1 <= 31)%Z) pairs ->
  exists us sigma',
    mapM (fun '(index, force) => setForceGroup_at force index) pairs sigma = (inr us, sigma')
    /\ same_shape sigma sigma'.
Proof.
  revert sigma. induction pairs as [|[i l] pairs IH]; intros sigma H.
  - exists [], sigma. split; [reflexivity | apply same_shape_refl].
  - apply Forall_cons in H as [[Hl Hi] H]. cbn [fst snd] in *.
    destruct (setForceGroup_at_ok l i sigma Hl Hi) as (s1 & E1 & S1).
    destruct (IH s1) as (us & s2 & E2 & S2).
    { eapply Forall_impl; [exact H|]. intros [i' l'] [A B]. split; [|exact B].
      eapply same_shape_force; eassumption. }
    exists (() :: us), s2. split; [|eapply same_shape_trans; eassumption].
    cbn [mapM]. erewrite bind_ok by exact E1. erewrite bind_ok by exact E2. reflexivity.
Qed.

Lemma enumerate_from {A : Type} (P : A -> Prop) (l : list A) (n : nat) :
  Forall P l -> (n + length l <= 32)%nat ->
  Forall (fun p => P p.2 /\ (0 <= p.1 <= 31)%Z) (zip (map Z.of_nat (seq n (length l))) l).
Proof.
  revert n. induction l as [|x l IH]; intros n H Hn; [constructor|].
  apply Forall_cons in H as [Hx H]. cbn in *. constructor.
  - cbn. split; [exact Hx | lia].
  - apply IH; [exact H | lia].
Qed.

Lemma mapM_read_force_ok ls sigma :
  Forall (is_force sigma) ls -> exists fs, mapM read_force ls sigma = (inr fs, sigma).
Proof.
  induction ls as [|l ls IH]; intros H.
  - exists []. reflexivity.
  - apply Forall_cons in H as [[f Hf] H]. destruct (IH H) as [fs E].
    exists (f :: fs). cbn [mapM].
    erewrite bind_ok by (apply read_force_ok; exact Hf).
    erewrite bind_ok by exact E. reflexivity.
Qed.

Section Success.

Variable forceEnergy : OpenMM.Force -> Positions -> R.

Lemma tabulate_ok ctx (pairs : list (Z * loc)) acc sigma :
  Forall (fun p => is_force sigma p.2) pairs ->
  exists acc',
    foldM (fun acc '(index, force) =>
             let state := getPotentialEnergy forceEnergy ctx index in
             f ← read_force force;
             mret (record_term (className f) state acc))
          acc pairs sigma = (inr acc', sigma).
Proof.
  revert acc. induction pairs as [|[i l] pairs IH]; intros acc H.
  - exists acc. reflexivity.
  - apply Forall_cons in H as [[f Hf] H]. cbn [snd] in Hf.
    destruct (IH (record_term (className f) (getPotentialEnergy forceEnergy ctx i) acc) H)
      as [acc' E].
    exists acc'. cbn [foldM].
    erewrite bind_ok; [|erewrite bind_ok by (apply read_force_ok; exact Hf); reflexivity].
    exact E.
Qed.

Lemma splitPotentialEnergy_ok system topology positions sigma :
  well_formed sigma system topology positions ->
  exists energy sigma',
    splitPotentialEnergy forceEnergy system topology positions sigma = (inr energy, sigma').
Proof.
  intros (s & t & ps & Hs & Ht & Hp & Hlen & Hf & H32).
  destruct (copy_forces_ok _ _ Hf) as (fs & s1 & E1 & S1 & F1 & L1).
  set (copy := MkSystem (sys_masses s) (sys_numConstraints s) fs).
  set (c := fresh (dom s1)).
  set (s2 := <[c := OSystem copy]> s1).
  assert (S2 : s1 ⊆ s2) by apply alloc_subseteq.
  assert (Hc : s2 !! c = Some (OSystem copy)) by apply lookup_insert_eq.
  assert (F2 : Forall (is_force s2) fs).
  { eapply Forall_impl; [exact F1|]. intros x. now apply is_force_weaken. }
  destruct (tag_forces_ok (enumerate fs) s2) as (us & s3 & E3 & S3).
  { apply enumerate_from; [exact F2 | lia]. }
  assert (Hc3 : s3 !! c = Some (OSystem copy))
    by (eapply same_shape_other; [exact S3 | exact Hc | discriminate]).
  assert (Ht3 : s3 !! topology = Some (OTopology t)).
  { eapply same_shape_other; [exact S3 | | discriminate].
    eapply lookup_weaken; [|exact S2]. eapply lookup_weaken; [exact Ht | exact S1]. }
  assert (Hp3 : s3 !! positions = Some (OPositions ps)).
  { eapply same_shape_other; [exact S3 | | discriminate].
    eapply lookup_weaken; [|exact S2]. eapply lookup_weaken; [exact Hp | exact S1]. }
  assert (F3 : Forall (is_force s3) fs).
  { eapply Forall_impl; [exact F2|]. intros x. now apply same_shape_force. }
  destruct (mapM_read_force_ok _ _ F3) as [forces E4].
  set (ctx := MkContext (getNumParticles copy) forces ps).
  destruct (tabulate_ok ctx (enumerate fs) (∅, ∅) s3) as [[terms energy] E5].
  { apply (enumerate_snd (is_force s3)). exact F3. }
  exists (<["Total" := sum_values energy]> energy), s3.
  unfold splitPotentialEnergy.
  assert (D : deepcopy system sigma = (inr c, s2)).
  { unfold deepcopy. erewrite bind_ok by (apply read_system_ok; exact Hs).
    erewrite bind_ok by exact E1. reflexivity. }
  erewrite bind_ok by exact D.
  erewrite bind_ok by (apply read_system_ok; exact Hc).
  cbn [sys_forces copy]. erewrite bind_ok by exact E3.
  assert (Sim : Simulation topology c s3 = (inr (MkContext (getNumParticles copy) forces []), s3)).
  { unfold Simulation. erewrite bind_ok by (apply read_topology_ok; exact Ht3).
    erewrite bind_ok by (apply read_system_ok; exact Hc3).
    cbn [sys_forces copy]. erewrite bind_ok by exact E4. reflexivity. }
  erewrite bind_ok by exact Sim.
  assert (Pos : setPositions positions (MkContext (getNumParticles copy) forces []) s3
                = (inr ctx, s3)).
  { unfold setPositions. erewrite bind_ok by (apply read_positions_ok; exact Hp3).
    cbn [ctx_numParticles ctx_forces].
    rewrite bool_decide_eq_true_2 by exact Hlen. reflexivity. }
  erewrite bind_ok by exact Pos.
  erewrite bind_ok by exact E5. reflexivity.
Qed.

End Success.

End SplitSuccess.

(** * The claims *)

Import Expr EvalFacts ForceFacts DampedFacts SwitchFacts MixFacts ImportFacts.
Import StoreFacts SplitFacts SplitSuccess.

Local Open Scope R_scope.

(** C1. A [FarNonbondedForce] built from a [NearNonbondedForce] complements
    it: at every distance the discount term of the Far force is the negative
    of the Near potential (which, inside the inner cutoff, is the switched
    and optionally shifted Lennard-Jones plus Coulomb potential), so Near
    plus Far is what the toolkit's unmodified [NonbondedForce] gives, and
    from the inner cutoff on the Far force gives that alone. The inner
    configuration is valid ([0 <= rs < rc]), the inner cutoff is not beyond
    the outer one, the distance is positive and the epsilons have a
    geometric mean. *)
Theorem Near_Far_complement
    (native : NonbondedForce -> R * R * R -> R * R * R -> R -> option R)
    (rc rs : R) (shifted : bool)
    (cutoff : R) (switch : option R) (method : NonbondedMethod)
    (q1 s1 e1 q2 s2 e2 r t : R) :
  0 <= rs < rc -> rc <= cutoff -> 0 < r -> 0 <= e1 * e2 ->
  native (far_total cutoff switch method) (q1, s1, e1) (q2, s2, e2) r = Some t ->
  exists near far inner discount n f,
    NearNonbondedForce.__init__ rc rs shifted = inr near /\
    Force.forces (NearNonbondedForce.base near) = [FCustomNonbonded inner] /\
    FarNonbondedForce.__init__ (VNearNonbondedForce near) cutoff switch method = inr far /\
    Force.forces far
      = [FNonbonded (far_total cutoff switch method); FCustomNonbonded discount] /\
    Energy.pair_energy inner [q1; s1; e1] [q2; s2; e2] r = Some n /\
    Energy.pair_energy discount [q1; s1; e1] [q2; s2; e2] r = Some (- n) /\
    (r < rc ->
     n = Energy.switching rs rc r *
         (Formula.U (q1 * q2) (0.5 * (s1 + s2)) (sqrt (e1 * e2)) r
          - (if shifted
             then Formula.U (q1 * q2) (0.5 * (s1 + s2)) (sqrt (e1 * e2)) rc
             else 0))) /\
    Kernel.pair_energy native (NearNonbondedForce.base near) (q1, s1, e1) (q2, s2, e2) r
      = Some n /\
    Kernel.pair_energy native far (q1, s1, e1) (q2, s2, e2) r = Some f /\
    n + f = t /\
    (rc <= r -> f = t).
Proof.
  intros Hrs Hout Hr He Ht.
  set (U := Formula.U (q1 * q2) (0.5 * (s1 + s2)) (sqrt (e1 * e2))).
  assert (Hnear : exists n,
    Energy.pair_energy (near_force rc rs shifted) [q1; s1; e1] [q2; s2; e2] r = Some n /\
    Energy.pair_energy (far_discount cutoff rs rc shifted) [q1; s1; e1] [q2; s2; e2] r
      = Some (- n) /\
    (r < rc -> n = Energy.switching rs rc r * (U r - (if shifted then U rc else 0))) /\
    (rc <= r -> n = 0)).
  { destruct (Rle_dec rc r) as [Hge|Hlt].
    - exists 0. split; [|split; [|split; [lra | reflexivity]]].
      + unfold Energy.pair_energy.
        change (cnb_energy (near_force rc rs shifted)) with (NearNonbondedForce.energy shifted).
        rewrite ParseFacts.parse_Near. cbn [mbind option_bind].
        unfold Energy.beyond_cutoff.
        cbn [near_force cnb_nonbondedMethod cnb_cutoffDistance Energy.uses_cutoff andb].
        destruct (Rle_dec rc r); [reflexivity | contradiction].
      + destruct (Rle_dec cutoff r) as [Hge'|Hlt'].
        * unfold Energy.pair_energy.
          change (cnb_energy (far_discount cutoff rs rc shifted))
            with (FarNonbondedForce.energy "rs0" "rc0" shifted).
          rewrite ParseFacts.parse_Far. cbn [mbind option_bind].
          unfold Energy.beyond_cutoff.
          cbn [far_discount cnb_nonbondedMethod cnb_cutoffDistance Energy.uses_cutoff andb].
          destruct (Rle_dec cutoff r); [f_equal; lra | contradiction].
        * rewrite Far_pair_energy by lra. f_equal.
          destruct (Req_dec_T r rc) as [->|Hne].
          -- replace ((rc - rs) / (rc - rs)) with 1 by (field; lra).
             rewrite S_one by lra. lra.
          -- rewrite step_neg by lra. lra.
    - exists (Energy.switching rs rc r * (U r - (if shifted then U rc else 0))).
      split; [|split; [|split; [reflexivity | lra]]].
      + apply Near_pair_energy; lra.
      + rewrite Far_pair_energy by lra. rewrite S_switching by lra.
        rewrite step_nonneg by lra. f_equal. fold U. lra. }
  destruct Hnear as (n & Hn & Hd & Hin & Hz).
  eexists _, _, _, _, n, (t - n).
  split; [apply Near_init|]. split; [reflexivity|].
  split; [apply Far_init|]. split; [reflexivity|].
  split; [exact Hn|]. split; [exact Hd|]. split; [exact Hin|].
  split; [|split; [|split]].
  - unfold Kernel.pair_energy.
    cbn [NearNonbondedForce.base Force.forces map Kernel.sum_option foldr
         Kernel.force_pair_energy Kernel.parameters].
    rewrite Hn. cbn [mbind option_bind]. f_equal. lra.
  - unfold Kernel.pair_energy.
    cbn [Force.forces map Kernel.sum_option foldr Kernel.force_pair_energy Kernel.parameters].
    rewrite Ht, Hd. cbn [mbind option_bind]. f_equal. lra.
  - lra.
  - intros Hge. rewrite (Hz Hge). lra.
Qed.

(** C2. For a valid pair [0 <= rs < rc] and a degree of at least 1, the
    factor by which a [DampedSmoothedForce] scales the potential is 1 up to
    the switching distance, in particular at it, and 0 at the cutoff; so is
    the [S] of the discount term of a [FarNonbondedForce], whose degree is 1. *)
Theorem switching_multiplier_endpoints
    (alpha rc rs : R) (degree : Z) (shifted : bool)
    (cutoff : R) (switch : option R) (method : NonbondedMethod) (p1 p2 : list R) :
  0 <= rs < rc -> (1 <= degree)%Z ->
  (exists f,
      DampedSmoothedForce.__init__ alpha rc rs degree = inr (Force.Build [FCustomNonbonded f]) /\
      (forall r, r <= rs -> Energy.multiplier f p1 p2 r = Some 1) /\
      Energy.multiplier f p1 p2 rs = Some 1 /\
      Energy.multiplier f p1 p2 rc = Some 0) /\
  (exists near total discount,
      NearNonbondedForce.__init__ rc rs shifted = inr near /\
      FarNonbondedForce.__init__ (VNearNonbondedForce near) cutoff switch method
        = inr (Force.Build [total; FCustomNonbonded discount]) /\
      (forall r, r <= rs -> Energy.multiplier discount p1 p2 r = Some 1) /\
      Energy.multiplier discount p1 p2 rs = Some 1 /\
      Energy.multiplier discount p1 p2 rc = Some 0).
Proof.
  intros Hrs Hd. split.
  - exists (damped_force alpha rc rs degree).
    split; [apply DampedSmoothed_init; exact Hrs|].
    split; [intros r Hr; apply DampedSmoothed_multiplier_below; assumption|].
    split; [apply DampedSmoothed_multiplier_below; [assumption | assumption | lra]|].
    apply DampedSmoothed_multiplier_cutoff; assumption.
  - eexists _, _, (far_discount cutoff rs rc shifted).
    split; [apply Near_init|]. split; [apply Far_init|].
    assert (Hm : forall r, Energy.multiplier (far_discount cutoff rs rc shifted) p1 p2 r
                           = Some (Energy.switching rs rc r)).
    { intros r. unfold Energy.multiplier. rewrite Far_S by lra.
      cbn [mbind option_bind]. rewrite S_switching by lra.
      unfold Energy.switchValue. cbn [far_discount cnb_useSwitchingFunction].
      rewrite andb_false_r. f_equal. lra. }
    split; [intros r Hr; rewrite Hm, switching_below by exact Hr; reflexivity|].
    split; [rewrite Hm, switching_below by lra; reflexivity|].
    rewrite Hm, switching_at_cutoff by lra. reflexivity.
Qed.


(** C4, as amended. An exception whose charge product and epsilon are zero
    adds nothing to any force: [_CustomBondForce.importFrom] makes the same
    bond force with it as without it; [_CustomNonbondedForce.importFrom]
    records the pair as an exclusion, whose contribution is zero; and
    [_NonbondedForce.importFrom] stores the exception with a zero charge
    product and a zero epsilon, whose energy is zero at every distance. *)
Theorem all_zero_exception_contributes_nothing
    (force : NonbondedForce) (k : nat) (x : Exception) :
  nb_exceptions force !! k = Some x ->
  exc_chargeprod x = 0 -> exc_epsilon x = 0 ->
  (forall self,
      _CustomBondForce.importFrom force self
      = _CustomBondForce.importFrom (without_exception k force) self) /\
  (forall self dist,
      Kernel.excluded (_CustomNonbondedForce.importFrom force self) (exc_i x) (exc_j x) = true /\
      Kernel.pair_contribution (_CustomNonbondedForce.importFrom force self) dist
        (exc_i x) (exc_j x) = Some 0) /\
  (forall self,
      exists x',
        x' ∈ nb_exceptions (_NonbondedForce.importFrom force self) /\
        exc_i x' = exc_i x /\ exc_j x' = exc_j x /\
        exc_chargeprod x' = 0 /\ exc_epsilon x' = 0 /\
        forall r, Kernel.exception_energy x' r = 0).
Proof.
  intros Hk Hq He.
  assert (Hin : x ∈ nb_exceptions force) by (eapply list_elem_of_lookup_2; exact Hk).
  split; [|split].
  - intros self. eapply CustomBondForce_importFrom_without; eassumption.
  - intros self dist.
    assert (E := excluded_after_import force self x Hin).
    split; [exact E|]. unfold Kernel.pair_contribution. now rewrite E.
  - intros self. exists (zeroed x). split; [|repeat split].
    + rewrite NonbondedForce_importFrom. apply list_elem_of_In, in_or_app. right.
      apply in_map. now apply list_elem_of_In.
    + cbn. lra.
    + cbn. lra.
    + intros r. unfold Kernel.exception_energy.
      cbn [zeroed exc_chargeprod exc_epsilon exc_sigma]. lra.
Qed.

(** C5, as amended. The general forces combine the parameters of two
    particles by the Lorentz-Berthelot rule, [chargeprod = charge1*charge2],
    [sigma = (sigma1+sigma2)/2], [epsilon = sqrt(epsilon1*epsilon2)]; for a
    particle whose epsilon is not negative, the pair of the particle with
    itself has its sigma, its epsilon and the square of its charge. *)
Theorem LorentzBerthelot_rule :
  (forall q1 s1 e1 q2 s2 e2,
      0 <= e1 * e2 ->
      combine (q1, s1, e1) (q2, s2, e2) = Some (q1 * q2, (s1 + s2) / 2, sqrt (e1 * e2))) /\
  (forall q s e, 0 <= e -> combine (q, s, e) (q, s, e) = Some (q ^ 2, s, e)) /\
  (forall rc rs shifted,
      exists near inner,
        NearNonbondedForce.__init__ rc rs shifted = inr near /\
        Force.forces (NearNonbondedForce.base near) = [FCustomNonbonded inner] /\
        (forall p1 p2 r, pair_parameters inner p1 p2 r = combine p1 p2) /\
        forall cutoff switch method,
        exists total discount,
          FarNonbondedForce.__init__ (VNearNonbondedForce near) cutoff switch method
            = inr (Force.Build [total; FCustomNonbonded discount]) /\
          forall p1 p2 r, pair_parameters discount p1 p2 r = combine p1 p2) /\
  (forall alpha rc rs degree,
      0 <= rs < rc -> (0 <= degree)%Z ->
      exists f,
        DampedSmoothedForce.__init__ alpha rc rs degree
          = inr (Force.Build [FCustomNonbonded f]) /\
        forall p1 p2 r, pair_parameters f p1 p2 r = combine p1 p2).
Proof.
  assert (G : forall q1 s1 e1 q2 s2 e2,
      0 <= e1 * e2 ->
      combine (q1, s1, e1) (q2, s2, e2) = Some (q1 * q2, (s1 + s2) / 2, sqrt (e1 * e2))).
  { intros. rewrite combine_mixed. unfold Formula.mixed.
    destruct (Rle_dec 0 (e1 * e2)); [|contradiction]. triple. }
  split; [exact G|]. split; [|split].
  - intros q s e He. rewrite G by nra. rewrite sqrt_square by exact He. triple.
  - intros rc rs shifted. eexists _, (near_force rc rs shifted).
    split; [apply Near_init|]. split; [reflexivity|].
    split; [intros; apply Near_parameters|].
    intros cutoff switch method. eexists _, (far_discount cutoff rs rc shifted).
    split; [apply Far_init|]. intros; apply Far_parameters.
  - intros alpha rc rs degree Hrs Hd. exists (damped_force alpha rc rs degree).
    split; [now apply DampedSmoothed_init|].
    intros. now apply DampedSmoothed_parameters.
Qed.

(** C6. The constructor of [DampedSmoothedForce] raises [InputError] exactly
    when the switching distance is negative or not below the cutoff
    distance, and returns a force exactly when [0 <= rs < rc]. *)
Theorem DampedSmoothedForce_switch_check (alpha rc rs : R) (degree : Z) :
  (DampedSmoothedForce.__init__ alpha rc rs degree
     = inl (InputError "Switching distance must satisfy 0 <= r_switch < r_cutoff")
   <-> rs < 0 \/ rs >= rc) /\
  ((exists F, DampedSmoothedForce.__init__ alpha rc rs degree = inr F) <-> 0 <= rs < rc).
Proof.
  split; split.
  - intros H. destruct (Rlt_dec rs 0) as [|H0]; [now left|].
    destruct (Rge_dec rs rc) as [|H1]; [now right|].
    rewrite DampedSmoothed_init in H by lra. discriminate H.
  - apply DampedSmoothed_init_error.
  - intros [F H]. destruct (Rlt_dec rs 0) as [H0|H0].
    + rewrite DampedSmoothed_init_error in H by (now left). discriminate H.
    + destruct (Rge_dec rs rc) as [H1|H1].
      * rewrite DampedSmoothed_init_error in H by (now right). discriminate H.
      * lra.
  - intros H. eexists. apply DampedSmoothed_init. exact H.
Qed.

(** C7. The constructor of [FarNonbondedForce] returns a force when
    [preceding] is a [NearNonbondedForce] and raises [InputError] when it is
    anything else. *)
Theorem FarNonbondedForce_preceding_check
    (preceding : value) (cutoff : R) (switch : option R) (method : NonbondedMethod) :
  if isinstance_NearNonbondedForce preceding
  then exists F, FarNonbondedForce.__init__ preceding cutoff switch method = inr F
  else FarNonbondedForce.__init__ preceding cutoff switch method
       = inl (InputError "argument 'preceding' must be an internal RESPA force").
Proof.
  destruct preceding; try reflexivity.
  cbn [isinstance_NearNonbondedForce]. eexists.
  unfold FarNonbondedForce.__init__.
  cbn [isinstance_NearNonbondedForce negb attributes mbind exn_bind].
  reflexivity.
Qed.

(** C8. In a [DampedSmoothedForce] of degree 1 the energy expression sets
    [S = 1] and the switching distance is set on the toolkit force, whose
    own switching function then scales the energy; for a degree above 1
    the expression defines [S] by the polynomial in
    [u = (r^n - rs^n)/(rc^n - rs^n)], the toolkit's switching is off and
    its switching distance keeps the value -1 of a new force. *)
Theorem DampedSmoothedForce_degree_switching (alpha rc rs : R) (degree : Z) :
  0 <= rs < rc ->
  exists f,
    DampedSmoothedForce.__init__ alpha rc rs degree = inr (Force.Build [FCustomNonbonded f]) /\
    (degree = 1%Z ->
       (forall p1 p2 r, Energy.pair_variable f "S" p1 p2 r = Some 1) /\
       cnb_useSwitchingFunction f = true /\
       cnb_switchingDistance f = rs /\
       (forall r, Energy.switchValue f r = Energy.switching rs rc r)) /\
    ((1 < degree)%Z ->
       (forall p1 p2 r,
           Energy.pair_variable f "S" p1 p2 r
           = Some (Formula.S rs r ((r ^ Z.to_nat degree - rs ^ Z.to_nat degree)
                                   / (rc ^ Z.to_nat degree - rs ^ Z.to_nat degree)))) /\
       cnb_useSwitchingFunction f = false /\
       cnb_switchingDistance f = -1 /\
       (forall r, Energy.switchValue f r = 1)).
Proof.
  intros Hrs. exists (damped_force alpha rc rs degree).
  split; [apply DampedSmoothed_init; exact Hrs|]. split.
  - intros ->. split; [intros; apply DampedSmoothed_S_linear|].
    split; [reflexivity|]. split; reflexivity.
  - intros Hd. split; [intros; apply DampedSmoothed_S_degree; [lia | exact Hrs]|].
    assert (E : (degree =? 1)%Z = false) by (apply Z.eqb_neq; lia).
    split; [exact E|].
    split; [cbn [damped_force cnb_switchingDistance]; now rewrite E|].
    intros r. unfold Energy.switchValue. cbn [damped_force cnb_useSwitchingFunction].
    rewrite E, andb_false_r. reflexivity.
Qed.

(** C9. [splitPotentialEnergy] leaves every object of the caller's store as
    it was: the system, its forces and their groups, the topology and the
    positions; what it writes, it writes to the copies it has made. *)
Theorem splitPotentialEnergy_leaves_caller_state
    (forceEnergy : OpenMM.Force -> Positions -> R)
    (system topology positions : loc) (sigma : gmap loc object) :
  sigma ⊆ (splitPotentialEnergy forceEnergy system topology positions sigma).2.
Proof.
  destruct (splitPotentialEnergy forceEnergy system topology positions sigma)
    as [r sigma'] eqn:H.
  apply (splitPotentialEnergy_run forceEnergy (fun _ => True)) in H as [F _];
    [|intros l f _; exact I].
  apply map_subseteq_spec. intros l o Hl. cbn [snd].
  rewrite F; [exact Hl|]. apply elem_of_dom. eauto.
Qed.

(** C10. [countDegreesOfFreedom] returns three times the number of
    particles of positive mass, minus 3, minus the number of constraints;
    it does not raise, and the result can be zero or negative. *)
Theorem countDegreesOfFreedom_formula :
  (forall system,
      countDegreesOfFreedom system
      = inr (3 * Z.of_nat (length (filter (fun m => 0 < m)%R (sys_masses system))) - 3
             - Z.of_nat (sys_numConstraints system))%Z) /\
  (exists system, countDegreesOfFreedom system = inr 0%Z) /\
  (exists system n, countDegreesOfFreedom system = inr n /\ (n < 0)%Z).
Proof.
  pose proof DofFacts.countDegreesOfFreedom_value as F.
  split; [exact F|]. split.
  - exists (MkSystem [1] 0 []). rewrite F. cbn [sys_masses sys_numConstraints].
    rewrite filter_cons_True by lra. reflexivity.
  - exists (MkSystem [] 0 []), (-3)%Z. rewrite F. split; [reflexivity | lia].
Qed.


(** ** Counterexamples, witnesses and examples *)

(** C5 as stated fails for a particle of negative epsilon: the pair of the
    particle [(2, 1, -1)] with itself has epsilon 1. *)
Lemma self_pair_negative_epsilon :
  combine (2, 1, -1) (2, 1, -1) = Some (2 ^ 2, 1, 1) /\
  combine (2, 1, -1) (2, 1, -1) <> Some (2 ^ 2, 1, -1).
Proof.
  assert (H : combine (2, 1, -1) (2, 1, -1) = Some (2 ^ 2, 1, 1)).
  { rewrite combine_mixed. unfold Formula.mixed.
    destruct (Rle_dec 0 (-1 * -1)) as [_|H]; [|lra].
    replace (-1 * -1) with 1 by lra. rewrite sqrt_1. triple. }
  split; [exact H|]. rewrite H. intros [= E]. lra.
Qed.

(** C4 as stated fails for the general forces: with the all-zero exception
    the two particles of [Example.reference] do not interact in a
    [NearNonbondedForce]; without it they do, with the energy [Kc] at
    distance 1. *)
Lemma all_zero_exception_changes_energy :
  let inner := near_force 2 1 false in
  let dist := fun _ _ : nat => 1 in
  NearNonbondedForce.__init__ 2 1 false
    = inr (NearNonbondedForce.Build (Force.Build [FCustomNonbonded inner]) 0 1 2 false) /\
  nb_exceptions Example.reference !! 0%nat = Some (MkException 0 1 0 1 0) /\
  Kernel.custom_nonbonded_energy
    (_CustomNonbondedForce.importFrom Example.reference inner) dist
    = Some 0 /\
  Kernel.custom_nonbonded_energy
    (_CustomNonbondedForce.importFrom (without_exception 0 Example.reference) inner) dist
    = Some Kc /\
  Kc <> 0.
Proof.
  cbv zeta. split; [apply Near_init|]. split; [reflexivity|]. split; [|split].
  - rewrite CustomNonbondedForce_importFrom. unfold near_force, Example.reference.
    cbn [nb_particles nb_exceptions map app Kernel.parameters exc_i exc_j].
    unfold Kernel.custom_nonbonded_energy. cbn [cnb_particles length].
    change (Kernel.all_pairs 2) with [(0%nat, 1%nat)]. cbn [map].
    unfold Kernel.pair_contribution, Kernel.excluded.
    cbn [cnb_exclusions existsb Nat.eqb andb orb].
    cbn [Kernel.sum_option foldr mbind option_bind]. f_equal. lra.
  - rewrite CustomNonbondedForce_importFrom. unfold near_force, Example.reference.
    cbn [without_exception nb_particles nb_exceptions map app Kernel.parameters].
    unfold Kernel.custom_nonbonded_energy. cbn [cnb_particles length].
    change (Kernel.all_pairs 2) with [(0%nat, 1%nat)]. cbn [map].
    unfold Kernel.pair_contribution, Kernel.excluded.
    change (delete 0%nat [MkException 0 1 0 1 0]) with (@nil Exception).
    cbn [map app cnb_exclusions existsb cnb_particles mbind option_bind].
    change ([[1; 1; 0]; [1; 1; 0]] !! 0%nat) with (Some [1; 1; 0]).
    change ([[1; 1; 0]; [1; 1; 0]] !! 1%nat) with (Some [1; 1; 0]).
    cbn [mbind option_bind].
    rewrite (pair_energy_settings _ _ _ _ _ _ _ _ _ _ _ [] [] 0).
    fold (near_force 2 1 false). rewrite Near_pair_energy by lra.
    cbn [Kernel.sum_option foldr mbind option_bind].
    rewrite switching_below by lra.
    unfold Formula.U, Formula.LennardJones, Formula.Coulomb.
    replace (0 * 0) with 0 by lra. rewrite sqrt_0. f_equal. lra.
  - unfold Kc. lra.
Qed.

Lemma Near_Far_complement_witness :
  exists near far n f,
    NearNonbondedForce.__init__ 2 1 true = inr near /\
    FarNonbondedForce.__init__ (VNearNonbondedForce near) 3 None PME = inr far /\
    Kernel.pair_energy Example.no_native (NearNonbondedForce.base near)
      (1, 1, 1) (1, 1, 1) 1.5 = Some n /\
    Kernel.pair_energy Example.no_native far (1, 1, 1) (1, 1, 1) 1.5 = Some f /\
    n + f = 0.
Proof.
  destruct (Near_Far_complement Example.no_native 2 1 true 3 None PME 1 1 1 1 1 1 1.5 0)
    as (near & far & inner & discount & n & f & H1 & _ & H3 & _ & _ & _ & _ & H8 & H9 & H10 & _);
    [lra | lra | lra | lra | reflexivity |].
  exists near, far, n, f. auto.
Defined.

Lemma switching_multiplier_endpoints_witness :
  exists f,
    DampedSmoothedForce.__init__ 1 2 1 2 = inr (Force.Build [FCustomNonbonded f]) /\
    Energy.multiplier f [1; 1; 1] [1; 1; 1] 1 = Some 1 /\
    Energy.multiplier f [1; 1; 1] [1; 1; 1] 2 = Some 0.
Proof.
  destruct (switching_multiplier_endpoints 1 2 1 2 false 3 None PME [1; 1; 1] [1; 1; 1])
    as [(f & H1 & _ & H3 & H4) _]; [lra | lia |].
  exists f. auto.
Defined.

Lemma example_store_classes : classes (fun c => c <> "Total") Example.store.
Proof.
  intros l f H. unfold Example.store in H.
  rewrite !lookup_insert in H.
  repeat case_decide; try discriminate H.
  - injection H as <-. discriminate.
  - injection H as <-. discriminate.
Defined.

Lemma example_store_well_formed : well_formed Example.store 0%nat 3%nat 4%nat.
Proof.
  exists (MkSystem [1; 1] 0 [1%nat; 2%nat]), (MkTopology ["O"; "H"]), [(0, 0, 0); (1, 0, 0)].
  repeat split; try reflexivity.
  - repeat constructor; eexists; reflexivity.
  - cbn. lia.
Defined.


Lemma all_zero_exception_witness :
  _CustomBondForce.importFrom Example.reference _CustomBondForce.__init__
  = _CustomBondForce.importFrom (without_exception 0 Example.reference)
      _CustomBondForce.__init__ /\
  Kernel.excluded
    (_CustomNonbondedForce.importFrom Example.reference (near_force 2 1 false)) 0 1 = true.
Proof.
  destruct (all_zero_exception_contributes_nothing Example.reference 0
              (MkException 0 1 0 1 0)) as (H1 & H2 & _);
    [reflexivity | reflexivity | reflexivity |].
  split; [apply H1 | apply (H2 (near_force 2 1 false) (fun _ _ => 0))].
Defined.

Lemma LorentzBerthelot_rule_witness :
  combine (1, 2, 3) (4, 5, 6) = Some (1 * 4, (2 + 5) / 2, sqrt (3 * 6)) /\
  combine (1, 2, 3) (1, 2, 3) = Some (1 ^ 2, 2, 3).
Proof.
  destruct LorentzBerthelot_rule as (H1 & H2 & _).
  split; [apply H1 | apply H2]; lra.
Defined.

Lemma DampedSmoothedForce_degree_switching_witness :
  exists f,
    DampedSmoothedForce.__init__ 1 2 1 1 = inr (Force.Build [FCustomNonbonded f]) /\
    cnb_useSwitchingFunction f = true /\ cnb_switchingDistance f = 1.
Proof.
  destruct (DampedSmoothedForce_degree_switching 1 2 1 1) as (f & H1 & H2 & _); [lra|].
  destruct (H2 eq_refl) as (_ & H3 & H4 & _). exists f. auto.
Defined.

(** The texts the constructors build, for some arguments. *)
Example DampedSmoothedForce_energy_linear :
  DampedSmoothedForce.energy 1
  = "S*(4*epsilon*((sigma/r)^12 - (sigma/r)^6) + erfc(alpha*r)*Kc*chargeprod/r);S = 1;chargeprod = charge1*charge2;sigma = 0.5*(sigma1+sigma2);epsilon = sqrt(epsilon1*epsilon2);".
Proof. reflexivity. Qed.

Example DampedSmoothedForce_energy_quadratic :
  DampedSmoothedForce.energy 2
  = "S*(4*epsilon*((sigma/r)^12 - (sigma/r)^6) + erfc(alpha*r)*Kc*chargeprod/r);S = 1 + step(r - rswitch)*u^3*(15*u - 6*u^2 - 10);u = (r^2 - rswitch^2)/(rcut^2 - rswitch^2);chargeprod = charge1*charge2;sigma = 0.5*(sigma1+sigma2);epsilon = sqrt(epsilon1*epsilon2);".
Proof. reflexivity. Qed.

Example NearNonbondedForce_energy_shifted :
  NearNonbondedForce.energy true
  = "4*epsilon*((sigma/r)^12 - (sigma/r)^6)+Kc*chargeprod/r-(4*epsilon*((sigma/rc0)^12 - (sigma/rc0)^6)+Kc*chargeprod/rc0); chargeprod = charge1*charge2;sigma = 0.5*(sigma1+sigma2);epsilon = sqrt(epsilon1*epsilon2);".
Proof. reflexivity. Qed.

Example FarNonbondedForce_energy_unshifted :
  FarNonbondedForce.energy "rs0" "rc0" false
  = "step(rc0-r)*S*(-(4*epsilon*((sigma/r)^12 - (sigma/r)^6)+Kc*chargeprod/r));S = 1 + step(r - rs0)*u^3*(15*u - 6*u^2 - 10);u = (r - rs0)/(rc0 - rs0);chargeprod = charge1*charge2;sigma = 0.5*(sigma1+sigma2);epsilon = sqrt(epsilon1*epsilon2);".
Proof. reflexivity. Qed.

(** Two forces of one class get the labels of the class and of the class
    with the count [1]; the caller's second force keeps its group 5. *)
Example splitPotentialEnergy_labels :
  let run := splitPotentialEnergy Example.unit_energy 0%nat 3%nat 4%nat Example.store in
  (match run.1 with
   | inr energy => map fst (map_to_list energy)
   | inl _ => []
   end) = ["Total"; "HarmonicBondForce(1)"; "HarmonicBondForce"] /\
  run.2 !! 2%nat = Some (OForce (FOther "HarmonicBondForce" 5)) /\
  run.2 !! 6%nat = Some (OForce (FOther "HarmonicBondForce" 1)).
Proof. vm_compute. repeat split; reflexivity. Qed.

(** A rigid three-site molecule has three degrees of freedom. *)
Example countDegreesOfFreedom_rigid_water :
  countDegreesOfFreedom (MkSystem [15.9994; 1.008; 1.008] 3 []) = inr 3%Z.
Proof.
  rewrite DofFacts.countDegreesOfFreedom_value.
  cbn [sys_masses sys_numConstraints].
  rewrite !filter_cons_True by lra. reflexivity.
Qed.

(** * Further properties of the code *)

(** ** The group of a [Force] *)

Module GroupFacts.

Lemma setForceGroup_ok (group : Z) (f : OpenMM.Force) :
  (0 <= group <= 31)%Z ->
  exists f', OpenMM.setForceGroup group f = inr f' /\
             OpenMM.getForceGroup f' = group /\ className f' = className f.
Proof.
  intros H. unfold OpenMM.setForceGroup.
  replace ((group <? 0)%Z || (31 <? group)%Z) with false
    by (symmetry; apply orb_false_iff; split; [apply Z.ltb_ge | apply Z.ltb_ge]; lia).
  eexists. split; [reflexivity|].
  destruct f as [[]|[]|[]|]; split; reflexivity.
Qed.

Lemma setForceGroup_error (group : Z) (f : OpenMM.Force) :
  ~ (0 <= group <= 31)%Z ->
  OpenMM.setForceGroup group f = inl (OpenMMException "Force group must be between 0 and 31").
Proof.
  intros H. unfold OpenMM.setForceGroup.
  replace ((group <? 0)%Z || (31 <? group)%Z) with true; [reflexivity|].
  symmetry. apply orb_true_iff.
  destruct (Z.ltb_spec group 0); [now left|].
  destruct (Z.ltb_spec 31 group); [now right|]. lia.
Qed.

Lemma mapM_setForceGroup_ok (group : Z) (fs : list OpenMM.Force) :
  (0 <= group <= 31)%Z ->
  exists fs', mapM (OpenMM.setForceGroup group) fs = inr fs' /\
              Forall2 (fun f f' => OpenMM.setForceGroup group f = inr f') fs fs' /\
              Forall (fun f' => OpenMM.getForceGroup f' = group) fs'.
Proof.
  intros H. induction fs as [|f fs (fs' & E & A & B)].
  - exists []. repeat split; constructor.
  - destruct (setForceGroup_ok group f H) as (f' & Ef & Eg & _).
    exists (f' :: fs'). split; [|split].
    + cbn [mapM]. rewrite Ef. cbn [mbind exn_bind]. rewrite E. reflexivity.
    + now constructor.
    + now constructor.
Qed.

Lemma setForceGroup_all (self : Force.t) (group : Z) :
  (0 <= group <= 31)%Z ->
  exists self',
    Force.setForceGroup group self = inr self' /\
    Forall2 (fun f f' => OpenMM.setForceGroup group f = inr f')
            (Force.forces self) (Force.forces self') /\
    one_group group self' /\
    (Force.forces self <> [] -> Force.getForceGroup self' = inr group).
Proof.
  intros H. destruct (mapM_setForceGroup_ok group (Force.forces self) H)
    as (fs' & E & A & B).
  exists (Force.Build fs'). split; [|split; [exact A | split; [exact B|]]].
  - unfold Force.setForceGroup. rewrite E. reflexivity.
  - intros N. unfold Force.getForceGroup. cbn [Force.forces].
    destruct fs' as [|f' fs'].
    + apply Forall2_length in A. destruct (Force.forces self); [contradiction | discriminate A].
    + f_equal. now inversion B.
Qed.

End GroupFacts.

(** ** What [importFrom] makes of a force *)

Module ImportAll.

Local Open Scope R_scope.
Import ImportFacts.

Lemma NonbondedForce_importFrom_all force m c d u s ps xs g :
  _NonbondedForce.importFrom force (MkNonbondedForce m c d u s ps xs g)
  = MkNonbondedForce m c d u s (ps ++ nb_particles force)
      (xs ++ map zeroed (nb_exceptions force)) g.
Proof.
  unfold _NonbondedForce.importFrom. rewrite nb_addParticles. apply nb_addExceptions.
Qed.

Lemma bond_step_interacting self x :
  bond_step self x
  = if decide (interacting x)
    then cb_addBond (exc_i x) (exc_j x) [exc_chargeprod x; exc_sigma x; exc_epsilon x] self
    else self.
Proof.
  unfold bond_step, interacting.
  destruct (decide (exc_chargeprod x <> 0 \/ exc_epsilon x <> 0)) as [H|H].
  - destruct H as [H|H].
    + rewrite (bool_decide_eq_false_2 (exc_chargeprod x = 0.0)); [reflexivity|].
      intros E. apply H. rewrite E. lra.
    + rewrite (bool_decide_eq_false_2 (exc_epsilon x = 0.0)); [now rewrite orb_true_r|].
      intros E. apply H. rewrite E. lra.
  - rewrite !bool_decide_eq_true_2; [reflexivity| |].
    + destruct (Req_dec_T (exc_epsilon x) 0) as [->|N]; [lra | exfalso; apply H; now right].
    + destruct (Req_dec_T (exc_chargeprod x) 0) as [->|N]; [lra | exfalso; apply H; now left].
Qed.

Lemma CustomBondForce_importFrom_all force e gp bp bs g :
  _CustomBondForce.importFrom force (MkCustomBondForce e gp bp bs g)
  = MkCustomBondForce e gp bp (bs ++ map bond_of (filter interacting (nb_exceptions force))) g.
Proof.
  unfold _CustomBondForce.importFrom.
  change (fold_left bond_step (nb_exceptions force) (MkCustomBondForce e gp bp bs g)
          = MkCustomBondForce e gp bp
              (bs ++ map bond_of (filter interacting (nb_exceptions force))) g).
  generalize (nb_exceptions force) as xs. intros xs. revert bs.
  induction xs as [|x xs IH]; intros bs.
  - cbn. now rewrite app_nil_r.
  - cbn [fold_left]. rewrite bond_step_interacting.
    destruct (decide (interacting x)) as [H|H].
    + rewrite filter_cons_True by exact H. cbn [cb_addBond map].
      rewrite IH, <- app_assoc. reflexivity.
    + rewrite filter_cons_False by exact H. apply IH.
Qed.

Lemma importFrom_one_group force f f' :
  Force.importFrom_one force f = inr f' ->
  OpenMM.getForceGroup f' = OpenMM.getForceGroup f /\ className f' = className f.
Proof.
  destruct f as [[]|[]|[]|]; cbn [Force.importFrom_one]; intros [= <-].
  - rewrite NonbondedForce_importFrom_all. split; reflexivity.
  - rewrite CustomNonbondedForce_importFrom. split; reflexivity.
  - rewrite CustomBondForce_importFrom_all. split; reflexivity.
Qed.

Lemma mapM_importFrom_one force fs fs' :
  mapM (Force.importFrom_one force) fs = inr fs' ->
  Forall2 (fun f f' => Force.importFrom_one force f = inr f') fs fs'.
Proof.
  revert fs'. induction fs as [|f fs IH]; intros fs'.
  - cbn. intros [= <-]. constructor.
  - cbn [mapM]. destruct (Force.importFrom_one force f) as [e|f1] eqn:E; [discriminate|].
    cbn [mbind exn_bind].
    destruct (mapM (Force.importFrom_one force) fs) as [e|fs1] eqn:E1; [discriminate|].
    cbn. intros [= <-]. constructor; [exact E | now apply IH].
Qed.

End ImportAll.

(** ** The energy of the bonds of the exceptions *)

Module BondFacts.

Local Open Scope R_scope.
Import Expr EvalFacts.

Lemma bond_energy_potential (f : CustomBondForce) (cp s e r : R) :
  cb_energy f = cb_energy _CustomBondForce.__init__ ->
  cb_globalParameters f = [("Kc", Kc)] ->
  cb_perBondParameters f = ["chargeprod"; "sigma"; "epsilon"] ->
  r <> 0 ->
  Energy.bond_energy f [cp; s; e] r = Some (Formula.U cp s e r).
Proof.
  intros E G P Hr. unfold Energy.bond_energy, Energy.bond_env.
  rewrite E, G, P, ParseFacts.parse_Bond. cbn [mbind option_bind].
  unfold eval_program, Tree.Bond. cbn [main defs eval_defs].
  apply eval_potential; try reflexivity. exact Hr.
Qed.

Lemma exception_energy_U (x : Exception) (r : R) :
  Kernel.exception_energy x r = Formula.U (exc_chargeprod x) (exc_sigma x) (exc_epsilon x) r.
Proof. reflexivity. Qed.

Lemma exception_energy_exclusion (x : Exception) (r : R) :
  ~ interacting x -> Kernel.exception_energy x r = 0.
Proof.
  intros H. unfold interacting in H. unfold Kernel.exception_energy.
  destruct (Req_dec_T (exc_chargeprod x) 0) as [->|N]; [|exfalso; apply H; now left].
  destruct (Req_dec_T (exc_epsilon x) 0) as [->|N]; [|exfalso; apply H; now right].
  unfold Rdiv. ring.
Qed.

Lemma bonds_energy (f : CustomBondForce) (dist : nat -> nat -> R) (xs : list Exception) :
  cb_energy f = cb_energy _CustomBondForce.__init__ ->
  cb_globalParameters f = [("Kc", Kc)] ->
  cb_perBondParameters f = ["chargeprod"; "sigma"; "epsilon"] ->
  Forall (fun x => dist (exc_i x) (exc_j x) <> 0) xs ->
  Kernel.sum_option
    (map (fun '(i, j, params) => Energy.bond_energy f params (dist i j))
         (map bond_of (filter interacting xs)))
  = Some (sum_R (map (fun x => Kernel.exception_energy x (dist (exc_i x) (exc_j x))) xs)).
Proof.
  intros E G P. induction 1 as [|x xs Hx Hxs IH]; [reflexivity|].
  cbn [map sum_R foldr]. fold (sum_R (map (fun x => Kernel.exception_energy x
                                             (dist (exc_i x) (exc_j x))) xs)).
  destruct (decide (interacting x)) as [H|H].
  - rewrite filter_cons_True by exact H.
    cbn [map bond_of Kernel.sum_option foldr].
    rewrite (bond_energy_potential f _ _ _ _ E G P Hx).
    fold (Kernel.sum_option
            (map (fun '(i, j, params) => Energy.bond_energy f params (dist i j))
                 (map bond_of (filter interacting xs)))).
    rewrite IH. cbn [mbind option_bind]. rewrite exception_energy_U. reflexivity.
  - rewrite filter_cons_False by exact H. rewrite IH.
    rewrite (exception_energy_exclusion x _ H). f_equal. lra.
Qed.

End BondFacts.

(** ** The texts of [LennardJones] and [Coulomb] with any variable name *)

Module TemplateFacts.

Import Expr ExprFacts.

Lemma ident_char_word (c : ascii) : is_digit c || is_alpha c = true -> is_word c = true.
Proof. intros H. unfold is_word. now rewrite H. Qed.

Lemma lex_state_ident (s : string) (w : list ascii) (acc : list token) :
  is_ident s = true ->
  lex_state s w acc = Some (rev (list_ascii_of_string s) ++ w, acc).
Proof.
  revert w. induction s as [|c s IH]; intros w H; simpl; [reflexivity|].
  unfold is_ident in H. simpl in H. apply andb_prop in H as [Hc Hs].
  rewrite (ident_char_word c Hc). rewrite IH by exact Hs.
  now rewrite <- app_assoc.
Qed.

Lemma alpha_not_dot (c : ascii) : is_digit c || is_alpha c = true -> is_dot c = false.
Proof.
  destruct c as [[] [] [] [] [] [] [] []]; try reflexivity; intros H; discriminate H.
Qed.

Lemma token_of_name (r : string) : is_name r = true -> token_of_word r = Some (TId r).
Proof.
  destruct r as [|c r]; [discriminate|]. unfold is_name.
  intros H. apply andb_prop in H as [Hd Hi]. apply negb_true_iff in Hd.
  unfold token_of_word. rewrite Hd, Hi.
  assert (Hc : is_digit c || is_alpha c = true).
  { unfold is_ident in Hi. simpl in Hi. now apply andb_prop in Hi as [? _]. }
  rewrite (alpha_not_dot c Hc). reflexivity.
Qed.

Lemma name_ident (r : string) : is_name r = true -> is_ident r = true.
Proof. destruct r; [discriminate|]. unfold is_name. intros H. now apply andb_prop in H. Qed.

Lemma lex_state_name (r : string) (acc : list token) :
  is_name r = true ->
  lex_state r [] acc = Some (rev (list_ascii_of_string r), acc).
Proof.
  intros H. rewrite lex_state_ident by (apply name_ident; exact H). now rewrite app_nil_r.
Qed.

Lemma flush_name (r : string) (acc : list token) :
  is_name r = true ->
  flush (rev (list_ascii_of_string r)) acc = Some (TId r :: acc).
Proof.
  intros H. unfold flush.
  destruct (rev (list_ascii_of_string r)) as [|x l] eqn:E.
  - apply (f_equal (@rev ascii)) in E. rewrite rev_involutive in E. simpl in E.
    destruct r; [discriminate H | discriminate E].
  - rewrite <- E, rev_involutive, string_of_list_ascii_of_string, token_of_name by exact H.
    reflexivity.
Qed.

Lemma lex_state_after_name (r : string) (c : ascii) (rest : string) (acc : list token) :
  is_name r = true -> is_word c = false ->
  lex_state (String c rest) (rev (list_ascii_of_string r)) acc
  = lex_state (String c rest) [] (TId r :: acc).
Proof. intros H Hc. simpl. rewrite Hc, flush_name by exact H. reflexivity. Qed.

(** Lexing a text with a variable name in it, piece by piece. *)
Ltac lex_name_piece H :=
  rewrite lex_state_app;
  first
    [ rewrite (lex_state_name _ _ H)
    | rewrite (lex_state_after_name _ _ _ _ H) by reflexivity;
      match goal with
      | |- context [lex_state ?s ?w ?acc ≫= _] =>
          let v := eval vm_compute in (lex_state s w acc) in
          replace (lex_state s w acc) with v by (vm_compute; reflexivity)
      end
    | match goal with
      | |- context [lex_state ?s ?w ?acc ≫= _] =>
          let v := eval vm_compute in (lex_state s w acc) in
          replace (lex_state s w acc) with v by (vm_compute; reflexivity)
      end ];
  cbn [mbind option_bind fst snd].

Lemma parse_LennardJones (r : string) :
  is_name r = true ->
  parse (LennardJones r) = Some (Program (Tree.LennardJones r) []).
Proof.
  intros H. unfold LennardJones, parse, lex.
  repeat (lex_name_piece H).
  rewrite (lex_state_after_name _ _ _ _ H) by reflexivity.
  vm_compute. reflexivity.
Qed.

Lemma parse_Coulomb (r : string) :
  is_name r = true ->
  parse (Coulomb r) = Some (Program (Tree.Coulomb r) []).
Proof.
  intros H. unfold Coulomb, parse, lex.
  repeat (lex_name_piece H).
  rewrite (lex_state_name _ _ H). cbn [mbind option_bind].
  rewrite (flush_name _ _ H).
  vm_compute. reflexivity.
Qed.

Lemma parse_potential (r : string) :
  is_name r = true ->
  parse (LennardJones r +:+ "+" +:+ Coulomb r) = Some (Program (Tree.potential r) []).
Proof.
  intros H. unfold LennardJones, Coulomb, parse, lex.
  rewrite !append_assoc.
  repeat (lex_name_piece H).
  rewrite (lex_state_name _ _ H). cbn [mbind option_bind].
  rewrite (flush_name _ _ H).
  vm_compute. reflexivity.
Qed.

End TemplateFacts.

(** ** Finding, removing and adding the forces of a system *)

Module SystemFacts.

Import StoreFacts SplitSuccess.

Lemma lift_run {A : Type} (r : exn + A) sigma : lift r sigma = (r, sigma).
Proof. reflexivity. Qed.

Lemma getForce_ok (s : System) (i : nat) (l : loc) :
  sys_forces s !! i = Some l -> getForce s (Z.of_nat i) = inr l.
Proof.
  intros H. unfold getForce, getNumForces.
  assert (i < length (sys_forces s))%nat by (eapply lookup_lt_Some; exact H).
  replace ((Z.of_nat i <? 0)%Z || (Z.of_nat (length (sys_forces s)) <=? Z.of_nat i)%Z)
    with false
    by (symmetry; apply orb_false_iff; split; [apply Z.ltb_ge | apply Z.leb_gt]; lia).
  rewrite Nat2Z.id, H. reflexivity.
Qed.

Lemma getForce_inr (s : System) (index : Z) (l : loc) :
  getForce s index = inr l ->
  (0 <= index < Z.of_nat (getNumForces s))%Z /\ sys_forces s !! Z.to_nat index = Some l.
Proof.
  unfold getForce.
  destruct (Z.ltb_spec index 0); [discriminate|].
  destruct (Z.leb_spec (Z.of_nat (getNumForces s)) index); [discriminate|].
  cbn [orb]. destruct (sys_forces s !! Z.to_nat index) as [l'|]; [|discriminate].
  intros [= <-]. split; [lia | reflexivity].
Qed.

Lemma getForce_out_of_range (s : System) (index : Z) :
  (index < 0 \/ Z.of_nat (getNumForces s) <= index)%Z ->
  getForce s index = inl (OpenMMException "Assertion failure: index out of range").
Proof.
  intros H. unfold getForce.
  destruct (Z.ltb_spec index 0); [reflexivity|].
  destruct (Z.leb_spec (Z.of_nat (getNumForces s)) index); [reflexivity|]. lia.
Qed.

(** Reading the forces of a system one by one. *)
Lemma read_forces_from sigma (s : System) (n : nat) (ls : list loc) (fs : list OpenMM.Force) :
  drop n (sys_forces s) = ls ->
  Forall2 (fun l f => sigma !! l = Some (OForce f)) ls fs ->
  mapM (fun i => l ← lift (getForce s i); read_force l)
       (map Z.of_nat (seq n (length ls))) sigma
  = (inr fs, sigma).
Proof.
  intros D F. revert n D. induction F as [|l f ls fs Hl _ IH]; intros n D; [reflexivity|].
  cbn [length seq map mapM].
  assert (Hn : sys_forces s !! n = Some l).
  { rewrite <- (Nat.add_0_r n), <- lookup_drop, D. reflexivity. }
  erewrite bind_ok; cycle 1.
  { erewrite bind_ok by (rewrite (getForce_ok s n l Hn); apply lift_run).
    apply read_force_ok. exact Hl. }
  erewrite bind_ok; cycle 1.
  { apply IH. replace (S n) with (n + 1)%nat by lia. rewrite <- drop_drop, D. reflexivity. }
  reflexivity.
Qed.

Lemma read_forces_ok sigma system s fs :
  system_at sigma system s fs ->
  mapM (fun i => l ← lift (getForce s i); read_force l)
       (map Z.of_nat (seq 0 (getNumForces s))) sigma
  = (inr fs, sigma).
Proof. intros [_ F]. now apply read_forces_from. Qed.

Lemma read_forces_run (s : System) (ixs : list Z) sigma r sigma' :
  mapM (fun i => l ← lift (getForce s i); read_force l) ixs sigma = (r, sigma') ->
  sigma' = sigma.
Proof.
  revert r sigma'. induction ixs as [|i ixs IH]; intros r sigma'.
  - cbn. now intros [= _ <-].
  - cbn [mapM]. intros H.
    apply bind_run in H as [(e & H & _)|(f & sigma1 & H & K)].
    + apply bind_run in H as [(e' & H & _)|(l & sigma2 & H & H')].
      * now injection H as _ <-.
      * injection H as _ <-. apply read_force_run in H' as [-> _]. reflexivity.
    + assert (sigma1 = sigma) as ->.
      { apply bind_run in H as [(e' & H & _)|(l & sigma2 & H & H')].
        - now injection H as _ <-.
        - injection H as _ <-. apply read_force_run in H' as [-> _]. reflexivity. }
      apply bind_run in K as [(e & K & _)|(fs & sigma2 & K & K')].
      * now apply IH in K.
      * apply IH in K as ->. now injection K' as _ <-.
Qed.

Lemma findNonbondedForce_run system position sigma r sigma' :
  findNonbondedForce system position sigma = (r, sigma') -> sigma' = sigma.
Proof.
  unfold findNonbondedForce. intros H.
  apply bind_run in H as [(e & H & _)|(s & sigma1 & H & K)].
  - now apply read_system_run in H as [-> _].
  - apply read_system_run in H as [-> _].
    apply bind_run in K as [(e & K & _)|(fs & sigma2 & K & K')].
    + now apply read_forces_run in K.
    + apply read_forces_run in K as ->. now injection K' as _ <-.
Qed.

Lemma findNonbondedForce_ok sigma system s fs position :
  system_at sigma system s fs ->
  findNonbondedForce system position sigma
  = (list_item (nonbonded_indices fs) position, sigma).
Proof.
  intros H. unfold findNonbondedForce.
  erewrite bind_ok by (apply read_system_ok, H).
  erewrite bind_ok by (eapply read_forces_ok, H).
  reflexivity.
Qed.

End SystemFacts.

Module FindFacts.

Lemma nonbonded_indices_from_cons (n : nat) (f : OpenMM.Force) (fs : list OpenMM.Force) :
  nonbonded_indices_from n (f :: fs)
  = if isinstance_NonbondedForce f
    then Z.of_nat n :: nonbonded_indices_from (S n) fs
    else nonbonded_indices_from (S n) fs.
Proof.
  unfold nonbonded_indices_from. cbn [length seq map zip zip_with].
  destruct (isinstance_NonbondedForce f) eqn:E.
  - rewrite filter_cons_True by (cbn [snd]; rewrite E; exact I). reflexivity.
  - rewrite filter_cons_False by (cbn [snd]; rewrite E; exact (fun H => H)). reflexivity.
Qed.

Lemma numNonbonded_cons (f : OpenMM.Force) (fs : list OpenMM.Force) :
  numNonbonded (f :: fs)
  = ((if isinstance_NonbondedForce f then 1 else 0) + numNonbonded fs)%nat.
Proof.
  unfold numNonbonded. destruct (isinstance_NonbondedForce f) eqn:E.
  - rewrite filter_cons_True by (rewrite E; exact I). reflexivity.
  - rewrite filter_cons_False by (rewrite E; exact (fun H => H)). reflexivity.
Qed.

Lemma numNonbonded_app (fs1 fs2 : list OpenMM.Force) :
  numNonbonded (fs1 ++ fs2) = (numNonbonded fs1 + numNonbonded fs2)%nat.
Proof. unfold numNonbonded. rewrite filter_app. apply length_app. Qed.

Lemma length_nonbonded_indices_from (n : nat) (fs : list OpenMM.Force) :
  length (nonbonded_indices_from n fs) = numNonbonded fs.
Proof.
  revert n. induction fs as [|f fs IH]; intros n; [reflexivity|].
  rewrite nonbonded_indices_from_cons, numNonbonded_cons.
  destruct (isinstance_NonbondedForce f); cbn [length]; rewrite IH; reflexivity.
Qed.

(** The [k]-th entry of the list is the index of the force of the class
    that has [k] forces of the class before it. *)
Lemma nonbonded_indices_from_lookup (n : nat) (fs : list OpenMM.Force) (k : nat) (i : Z) :
  nonbonded_indices_from n fs !! k = Some i
  <-> exists j f, i = Z.of_nat (n + j) /\ fs !! j = Some f /\
                  isinstance_NonbondedForce f = true /\ numNonbonded (take j fs) = k.
Proof.
  revert n k. induction fs as [|f fs IH]; intros n k.
  - split; [discriminate|]. intros (j & f & _ & H & _). discriminate H.
  - rewrite nonbonded_indices_from_cons.
    destruct (isinstance_NonbondedForce f) eqn:E.
    + destruct k as [|k].
      * split.
        -- intros [= <-]. exists 0%nat, f. rewrite Nat.add_0_r. repeat split; assumption.
        -- intros (j & f' & -> & Hj & _ & Hc). destruct j as [|j].
           ++ now rewrite Nat.add_0_r.
           ++ cbn [take] in Hc. rewrite numNonbonded_cons, E in Hc. discriminate Hc.
      * change ((Z.of_nat n :: nonbonded_indices_from (S n) fs) !! S k)
          with (nonbonded_indices_from (S n) fs !! k).
        rewrite IH. split.
        -- intros (j & f' & -> & Hj & Hf & Hc). exists (S j), f'.
           split; [f_equal; lia|]. split; [exact Hj|]. split; [exact Hf|].
           cbn [take]. rewrite numNonbonded_cons, E, Hc. reflexivity.
        -- intros (j & f' & -> & Hj & Hf & Hc). destruct j as [|j]; [discriminate Hc|].
           exists j, f'. split; [f_equal; lia|]. split; [exact Hj|]. split; [exact Hf|].
           cbn [take] in Hc. rewrite numNonbonded_cons, E in Hc. now injection Hc.
    + rewrite IH. split.
      * intros (j & f' & -> & Hj & Hf & Hc). exists (S j), f'.
        split; [f_equal; lia|]. split; [exact Hj|]. split; [exact Hf|].
        cbn [take]. rewrite numNonbonded_cons, E. exact Hc.
      * intros (j & f' & -> & Hj & Hf & Hc). destruct j as [|j].
        -- injection Hj as <-. rewrite E in Hf. discriminate Hf.
        -- exists j, f'. split; [f_equal; lia|]. split; [exact Hj|]. split; [exact Hf|].
           cbn [take] in Hc. rewrite numNonbonded_cons, E in Hc. exact Hc.
Qed.

Lemma nonbonded_indices_lookup (fs : list OpenMM.Force) (k : nat) (i : Z) :
  nonbonded_indices fs !! k = Some i
  <-> exists j f, i = Z.of_nat j /\ fs !! j = Some f /\
                  isinstance_NonbondedForce f = true /\ numNonbonded (take j fs) = k.
Proof. apply (nonbonded_indices_from_lookup 0). Qed.

Lemma length_nonbonded_indices (fs : list OpenMM.Force) :
  length (nonbonded_indices fs) = numNonbonded fs.
Proof. apply (length_nonbonded_indices_from 0). Qed.

Lemma list_item_inr {A : Type} (l : list A) (position : Z) (a : A) :
  (0 <= position)%Z ->
  list_item l position = inr a <-> l !! Z.to_nat position = Some a.
Proof.
  intros H. unfold list_item.
  replace (position <? 0)%Z with false by (symmetry; apply Z.ltb_ge; exact H).
  cbv zeta. replace (position <? 0)%Z with false by (symmetry; apply Z.ltb_ge; exact H).
  cbn [orb]. destruct (Z.leb_spec (Z.of_nat (length l)) position) as [G|G].
  - split; [discriminate|]. intros E. apply lookup_lt_Some in E. lia.
  - destruct (l !! Z.to_nat position) as [b|]; split; intros [= <-]; reflexivity.
Qed.

Lemma list_item_IndexError {A : Type} (l : list A) (position : Z) :
  list_item l position = inl (IndexError "list index out of range")
  <-> (position < - Z.of_nat (length l) \/ Z.of_nat (length l) <= position)%Z.
Proof.
  unfold list_item. cbv zeta.
  destruct (Z.ltb_spec position 0) as [N|N].
  - destruct (Z.ltb_spec (position + Z.of_nat (length l)) 0) as [G|G].
    + cbn [orb]. split; [intros _; left; lia | reflexivity].
    + destruct (Z.leb_spec (Z.of_nat (length l)) (position + Z.of_nat (length l))); [lia|].
      cbn [orb].
      destruct (l !! Z.to_nat (position + Z.of_nat (length l))) as [a|] eqn:E.
      * split; [discriminate | lia].
      * apply lookup_ge_None in E. lia.
  - destruct (Z.ltb_spec position 0); [lia|]. cbn [orb].
    destruct (Z.leb_spec (Z.of_nat (length l)) position) as [G|G].
    + split; [intros _; right; lia | reflexivity].
    + destruct (l !! Z.to_nat position) as [a|] eqn:E.
      * split; [discriminate | lia].
      * apply lookup_ge_None in E. lia.
Qed.

Lemma list_item_negative {A : Type} (l : list A) (position : Z) :
  (- Z.of_nat (length l) <= position < 0)%Z ->
  list_item l position = list_item l (position + Z.of_nat (length l)).
Proof.
  intros H. unfold list_item. cbv zeta.
  destruct (Z.ltb_spec position 0); [|lia].
  destruct (Z.ltb_spec (position + Z.of_nat (length l)) 0); [lia|].
  cbv iota. destruct (Z.ltb_spec (position + Z.of_nat (length l)) 0); [lia|].
  reflexivity.
Qed.

End FindFacts.

Module HijackFacts.

Import StoreFacts SplitSuccess SystemFacts.

Lemma fresh_ne (sigma : gmap loc object) (l : loc) (o : object) :
  sigma !! l = Some o -> fresh (dom sigma) <> l.
Proof.
  intros H E. apply (is_fresh (dom sigma)). rewrite E. apply elem_of_dom. eauto.
Qed.

Lemma hijackForce_ok sigma system s (i : nat) l f :
  sigma !! system = Some (OSystem s) ->
  sys_forces s !! i = Some l ->
  sigma !! l = Some (OForce f) ->
  hijackForce system (Z.of_nat i) sigma
  = (inr (fresh (dom sigma)),
     delete l
       (<[system := OSystem (MkSystem (sys_masses s) (sys_numConstraints s)
                               (delete i (sys_forces s)))]>
          (<[fresh (dom sigma) := OForce f]> sigma))).
Proof.
  intros Hs Hl Hf. unfold hijackForce.
  erewrite bind_ok by (apply read_system_ok, Hs).
  erewrite bind_ok by (rewrite (getForce_ok s i l Hl); apply lift_run).
  erewrite bind_ok; cycle 1.
  { unfold deepcopy_force. erewrite bind_ok by (apply read_force_ok, Hf). reflexivity. }
  erewrite bind_ok; cycle 1.
  { unfold removeForce. erewrite bind_ok; cycle 1.
    { apply read_system_ok. rewrite lookup_insert_ne; [exact Hs|].
      eapply fresh_ne. exact Hs. }
    erewrite bind_ok by (rewrite (getForce_ok s i l Hl); apply lift_run).
    erewrite bind_ok by reflexivity.
    unfold dispose. rewrite Nat2Z.id. reflexivity. }
  reflexivity.
Qed.

(** A force of a system without the [i]-th is not the [i]-th. *)
Lemma NoDup_delete_lookup (ls : list loc) (i j : nat) (l l0 : loc) :
  NoDup ls -> ls !! i = Some l -> delete i ls !! j = Some l0 -> l0 <> l.
Proof.
  intros N Hi Hj ->. destruct (decide (j < i)%nat) as [Lt|Ge].
  - rewrite list_lookup_delete_lt in Hj by exact Lt.
    assert (i = j) by (eapply NoDup_lookup; eassumption). lia.
  - rewrite list_lookup_delete_ge in Hj by lia.
    assert (i = S j) by (eapply NoDup_lookup; eassumption). lia.
Qed.

Lemma numNonbonded_delete (fs : list OpenMM.Force) (i : nat) (f : OpenMM.Force) :
  fs !! i = Some f ->
  numNonbonded fs
  = ((if isinstance_NonbondedForce f then 1 else 0) + numNonbonded (delete i fs))%nat.
Proof.
  intros H. rewrite delete_take_drop.
  rewrite <- (take_drop_middle fs i f H) at 1.
  rewrite !FindFacts.numNonbonded_app, FindFacts.numNonbonded_cons. lia.
Qed.

Lemma addForce_ok sigma system s f :
  sigma !! system = Some (OSystem s) ->
  addForce system f sigma
  = (inr (Z.of_nat (getNumForces s)),
     <[system := OSystem (MkSystem (sys_masses s) (sys_numConstraints s)
                            (sys_forces s ++ [fresh (dom sigma)]))]>
       (<[fresh (dom sigma) := OForce f]> sigma)).
Proof.
  intros Hs. unfold addForce.
  erewrite bind_ok by (apply read_system_ok, Hs).
  erewrite bind_ok by reflexivity.
  erewrite bind_ok by reflexivity.
  reflexivity.
Qed.

Lemma addForces_ok system (fs : list OpenMM.Force) sigma s :
  sigma !! system = Some (OSystem s) ->
  exists ls sigma',
    mapM (addForce system) fs sigma
    = (inr (map Z.of_nat (seq (getNumForces s) (length fs))), sigma') /\
    sigma' !! system
    = Some (OSystem (MkSystem (sys_masses s) (sys_numConstraints s) (sys_forces s ++ ls))) /\
    Forall2 (fun l f => sigma' !! l = Some (OForce f)) ls fs /\
    Forall (fun l => l ∉ dom sigma) ls /\
    NoDup ls /\
    (forall k, k ∈ dom sigma -> k <> system -> sigma' !! k = sigma !! k).
Proof.
  revert sigma s. induction fs as [|f fs IH]; intros sigma s Hs.
  - exists [], sigma. rewrite app_nil_r. destruct s.
    repeat split; try constructor. exact Hs.
  - set (l0 := fresh (dom sigma)).
    set (s1 := MkSystem (sys_masses s) (sys_numConstraints s) (sys_forces s ++ [l0])).
    set (sigma1 := <[system := OSystem s1]> (<[l0 := OForce f]> sigma)).
    assert (Hl0 : l0 <> system) by (eapply fresh_ne; exact Hs).
    assert (Hs1 : sigma1 !! system = Some (OSystem s1)) by apply lookup_insert_eq.
    destruct (IH sigma1 s1 Hs1) as (ls & sigma' & E & Esys & F & D & N & Fr).
    assert (Hdom : forall k, k ∈ dom sigma -> k ∈ dom sigma1).
    { intros k Hk. unfold sigma1. rewrite !dom_insert. set_solver. }
    assert (Hin : l0 ∈ dom sigma1).
    { unfold sigma1. rewrite !dom_insert. set_solver. }
    exists (l0 :: ls), sigma'. split; [|split; [|split; [|split; [|split]]]].
    + cbn [mapM length seq map].
      erewrite bind_ok by (apply addForce_ok; exact Hs).
      fold l0 s1 sigma1. erewrite bind_ok; cycle 1.
      { rewrite E. unfold getNumForces, s1. cbn [sys_forces].
        rewrite length_app, Nat.add_1_r. reflexivity. }
      reflexivity.
    + rewrite Esys. unfold s1. cbn [sys_masses sys_numConstraints sys_forces].
      rewrite <- app_assoc. reflexivity.
    + constructor; [|exact F].
      rewrite Fr by assumption. unfold sigma1.
      rewrite lookup_insert_ne by (intros E'; now apply Hl0).
      apply lookup_insert_eq.
    + constructor; [apply is_fresh|].
      eapply Forall_impl; [exact D|]. intros k Hk Hk'. apply Hk, Hdom, Hk'.
    + constructor; [|exact N]. intros Hl. rewrite Forall_forall in D.
      exact (D l0 Hl Hin).
    + intros k Hk Hne. rewrite Fr by (try apply Hdom; assumption).
      unfold sigma1. rewrite lookup_insert_ne by (intros E'; now apply Hne).
      rewrite lookup_insert_ne; [reflexivity|].
      intros E'. apply (is_fresh (dom sigma)). fold l0. now rewrite E'.
Qed.

End HijackFacts.

Module HijackProps.

Import StoreFacts SplitSuccess SystemFacts HijackFacts.

Lemma system_at_force_ne sigma system s fs l f :
  system_at sigma system s fs -> sigma !! l = Some (OForce f) -> l <> system.
Proof. intros [Hs _] Hl ->. rewrite Hs in Hl. discriminate Hl. Qed.

Lemma hijackForce_props sigma system s fs (i : nat) f :
  system_at sigma system s fs -> fs !! i = Some f ->
  exists l l' sigma',
    sys_forces s !! i = Some l /\
    hijackForce system (Z.of_nat i) sigma = (inr l', sigma') /\
    sigma !! l' = None /\
    sigma' !! l' = Some (OForce f) /\
    sigma' !! l = None /\
    sigma' !! system
    = Some (OSystem (MkSystem (sys_masses s) (sys_numConstraints s)
                       (delete i (sys_forces s)))) /\
    (forall k, k <> system -> k <> l -> k <> l' -> sigma' !! k = sigma !! k) /\
    (NoDup (sys_forces s) ->
     system_at sigma' system
       (MkSystem (sys_masses s) (sys_numConstraints s) (delete i (sys_forces s)))
       (delete i fs)).
Proof.
  intros A Hf. pose proof A as [Hs F].
  destruct (Forall2_lookup_r _ _ _ _ _ F Hf) as (l & Hl & Hlf).
  set (l' := fresh (dom sigma)).
  assert (Nl : l <> system) by (eapply system_at_force_ne; eassumption).
  assert (Nl' : l' <> l) by (eapply fresh_ne; exact Hlf).
  assert (Ns' : l' <> system) by (eapply fresh_ne; exact Hs).
  assert (Fresh : sigma !! l' = None) by (apply not_elem_of_dom, is_fresh).
  eexists l, l', _. split; [exact Hl|].
  split; [apply hijackForce_ok; eassumption|]. fold l'.
  split; [exact Fresh|].
  split.
  { rewrite lookup_delete_ne by (intros E; now apply Nl').
    rewrite lookup_insert_ne by (intros E; now apply Ns').
    apply lookup_insert_eq. }
  split; [apply lookup_delete_eq|].
  split.
  { rewrite lookup_delete_ne by exact Nl. apply lookup_insert_eq. }
  assert (Fr : forall k, k <> system -> k <> l -> k <> l' ->
    delete l (<[system := OSystem (MkSystem (sys_masses s) (sys_numConstraints s)
                                      (delete i (sys_forces s)))]>
                (<[l' := OForce f]> sigma)) !! k = sigma !! k).
  { intros k K1 K2 K3.
    rewrite lookup_delete_ne by (intros E; now apply K2).
    rewrite lookup_insert_ne by (intros E; now apply K1).
    apply lookup_insert_ne. intros E; now apply K3. }
  split; [exact Fr|].
  intros N. split.
  { rewrite lookup_delete_ne by exact Nl. apply lookup_insert_eq. }
  cbn [sys_forces].
  pose proof (Forall2_delete _ _ _ i F) as F'.
  apply Forall2_same_length_lookup in F' as [Len F'].
  apply Forall2_same_length_lookup. split; [exact Len|].
  intros j x y Hx Hy. specialize (F' j x y Hx Hy).
  rewrite Fr; [exact F'| | |].
  - eapply system_at_force_ne; eassumption.
  - eapply NoDup_delete_lookup; eassumption.
  - intros ->. rewrite Fresh in F'. discriminate F'.
Qed.

Lemma list_item_lookup {A : Type} (l : list A) (position : Z) (a : A) :
  list_item l position = inr a -> exists k, l !! k = Some a.
Proof.
  unfold list_item. cbv zeta. destruct (_ || _); [discriminate|].
  destruct (l !! _) as [b|] eqn:E; [|discriminate]. intros [= <-]. eauto.
Qed.

Lemma isinstance_NonbondedForce_true (f : OpenMM.Force) :
  isinstance_NonbondedForce f = true -> exists nb, f = FNonbonded nb.
Proof. destruct f; try discriminate. eauto. Qed.

End HijackProps.

(** ** [splitPotentialEnergy] at its bounds *)

Module SplitBounds.

Import StoreFacts SplitFacts SplitSuccess.

Lemma bind_raise {A B : Type} (m : M A) (k : A -> M B) sigma e sigma1 :
  m sigma = (inl e, sigma1) -> (m ≫= k) sigma = (inl e, sigma1).
Proof. intros H. unfold mbind, M_bind. now rewrite H. Qed.

Lemma setForceGroup_at_illegal l group sigma :
  is_force sigma l -> ~ (0 <= group <= 31)%Z ->
  setForceGroup_at l group sigma
  = (inl (OpenMMException "Force group must be between 0 and 31"), sigma).
Proof.
  intros [f Hf] Hg. unfold setForceGroup_at.
  erewrite bind_ok by (apply read_force_ok; exact Hf).
  rewrite (GroupFacts.setForceGroup_error group f Hg). reflexivity.
Qed.

(** Tagging more forces than there are groups stops at the group 32. *)
Lemma tag_forces_overflow (ls : list loc) (n : nat) sigma :
  Forall (is_force sigma) ls -> (n <= 32)%nat -> (32 < n + length ls)%nat ->
  exists sigma',
    mapM (fun '(index, force) => setForceGroup_at force index)
         (zip (map Z.of_nat (seq n (length ls))) ls) sigma
    = (inl (OpenMMException "Force group must be between 0 and 31"), sigma').
Proof.
  revert n sigma. induction ls as [|l ls IH]; intros n sigma H Hn Hlen.
  - cbn in Hlen. lia.
  - apply Forall_cons in H as [Hl H]. cbn [length seq map zip zip_with mapM].
    destruct (decide (n = 32%nat)) as [->|Hne].
    + exists sigma. apply bind_raise. apply setForceGroup_at_illegal; [exact Hl | lia].
    + destruct (setForceGroup_at_ok l (Z.of_nat n) sigma Hl ltac:(lia)) as (s1 & E1 & S1).
      destruct (IH (S n) s1) as [sigma' E].
      { eapply Forall_impl; [exact H|]. intros x. now apply same_shape_force. }
      { lia. }
      { cbn [length] in Hlen. lia. }
      exists sigma'. erewrite bind_ok by exact E1. apply bind_raise. exact E.
Qed.

Section Bounds.

Variable forceEnergy : OpenMM.Force -> Positions -> R.

Lemma splitPotentialEnergy_subseteq system topology positions sigma r sigma' :
  splitPotentialEnergy forceEnergy system topology positions sigma = (r, sigma') ->
  sigma ⊆ sigma'.
Proof.
  intros H.
  apply (splitPotentialEnergy_run forceEnergy (fun _ => True)) in H as [F _];
    [|intros l f _; exact I].
  apply map_subseteq_spec. intros l o Hl.
  rewrite F; [exact Hl|]. apply elem_of_dom. eauto.
Qed.

Lemma splitPotentialEnergy_overflow system topology positions sigma s :
  sigma !! system = Some (OSystem s) ->
  Forall (is_force sigma) (sys_forces s) ->
  (32 < length (sys_forces s))%nat ->
  exists sigma',
    splitPotentialEnergy forceEnergy system topology positions sigma
    = (inl (OpenMMException "Force group must be between 0 and 31"), sigma').
Proof.
  intros Hs Hf H32.
  destruct (copy_forces_ok _ _ Hf) as (fs & s1 & E1 & S1 & F1 & L1).
  set (copy := MkSystem (sys_masses s) (sys_numConstraints s) fs).
  set (c := fresh (dom s1)).
  set (s2 := <[c := OSystem copy]> s1).
  assert (S2 : s1 ⊆ s2) by apply alloc_subseteq.
  assert (Hc : s2 !! c = Some (OSystem copy)) by apply lookup_insert_eq.
  assert (F2 : Forall (is_force s2) fs).
  { eapply Forall_impl; [exact F1|]. intros x. now apply is_force_weaken. }
  destruct (tag_forces_overflow fs 0 s2 F2) as [sigma' E3]; [lia | lia |].
  exists sigma'. unfold splitPotentialEnergy.
  assert (D : deepcopy system sigma = (inr c, s2)).
  { unfold deepcopy. erewrite bind_ok by (apply read_system_ok; exact Hs).
    erewrite bind_ok by exact E1. reflexivity. }
  erewrite bind_ok by exact D.
  erewrite bind_ok by (apply read_system_ok; exact Hc).
  cbn [sys_forces copy]. apply bind_raise. exact E3.
Qed.

Lemma splitPotentialEnergy_empty system topology positions sigma s t ps :
  sigma !! system = Some (OSystem s) ->
  sys_forces s = [] ->
  sigma !! topology = Some (OTopology t) ->
  sigma !! positions = Some (OPositions ps) ->
  length ps = getNumParticles s ->
  splitPotentialEnergy forceEnergy system topology positions sigma
  = (inr (<["Total" := 0%R]> ∅),
     <[fresh (dom sigma) := OSystem (MkSystem (sys_masses s) (sys_numConstraints s) [])]> sigma).
Proof.
  intros Hs He Ht Hp Hlen.
  set (copy := MkSystem (sys_masses s) (sys_numConstraints s) []).
  set (c := fresh (dom sigma)).
  set (s2 := <[c := OSystem copy]> sigma).
  assert (Hc : s2 !! c = Some (OSystem copy)) by apply lookup_insert_eq.
  assert (Ht2 : s2 !! topology = Some (OTopology t)).
  { unfold s2. rewrite lookup_insert_ne; [exact Ht|]. eapply HijackFacts.fresh_ne. exact Ht. }
  assert (Hp2 : s2 !! positions = Some (OPositions ps)).
  { unfold s2. rewrite lookup_insert_ne; [exact Hp|]. eapply HijackFacts.fresh_ne. exact Hp. }
  unfold splitPotentialEnergy.
  assert (D : deepcopy system sigma = (inr c, s2)).
  { unfold deepcopy. erewrite bind_ok by (apply read_system_ok; exact Hs).
    rewrite He. reflexivity. }
  erewrite bind_ok by exact D.
  erewrite bind_ok by (apply read_system_ok; exact Hc).
  cbn [sys_forces copy]. erewrite bind_ok by reflexivity.
  assert (Sim : Simulation topology c s2 = (inr (MkContext (getNumParticles copy) [] []), s2)).
  { unfold Simulation. erewrite bind_ok by (apply read_topology_ok; exact Ht2).
    erewrite bind_ok by (apply read_system_ok; exact Hc). reflexivity. }
  erewrite bind_ok by exact Sim.
  assert (Pos : setPositions positions (MkContext (getNumParticles copy) [] []) s2
                = (inr (MkContext (getNumParticles copy) [] ps), s2)).
  { unfold setPositions. erewrite bind_ok by (apply read_positions_ok; exact Hp2).
    cbn [ctx_numParticles ctx_forces].
    rewrite bool_decide_eq_true_2 by exact Hlen. reflexivity. }
  erewrite bind_ok by exact Pos.
  erewrite bind_ok by reflexivity.
  reflexivity.
Qed.

End Bounds.

End SplitBounds.

(** ** The reporter *)

Module ReporterFacts.

Import shortName.

Section Facts.

Variables (simulation_t state_t value_t constants_t error_t : Type).
Variable initializeConstants : t constants_t -> simulation_t -> constants_t.
Variable checkForErrors : t constants_t -> simulation_t -> state_t -> error_t + ().
Variable constructReportValues : t constants_t -> simulation_t -> state_t -> list value_t.
Variable str : value_t -> string.
Variable getTime : state_t -> R.
Variable currentStep : simulation_t -> Z.

Local Abbreviation report :=
  (report simulation_t state_t value_t constants_t error_t initializeConstants
          checkForErrors constructReportValues str getTime currentStep).
Local Abbreviation reports :=
  (reports simulation_t state_t value_t constants_t error_t initializeConstants
           checkForErrors constructReportValues str getTime currentStep).
Local Abbreviation returned :=
  (returned simulation_t state_t value_t constants_t error_t initializeConstants
            checkForErrors constructReportValues str getTime currentStep).
Local Abbreviation initialize :=
  (initialize simulation_t state_t constants_t initializeConstants getTime currentStep).

Lemma length_append_if (flag : bool) (name : string) (headers : list string) :
  length (append_if flag name headers) = (length headers + Nat.b2n flag)%nat.
Proof.
  destruct flag; cbn [append_if Nat.b2n]; [|lia]. rewrite length_app. reflexivity.
Qed.

Lemma sublist_append_if (flag : bool) (name : string) (headers all : list string) :
  sublist headers all -> sublist (append_if flag name headers) (all ++ [name]).
Proof.
  intros H. destruct flag; cbn [append_if].
  - apply sublist_app; [exact H | reflexivity].
  - rewrite <- (app_nil_r headers). apply sublist_app; [exact H | apply sublist_nil_l].
Qed.

Lemma length_filter_flag (b : bool) (l : list bool) :
  length (filter (fun b : bool => b) (b :: l))
  = (Nat.b2n b + length (filter (fun b : bool => b) l))%nat.
Proof.
  destruct b.
  - rewrite filter_cons_True by exact I. reflexivity.
  - rewrite filter_cons_False by (exact (fun H => H)). reflexivity.
Qed.

Lemma length_constructHeaders (self : t constants_t) :
  length (_constructHeaders constants_t self) = columns constants_t self.
Proof.
  unfold _constructHeaders, columns, flags. cbv zeta.
  rewrite !length_append_if, !length_filter_flag, filter_nil. cbn [length]. lia.
Qed.

Lemma sublist_constructHeaders (self : t constants_t) :
  sublist (_constructHeaders constants_t self) names.
Proof.
  unfold _constructHeaders. cbv zeta.
  change names with ((((((((((((@nil string ++ ["%"]) ++ ["Step"]) ++ ["t"]) ++ ["PE"])
                              ++ ["KE"]) ++ ["TotE"]) ++ ["T"]) ++ ["BoxV "]) ++ ["D"])
                         ++ ["Sp"]) ++ ["Elt"]) ++ ["tRem"]).
  repeat apply sublist_append_if. constructor.
Qed.

Lemma constructHeaders_flags (self self' : t constants_t) :
  flags constants_t self = flags constants_t self' ->
  _constructHeaders constants_t self = _constructHeaders constants_t self'.
Proof.
  unfold flags, _constructHeaders. intros [= -> -> -> -> -> -> -> -> -> -> -> ->]. reflexivity.
Qed.

(** What [report] keeps and what it writes. *)
Lemma initialize_spec now simulation state (self : t constants_t) :
  let self' := initialize now simulation state self in
  flags constants_t self' = flags constants_t self /\
  _separator constants_t self' = _separator constants_t self /\
  _hasInitialized constants_t self' = true /\
  _out constants_t self'
  = _out constants_t self
      ++ [String.concat (_separator constants_t self) (_constructHeaders constants_t self)].
Proof. destruct self. cbv zeta. repeat split. Qed.

Lemma print_spec text (self : t constants_t) :
  flags constants_t (print constants_t text self) = flags constants_t self /\
  _separator constants_t (print constants_t text self) = _separator constants_t self /\
  _hasInitialized constants_t (print constants_t text self) = _hasInitialized constants_t self /\
  _out constants_t (print constants_t text self) = _out constants_t self ++ [text].
Proof. destruct self. repeat split. Qed.

Lemma report_initialized now simulation state (self : t constants_t) :
  _hasInitialized constants_t self = true ->
  let '(r, self') := report now simulation state self in
  flags constants_t self' = flags constants_t self /\
  _separator constants_t self' = _separator constants_t self /\
  _hasInitialized constants_t self' = true /\
  exists lines,
    _out constants_t self' = _out constants_t self ++ lines /\
    length lines = match r with inl _ => 0%nat | inr _ => 1%nat end.
Proof.
  intros H. unfold shortName.report. rewrite H. cbn [negb].
  destruct (checkForErrors self simulation state) as [e|[]].
  - repeat split; try assumption. exists []. now rewrite app_nil_r.
  - destruct (print_spec (String.concat (_separator constants_t self)
                            (map str (constructReportValues self simulation state))) self)
      as (P1 & P2 & P3 & P4).
    rewrite P1, P2, P3, P4. repeat split; try assumption. eexists [_]. split; reflexivity.
Qed.

Lemma report_first now simulation state (self : t constants_t) :
  _hasInitialized constants_t self = false ->
  let '(r, self') := report now simulation state self in
  flags constants_t self' = flags constants_t self /\
  _separator constants_t self' = _separator constants_t self /\
  _hasInitialized constants_t self' = true /\
  exists lines,
    _out constants_t self'
    = _out constants_t self
        ++ String.concat (_separator constants_t self) (_constructHeaders constants_t self)
        :: lines /\
    length lines = match r with inl _ => 0%nat | inr _ => 1%nat end.
Proof.
  intros H. unfold shortName.report. rewrite H. cbn [negb].
  destruct (initialize_spec now simulation state self) as (I1 & I2 & I3 & I4).
  set (self1 := initialize now simulation state self) in *.
  destruct (checkForErrors self1 simulation state) as [e|[]].
  - repeat split; try assumption. exists []. split; [rewrite I4; reflexivity | reflexivity].
  - destruct (print_spec (String.concat (_separator constants_t self1)
                            (map str (constructReportValues self1 simulation state))) self1)
      as (P1 & P2 & P3 & P4).
    rewrite P1, P2, P3, P4, I1, I2, I3, I4. repeat split.
    eexists [_]. rewrite <- app_assoc. split; reflexivity.
Qed.

Lemma reports_initialized calls (self : t constants_t) :
  _hasInitialized constants_t self = true ->
  flags constants_t (reports calls self) = flags constants_t self /\
  _separator constants_t (reports calls self) = _separator constants_t self /\
  _hasInitialized constants_t (reports calls self) = true /\
  exists lines,
    _out constants_t (reports calls self) = _out constants_t self ++ lines /\
    length lines = returned calls self.
Proof.
  revert self. induction calls as [|[[now simulation] state] calls IH]; intros self H.
  - repeat split; try assumption. exists []. now rewrite app_nil_r.
  - cbn [shortName.reports shortName.returned].
    pose proof (report_initialized now simulation state self H) as R.
    destruct (report now simulation state self) as [r self1].
    destruct R as (R1 & R2 & R3 & l1 & R4 & R5). cbn [snd].
    destruct (IH self1 R3) as (J1 & J2 & J3 & l2 & J4 & J5).
    rewrite J1, J2, J3, R1, R2. repeat split.
    exists (l1 ++ l2). rewrite J4, R4, <- app_assoc. split; [reflexivity|].
    rewrite length_app, R5, J5. destruct r; reflexivity.
Qed.

Lemma reports_first calls (self : t constants_t) :
  _hasInitialized constants_t self = false -> calls <> [] ->
  flags constants_t (reports calls self) = flags constants_t self /\
  _separator constants_t (reports calls self) = _separator constants_t self /\
  _hasInitialized constants_t (reports calls self) = true /\
  exists lines,
    _out constants_t (reports calls self)
    = _out constants_t self
        ++ String.concat (_separator constants_t self) (_constructHeaders constants_t self)
        :: lines /\
    length lines = returned calls self.
Proof.
  intros H N. destruct calls as [|[[now simulation] state] calls]; [contradiction|].
  cbn [shortName.reports shortName.returned].
  pose proof (report_first now simulation state self H) as R.
  destruct (report now simulation state self) as [r self1].
  destruct R as (R1 & R2 & R3 & l1 & R4 & R5). cbn [snd].
  destruct (reports_initialized calls self1 R3) as (J1 & J2 & J3 & l2 & J4 & J5).
  rewrite J1, J2, J3, R1, R2. repeat split.
  exists (l1 ++ l2). rewrite J4, R4, <- app_assoc. split; [reflexivity|].
  rewrite length_app, R5, J5. destruct r; reflexivity.
Qed.

End Facts.

End ReporterFacts.

(** ** The labels of [splitPotentialEnergy] *)

Module LabelFacts.

Import ExprFacts.

Lemma decimal_inj (n m : N) : Expr.decimal n = Expr.decimal m -> n = m.
Proof.
  intros H. apply (f_equal NilZero.uint_of_string) in H. unfold Expr.decimal in H.
  rewrite !NilZero.usu in H by apply to_uint_not_Nil.
  injection H as H. now apply DecimalN.Unsigned.to_uint_inj.
Qed.

Lemma fmt_d_inj (n m : Z) : (0 <= n)%Z -> (0 <= m)%Z -> fmt_d n = fmt_d m -> n = m.
Proof.
  intros Hn Hm H. rewrite !fmt_d_decimal in H by assumption.
  apply decimal_inj in H. lia.
Qed.

Lemma append_inj_r (a b c : string) : a +:+ c = b +:+ c -> a = b.
Proof.
  intros H. apply (f_equal list_ascii_of_string) in H.
  rewrite !SplitFacts.chars_append in H. apply app_inv_tail in H.
  rewrite <- (string_of_list_ascii_of_string a), <- (string_of_list_ascii_of_string b).
  now rewrite H.
Qed.

Lemma paren_inj (T T' a b : string) :
  ~ In "("%char (list_ascii_of_string T) ->
  ~ In "("%char (list_ascii_of_string T') ->
  T +:+ String "(" a = T' +:+ String "(" b -> T = T' /\ a = b.
Proof.
  revert T'. induction T as [|c T IH]; intros [|c' T'] H H' E.
  - now injection E.
  - injection E as <- _. exfalso. apply H'. now left.
  - injection E as -> _. exfalso. apply H. now left.
  - injection E as <- E.
    destruct (IH T') as [-> ->]; [| |exact E|now split].
    + intros I. apply H. now right.
    + intros I. apply H'. now right.
Qed.

Lemma numbered_has_paren (T : string) (n : Z) :
  In "("%char (list_ascii_of_string (numbered T n)).
Proof.
  unfold numbered. rewrite SplitFacts.chars_append. apply in_or_app. right. now left.
Qed.

Lemma numbered_inj (T T' : string) (n m : Z) :
  plain T -> plain T' -> (0 <= n)%Z -> (0 <= m)%Z ->
  numbered T n = numbered T' m -> T = T' /\ n = m.
Proof.
  intros [_ H] [_ H'] Hn Hm E. unfold numbered in E.
  apply paren_inj in E as [-> E]; [|assumption|assumption]. split; [reflexivity|].
  apply append_inj_r in E. now apply fmt_d_inj.
Qed.

End LabelFacts.

Module TabulateFacts.

Import LabelFacts.

Local Open Scope R_scope.

Lemma plain_not_numbered (T T' : string) (k : Z) : plain T -> T <> numbered T' k.
Proof. intros [_ H] E. apply H. rewrite E. apply numbered_has_paren. Qed.

(** A round of the loop stores its energy under a key that is new. *)
Lemma record_term_labelled (T : string) (e : R) (acc : gmap string Z * gmap string R) :
  labelled acc -> plain T ->
  exists key,
    acc.2 !! key = None /\
    (record_term T e acc).2 = <[key := e]> acc.2 /\
    labelled (record_term T e acc).
Proof.
  destruct acc as [terms energy]. intros [L1 L2] P. cbn [fst snd] in *.
  unfold record_term. destruct (terms !! T) as [n|] eqn:E.
  - destruct (L1 T n E) as [Hn _].
    exists (numbered T (n + 1)). split; [|split; [reflexivity|]].
    + destruct (energy !! numbered T (n + 1)) as [e0|] eqn:K; [exfalso | reflexivity].
      destruct (L2 _ _ K) as (T' & n' & E' & [Hk|(k & Hk & Hk')]).
      * destruct (L1 T' n' E') as [_ P']. symmetry in Hk.
        exact (plain_not_numbered _ _ _ P' Hk).
      * destruct (L1 T' n' E') as [_ P'].
        apply numbered_inj in Hk' as [<- <-]; [|assumption|assumption|lia|lia].
        rewrite E in E'. injection E' as <-. lia.
    + split; cbn [fst snd].
      * intros T0 n0 H. apply lookup_insert_Some in H as [[<- <-]|[Hne H]].
        -- split; [lia | exact P].
        -- exact (L1 T0 n0 H).
      * intros key0 e0 H. apply lookup_insert_Some in H as [[<- <-]|[Hne H]].
        -- exists T, (n + 1)%Z. split; [apply lookup_insert_eq|].
           right. exists (n + 1)%Z. split; [lia | reflexivity].
        -- destruct (L2 _ _ H) as (T' & n' & E' & Hk).
           destruct (decide (T = T')) as [<-|Hne'].
           ++ rewrite E in E'. injection E' as <-.
              exists T, (n + 1)%Z. split; [apply lookup_insert_eq|].
              destruct Hk as [Hk|(k & Hk & Hk')]; [now left|].
              right. exists k. split; [lia | exact Hk'].
           ++ exists T', n'. split; [|exact Hk]. now rewrite lookup_insert_ne.
  - exists T. split; [|split; [reflexivity|]].
    + destruct (energy !! T) as [e0|] eqn:K; [exfalso | reflexivity].
      destruct (L2 _ _ K) as (T' & n' & E' & [Hk|(k & Hk & Hk')]).
      * subst T'. rewrite E in E'. discriminate E'.
      * exact (plain_not_numbered _ _ _ P Hk').
    + split; cbn [fst snd].
      * intros T0 n0 H. apply lookup_insert_Some in H as [[<- <-]|[Hne H]].
        -- split; [lia | exact P].
        -- exact (L1 T0 n0 H).
      * intros key0 e0 H. apply lookup_insert_Some in H as [[<- <-]|[Hne H]].
        -- exists T, 0%Z. split; [apply lookup_insert_eq | now left].
        -- destruct (L2 _ _ H) as (T' & n' & E' & Hk).
           exists T', n'. split; [|exact Hk].
           rewrite lookup_insert_ne; [exact E'|]. intros <-. rewrite E in E'. discriminate E'.
Qed.

Lemma sum_values_insert (energy : gmap string R) (key : string) (e : R) :
  energy !! key = None -> sum_values (<[key := e]> energy) = sum_values energy + e.
Proof.
  intros H. unfold sum_values.
  rewrite map_fold_insert_L; [reflexivity| |exact H].
  intros. lra.
Qed.

Lemma labelled_empty : labelled (∅, ∅).
Proof. split; intros ? ? H; cbn in H; rewrite lookup_empty in H; discriminate H. Qed.

(** The loop loses no energy and counts none twice. *)
Lemma tabulate_sum (items : list (string * R)) (acc : gmap string Z * gmap string R) :
  labelled acc -> Forall (fun item => plain item.1) items -> no_Total_key acc ->
  labelled (tabulate items acc) /\
  no_Total_key (tabulate items acc) /\
  sum_values (tabulate items acc).2 = sum_values acc.2 + sum_R (map snd items) /\
  size (tabulate items acc).2 = (size acc.2 + length items)%nat.
Proof.
  revert acc. induction items as [|[T e] items IH]; intros acc L P N.
  - unfold tabulate. cbn [fold_left map length]. split; [exact L|]. split; [exact N|].
    split; [unfold sum_R; cbn [foldr]; lra | lia].
  - apply Forall_cons in P as [PT P]. cbn [fst] in PT.
    destruct (record_term_labelled T e acc L PT) as (key & K & E & L').
    assert (N' : no_Total_key (record_term T e acc))
      by (apply SplitFacts.record_term_no_Total; [apply PT | exact N]).
    destruct (IH (record_term T e acc) L' P N') as (I1 & I2 & I3 & I4).
    change (tabulate ((T, e) :: items) acc) with (tabulate items (record_term T e acc)).
    split; [exact I1|]. split; [exact I2|]. split.
    + rewrite I3, E, sum_values_insert by exact K. cbn [map snd sum_R foldr].
      fold (sum_R (map snd items)). lra.
    + rewrite I4, E, map_size_insert_None by exact K. cbn [length]. lia.
Qed.

End TabulateFacts.

(** ** The run of [splitPotentialEnergy], object by object *)

Module SplitExact.

Import StoreFacts SplitFacts SplitSuccess HijackFacts.

Local Open Scope R_scope.

Lemma regroup_ok (group : Z) (f : OpenMM.Force) :
  (0 <= group <= 31)%Z -> OpenMM.setForceGroup group f = inr (regroup group f).
Proof.
  intros H. unfold OpenMM.setForceGroup.
  replace ((group <? 0)%Z || (31 <? group)%Z) with false
    by (symmetry; apply orb_false_iff; split; apply Z.ltb_ge; lia).
  reflexivity.
Qed.

Lemma getForceGroup_regroup (group : Z) (f : OpenMM.Force) :
  OpenMM.getForceGroup (regroup group f) = group.
Proof. destruct f as [[]|[]|[]|]; reflexivity. Qed.

Lemma className_regroup (group : Z) (f : OpenMM.Force) :
  className (regroup group f) = className f.
Proof. destruct f; reflexivity. Qed.

Lemma forces_weaken (sigma sigma' : gmap loc object) (ls : list loc) (fs : list OpenMM.Force) :
  sigma ⊆ sigma' ->
  Forall2 (fun l f => sigma !! l = Some (OForce f)) ls fs ->
  Forall2 (fun l f => sigma' !! l = Some (OForce f)) ls fs.
Proof.
  intros S F. eapply Forall2_impl; [exact F|].
  intros l f H. eapply lookup_weaken; [exact H | exact S].
Qed.

Lemma forces_insert_other (sigma : gmap loc object) (c : loc) (o : object)
    (cs : list loc) (fs : list OpenMM.Force) :
  c ∉ cs ->
  Forall2 (fun l f => sigma !! l = Some (OForce f)) cs fs ->
  Forall2 (fun l f => <[c := o]> sigma !! l = Some (OForce f)) cs fs.
Proof.
  intros N F. induction F as [|l f cs fs H _ IH]; [constructor|].
  apply not_elem_of_cons in N as [N1 N2]. constructor; [|now apply IH].
  rewrite lookup_insert_ne; [exact H|]. intros E. now apply N1.
Qed.

(** The copies of the forces are new objects, all different. *)
Lemma copy_forces_exact (ls : list loc) (fs : list OpenMM.Force) (sigma : gmap loc object) :
  Forall2 (fun l f => sigma !! l = Some (OForce f)) ls fs ->
  exists cs sigma1,
    mapM (fun l => f ← read_force l; alloc (OForce f)) ls sigma = (inr cs, sigma1) /\
    sigma ⊆ sigma1 /\
    Forall2 (fun c f => sigma1 !! c = Some (OForce f)) cs fs /\
    NoDup cs /\
    Forall (fun c => sigma !! c = None) cs.
Proof.
  intros F. revert sigma F. revert fs.
  induction ls as [|l ls IH]; intros fs sigma F.
  - inversion F. subst. exists [], sigma.
    split; [reflexivity|]. split; [reflexivity|]. repeat split; constructor.
  - inversion F as [|? f ? fs' Hl F']. subst.
    set (c0 := fresh (dom sigma)).
    set (sigma0 := <[c0 := OForce f]> sigma).
    assert (S0 : sigma ⊆ sigma0) by apply alloc_subseteq.
    destruct (IH fs' sigma0 (forces_weaken _ _ _ _ S0 F'))
      as (cs & sigma1 & E & S1 & F1 & N & D).
    assert (H0 : sigma0 !! c0 = Some (OForce f)) by apply lookup_insert_eq.
    exists (c0 :: cs), sigma1. split; [|split; [|split; [|split]]].
    + cbn [mapM].
      erewrite bind_ok; [|erewrite bind_ok by (apply read_force_ok; exact Hl); reflexivity].
      fold c0 sigma0. erewrite bind_ok by exact E. reflexivity.
    + now transitivity sigma0.
    + constructor; [|exact F1]. eapply lookup_weaken; [exact H0 | exact S1].
    + constructor; [|exact N]. intros I. rewrite Forall_forall in D.
      rewrite (D c0 I) in H0. discriminate H0.
    + constructor; [apply not_elem_of_dom, is_fresh|].
      eapply Forall_impl; [exact D|]. intros c Hc. cbn beta in Hc.
      apply lookup_insert_None in Hc. apply Hc.
Qed.

(** Each copy gets the group of its index, and nothing else is written. *)
Lemma tag_forces_exact (cs : list loc) (fs : list OpenMM.Force) (n : nat)
    (sigma : gmap loc object) :
  Forall2 (fun c f => sigma !! c = Some (OForce f)) cs fs ->
  NoDup cs -> (n + length cs <= 32)%nat ->
  exists us sigma',
    mapM (fun '(index, force) => setForceGroup_at force index)
         (zip (map Z.of_nat (seq n (length cs))) cs) sigma
    = (inr us, sigma') /\
    Forall2 (fun c p => sigma' !! c = Some (OForce (regroup p.1 p.2)))
            cs (zip (map Z.of_nat (seq n (length fs))) fs) /\
    (forall k, k ∉ cs -> sigma' !! k = sigma !! k).
Proof.
  revert fs n sigma. induction cs as [|c cs IH]; intros fs n sigma F N Hn.
  - inversion F. subst. exists [], sigma.
    split; [reflexivity|]. split; [constructor|]. intros; reflexivity.
  - inversion F as [|? f ? fs' Hc F']. subst.
    apply NoDup_cons in N as [Nc N]. cbn [length] in Hn.
    set (s1 := <[c := OForce (regroup (Z.of_nat n) f)]> sigma).
    assert (E1 : setForceGroup_at c (Z.of_nat n) sigma = (inr (), s1)).
    { unfold setForceGroup_at. erewrite bind_ok by (apply read_force_ok; exact Hc).
      rewrite regroup_ok by lia. reflexivity. }
    destruct (IH fs' (S n) s1) as (us & sigma' & E & F1 & Fr).
    { apply forces_insert_other; assumption. }
    { exact N. }
    { lia. }
    exists (() :: us), sigma'. split; [|split].
    + cbn [length seq map zip zip_with mapM].
      erewrite bind_ok by exact E1. erewrite bind_ok by exact E. reflexivity.
    + cbn [length seq map zip zip_with]. constructor; [|exact F1].
      cbn [fst snd]. rewrite Fr by exact Nc. apply lookup_insert_eq.
    + intros k Hk. apply not_elem_of_cons in Hk as [K1 K2].
      rewrite Fr by exact K2. unfold s1. apply lookup_insert_ne. intros E'. now apply K1.
Qed.

Lemma read_forces_exact (cs : list loc) (fs : list OpenMM.Force) (sigma : gmap loc object) :
  Forall2 (fun c f => sigma !! c = Some (OForce f)) cs fs ->
  mapM read_force cs sigma = (inr fs, sigma).
Proof.
  induction 1 as [|c f cs fs H _ IH]; [reflexivity|].
  cbn [mapM]. erewrite bind_ok by (apply read_force_ok; exact H).
  erewrite bind_ok by exact IH. reflexivity.
Qed.

(** The forces in the groups of their indices, from the index [n] on. *)
Lemma filter_group_below (fs : list OpenMM.Force) (n : nat) (g : Z) :
  (g < Z.of_nat n)%Z ->
  filter (fun f' => OpenMM.getForceGroup f' = g)
         (map (fun p => regroup p.1 p.2) (zip (map Z.of_nat (seq n (length fs))) fs))
  = [].
Proof.
  revert n. induction fs as [|f fs IH]; intros n H; [reflexivity|].
  cbn [length seq map zip zip_with fst snd].
  rewrite filter_cons_False by (rewrite getForceGroup_regroup; lia).
  apply IH. lia.
Qed.

Lemma filter_group (fs : list OpenMM.Force) (n i : nat) (f : OpenMM.Force) :
  fs !! i = Some f ->
  filter (fun f' => OpenMM.getForceGroup f' = Z.of_nat (n + i))
         (map (fun p => regroup p.1 p.2) (zip (map Z.of_nat (seq n (length fs))) fs))
  = [regroup (Z.of_nat (n + i)) f].
Proof.
  revert n i. induction fs as [|f0 fs IH]; intros n i H; [discriminate H|].
  cbn [length seq map zip zip_with fst snd]. destruct i as [|i].
  - injection H as ->. rewrite Nat.add_0_r.
    rewrite filter_cons_True by apply getForceGroup_regroup.
    rewrite filter_group_below by lia. reflexivity.
  - rewrite filter_cons_False by (rewrite getForceGroup_regroup; lia).
    replace (n + S i)%nat with (S n + i)%nat by lia. apply IH. exact H.
Qed.

Lemma enumerate_In {A : Type} (l : list A) (n : nat) (p : Z * A) :
  In p (zip (map Z.of_nat (seq n (length l))) l) ->
  exists i, p.1 = Z.of_nat (n + i) /\ l !! i = Some p.2.
Proof.
  revert n. induction l as [|x l IH]; intros n H; [destruct H|].
  cbn [length seq map zip zip_with] in H. destruct H as [<-|H].
  - exists 0%nat. split; [cbn; f_equal; lia | reflexivity].
  - destruct (IH (S n) H) as (i & H1 & H2). exists (S i). split; [|exact H2].
    rewrite H1. f_equal. lia.
Qed.

Section Exact.

Variable forceEnergy : OpenMM.Force -> Positions -> R.

(** With every force in the group of its index, the energy of the group
    [i] is the energy of the force [i]. *)
Lemma getPotentialEnergy_one (n : nat) (fs : list OpenMM.Force) (ps : Positions)
    (i : nat) (f : OpenMM.Force) :
  fs !! i = Some f ->
  getPotentialEnergy forceEnergy
    (MkContext n (map (fun p => regroup p.1 p.2) (enumerate fs)) ps) (Z.of_nat i)
  = forceEnergy (regroup (Z.of_nat i) f) ps.
Proof.
  intros H. unfold getPotentialEnergy, enumerate. cbn [ctx_forces ctx_positions].
  pose proof (filter_group fs 0 i f H) as E. cbn [Nat.add] in E. rewrite E.
  cbn [map sum_R foldr]. lra.
Qed.

Lemma tabulate_exact (ctx : Context) (cs : list loc) (fs : list OpenMM.Force) (n : nat)
    (acc : gmap string Z * gmap string R) (sigma : gmap loc object) :
  Forall2 (fun c p => sigma !! c = Some (OForce (regroup p.1 p.2)))
          cs (zip (map Z.of_nat (seq n (length fs))) fs) ->
  length cs = length fs ->
  foldM (fun acc '(index, force) =>
           let state := getPotentialEnergy forceEnergy ctx index in
           f ← read_force force;
           mret (record_term (className f) state acc))
        acc (zip (map Z.of_nat (seq n (length cs))) cs) sigma
  = (inr (tabulate
            (map (fun p => (className p.2, getPotentialEnergy forceEnergy ctx p.1))
                 (zip (map Z.of_nat (seq n (length fs))) fs))
            acc),
     sigma).
Proof.
  revert fs n acc. induction cs as [|c cs IH]; intros fs n acc F L.
  - destruct fs; [reflexivity | discriminate L].
  - destruct fs as [|f fs]; [discriminate L|].
    cbn [length seq map zip zip_with] in F |- *.
    inversion F as [|? ? ? ? Hc F']. subst. cbn [fst snd] in Hc.
    cbn [foldM].
    erewrite bind_ok; cycle 1.
    { erewrite bind_ok by (apply read_force_ok; exact Hc). reflexivity. }
    rewrite className_regroup.
    rewrite (IH fs (S n)); [reflexivity | exact F' | now injection L].
Qed.

End Exact.

End SplitExact.

Module SplitSum.

Import StoreFacts SplitFacts SplitSuccess HijackFacts SplitExact TabulateFacts.

Local Open Scope R_scope.

Lemma read_forces_tagged (cs : list loc) (items : list (Z * OpenMM.Force))
    (sigma : gmap loc object) :
  Forall2 (fun c p => sigma !! c = Some (OForce (regroup p.1 p.2))) cs items ->
  mapM read_force cs sigma = (inr (map (fun p => regroup p.1 p.2) items), sigma).
Proof.
  induction 1 as [|c p cs items H _ IH]; [reflexivity|].
  cbn [mapM map]. erewrite bind_ok by (apply read_force_ok; exact H).
  erewrite bind_ok by exact IH. reflexivity.
Qed.

Lemma forces_not_in (sigma : gmap loc object) (cs : list loc) (fs : list OpenMM.Force)
    (k : loc) :
  Forall2 (fun c f => sigma !! c = Some (OForce f)) cs fs ->
  (forall f, sigma !! k <> Some (OForce f)) -> k ∉ cs.
Proof.
  intros F H I. apply list_elem_of_lookup in I as [i Hi].
  destruct (Forall2_lookup_l _ _ _ _ _ F Hi) as (f & _ & Hf). exact (H f Hf).
Qed.

Lemma not_in_new (sigma : gmap loc object) (cs : list loc) (k : loc) (o : object) :
  Forall (fun c => sigma !! c = None) cs -> sigma !! k = Some o -> k ∉ cs.
Proof.
  intros D H I. rewrite Forall_forall in D. rewrite (D k I) in H. discriminate H.
Qed.

Section Sum.

Variable forceEnergy : OpenMM.Force -> Positions -> R.

(** What the loop is given: the class name and the energy of each force. *)
Lemma items_energies (n : nat) (fs : list OpenMM.Force) (ps : Positions) :
  map (fun p => (className p.2,
                 getPotentialEnergy forceEnergy
                   (MkContext n (map (fun p => regroup p.1 p.2) (enumerate fs)) ps) p.1))
      (enumerate fs)
  = map (fun p => (className p.2, forceEnergy (regroup p.1 p.2) ps)) (enumerate fs).
Proof.
  apply map_ext_in. intros [i f] H. cbn [fst snd].
  apply (enumerate_In fs 0) in H as (j & Hi & Hj). cbn [fst snd Nat.add] in Hi, Hj.
  subst i. f_equal. now apply getPotentialEnergy_one.
Qed.

Lemma splitPotentialEnergy_exact system topology positions sigma s fs t ps :
  system_at sigma system s fs ->
  sigma !! topology = Some (OTopology t) ->
  sigma !! positions = Some (OPositions ps) ->
  length ps = getNumParticles s ->
  (length fs <= 32)%nat ->
  exists terms energy sigma',
    tabulate (map (fun p => (className p.2, forceEnergy (regroup p.1 p.2) ps)) (enumerate fs))
             (∅, ∅)
    = (terms, energy) /\
    splitPotentialEnergy forceEnergy system topology positions sigma
    = (inr (<["Total" := sum_values energy]> energy), sigma').
Proof.
  intros [Hs F] Ht Hp Hlen H32.
  destruct (copy_forces_exact _ _ _ F) as (cs & s1 & E1 & S1 & F1 & N & D).
  pose proof (Forall2_length _ _ _ F1) as Lcs.
  set (copy := MkSystem (sys_masses s) (sys_numConstraints s) cs).
  set (c := fresh (dom s1)).
  set (s2 := <[c := OSystem copy]> s1).
  assert (Hc : s2 !! c = Some (OSystem copy)) by apply lookup_insert_eq.
  assert (Nc : c ∉ cs).
  { eapply forces_not_in; [exact F1|]. intros f Hf.
    apply (is_fresh (dom s1)). apply elem_of_dom. eauto. }
  assert (F2 : Forall2 (fun l f => s2 !! l = Some (OForce f)) cs fs)
    by (apply forces_insert_other; assumption).
  destruct (tag_forces_exact cs fs 0 s2 F2 N) as (us & s3 & E3 & F3 & Fr); [lia|].
  assert (Hc3 : s3 !! c = Some (OSystem copy)) by (rewrite Fr; assumption).
  assert (Ht3 : s3 !! topology = Some (OTopology t)).
  { rewrite Fr by (eapply not_in_new; eassumption).
    unfold s2. rewrite lookup_insert_ne.
    - eapply lookup_weaken; [exact Ht | exact S1].
    - eapply fresh_ne. eapply lookup_weaken; [exact Ht | exact S1]. }
  assert (Hp3 : s3 !! positions = Some (OPositions ps)).
  { rewrite Fr by (eapply not_in_new; eassumption).
    unfold s2. rewrite lookup_insert_ne.
    - eapply lookup_weaken; [exact Hp | exact S1].
    - eapply fresh_ne. eapply lookup_weaken; [exact Hp | exact S1]. }
  set (forces := map (fun p => regroup p.1 p.2) (enumerate fs)).
  set (ctx := MkContext (getNumParticles copy) forces ps).
  destruct (tabulate (map (fun p => (className p.2, forceEnergy (regroup p.1 p.2) ps))
                          (enumerate fs)) (∅, ∅)) as [terms energy] eqn:T.
  exists terms, energy, s3. split; [reflexivity|].
  unfold splitPotentialEnergy.
  assert (Dc : deepcopy system sigma = (inr c, s2)).
  { unfold deepcopy. erewrite bind_ok by (apply read_system_ok; exact Hs).
    erewrite bind_ok by exact E1. reflexivity. }
  erewrite bind_ok by exact Dc.
  erewrite bind_ok by (apply read_system_ok; exact Hc).
  cbn [sys_forces copy]. unfold enumerate at 1. erewrite bind_ok by exact E3.
  assert (Sim : Simulation topology c s3 = (inr (MkContext (getNumParticles copy) forces []), s3)).
  { unfold Simulation. erewrite bind_ok by (apply read_topology_ok; exact Ht3).
    erewrite bind_ok by (apply read_system_ok; exact Hc3).
    cbn [sys_forces copy]. erewrite bind_ok by (apply read_forces_tagged; exact F3).
    reflexivity. }
  erewrite bind_ok by exact Sim.
  assert (Pos : setPositions positions (MkContext (getNumParticles copy) forces []) s3
                = (inr ctx, s3)).
  { unfold setPositions. erewrite bind_ok by (apply read_positions_ok; exact Hp3).
    cbn [ctx_numParticles ctx_forces].
    rewrite bool_decide_eq_true_2 by exact Hlen. reflexivity. }
  erewrite bind_ok by exact Pos.
  erewrite bind_ok; cycle 1.
  { unfold enumerate. apply (tabulate_exact forceEnergy ctx cs fs 0); [exact F3 | exact Lcs]. }
  fold (enumerate fs). unfold ctx, forces. rewrite items_energies, T. reflexivity.
Qed.

End Sum.

End SplitSum.

Module SplitLabels.

Import StoreFacts SplitFacts SplitSuccess SplitExact TabulateFacts SplitSum.

Local Open Scope R_scope.

Lemma occurrences_snoc (c T : string) (classes : list string) :
  occurrences c (classes ++ [T])
  = (occurrences c classes + (if decide (T = c) then 1 else 0))%nat.
Proof.
  unfold occurrences. rewrite filter_app, length_app. f_equal.
  destruct (decide (T = c)) as [E|N].
  - rewrite filter_cons_True by exact E. reflexivity.
  - rewrite filter_cons_False by exact N. reflexivity.
Qed.

(** The key under which a round of the loop stores its energy. *)
Lemma record_term_counted (T : string) (e : R) (acc : gmap string Z * gmap string R)
    (classes : list string) :
  counted acc.1 classes ->
  (record_term T e acc).2 = <[label T (occurrences T classes) := e]> acc.2 /\
  counted (record_term T e acc).1 (classes ++ [T]).
Proof.
  destruct acc as [terms energy]. cbn [fst snd]. intros C.
  unfold record_term. pose proof (C T) as CT.
  destruct (occurrences T classes) as [|k] eqn:O; rewrite CT; cbn [fst snd label].
  - split; [reflexivity|]. intros c. rewrite occurrences_snoc.
    destruct (decide (T = c)) as [<-|N].
    + rewrite lookup_insert_eq, O. reflexivity.
    + rewrite lookup_insert_ne by exact N. rewrite Nat.add_0_r. apply C.
  - split.
    + unfold numbered. replace (Z.of_nat (S k)) with (Z.of_nat k + 1)%Z by lia. reflexivity.
    + intros c. rewrite occurrences_snoc.
      destruct (decide (T = c)) as [<-|N].
      * rewrite lookup_insert_eq, O. rewrite Nat.add_1_r.
        replace (Z.of_nat (S k)) with (Z.of_nat k + 1)%Z by lia. reflexivity.
      * rewrite lookup_insert_ne by exact N. rewrite Nat.add_0_r. apply C.
Qed.

Lemma tabulate_counted (items : list (string * R)) (acc : gmap string Z * gmap string R)
    (classes : list string) :
  counted acc.1 classes -> counted (tabulate items acc).1 (classes ++ map fst items).
Proof.
  revert acc classes. induction items as [|[T e] items IH]; intros acc classes C.
  - cbn. now rewrite app_nil_r.
  - change (tabulate ((T, e) :: items) acc) with (tabulate items (record_term T e acc)).
    cbn [map fst]. rewrite cons_middle, app_assoc.
    apply IH. now apply record_term_counted.
Qed.

(** What the loop has stored, it does not overwrite. *)
Lemma tabulate_keeps (items : list (string * R)) (acc : gmap string Z * gmap string R)
    (key : string) (e : R) :
  labelled acc -> Forall (fun item => plain item.1) items ->
  acc.2 !! key = Some e -> (tabulate items acc).2 !! key = Some e.
Proof.
  revert acc. induction items as [|[T e'] items IH]; intros acc L P H; [exact H|].
  apply Forall_cons in P as [PT P]. cbn [fst] in PT.
  change (tabulate ((T, e') :: items) acc) with (tabulate items (record_term T e' acc)).
  destruct (record_term_labelled T e' acc L PT) as (key' & K & E & L').
  apply IH; [exact L' | exact P|]. rewrite E.
  rewrite lookup_insert_ne; [exact H|]. intros <-. rewrite K in H. discriminate H.
Qed.

Lemma counted_empty : counted ∅ [].
Proof. intros c. apply lookup_empty. Qed.

Lemma tabulate_label (pre post : list (string * R)) (T : string) (e : R) :
  Forall (fun item => plain item.1) (pre ++ (T, e) :: post) ->
  (tabulate (pre ++ (T, e) :: post) (∅, ∅)).2 !! label T (occurrences T (map fst pre))
  = Some e.
Proof.
  intros P. apply Forall_app in P as [P1 P2]. apply Forall_cons in P2 as [PT P2].
  unfold tabulate. rewrite fold_left_app. cbn [fold_left].
  fold (tabulate pre (∅, ∅)).
  set (acc1 := tabulate pre (∅, ∅)).
  fold (tabulate post (record_term (T, e).1 (T, e).2 acc1)). cbn [fst snd].
  destruct (tabulate_sum pre (∅, ∅) labelled_empty P1) as (L1 & _); [reflexivity|].
  fold acc1 in L1.
  pose proof (tabulate_counted pre (∅, ∅) [] counted_empty) as C1.
  fold acc1 in C1. cbn [app] in C1.
  destruct (record_term_counted T e acc1 _ C1) as [E _].
  destruct (record_term_labelled T e acc1 L1 PT) as (key' & _ & _ & L2).
  apply tabulate_keeps; [exact L2 | exact P2|].
  rewrite E. apply lookup_insert_eq.
Qed.

Lemma label_not_Total (T : string) (k : nat) : plain T -> label T k <> "Total".
Proof.
  intros [N _]. destruct k; [exact N|]. cbn [label]. unfold numbered.
  apply numbered_not_Total.
Qed.

Lemma enumerate_lookup {A : Type} (l : list A) (n i : nat) (x : A) :
  l !! i = Some x ->
  zip (map Z.of_nat (seq n (length l))) l !! i = Some (Z.of_nat (n + i), x).
Proof.
  revert n i. induction l as [|y l IH]; intros n i H; [discriminate H|].
  cbn [length seq map zip zip_with]. destruct i as [|i].
  - injection H as ->. rewrite Nat.add_0_r. reflexivity.
  - cbn [lookup list_lookup]. replace (n + S i)%nat with (S n + i)%nat by lia.
    apply IH. exact H.
Qed.

Lemma enumerate_snd_map {A : Type} (l : list A) (n : nat) :
  map snd (zip (map Z.of_nat (seq n (length l))) l) = l.
Proof.
  revert n. induction l as [|y l IH]; intros n; [reflexivity|].
  cbn [length seq map zip zip_with snd]. now rewrite IH.
Qed.

Lemma map_lookup {A B : Type} (g : A -> B) (l : list A) (i : nat) (x : A) :
  l !! i = Some x -> map g l !! i = Some (g x).
Proof.
  revert i. induction l as [|y l IH]; intros [|i] H; try discriminate H.
  - now injection H as ->.
  - cbn [map]. apply (IH i H).
Qed.

End SplitLabels.

(** ** The [Force] class and its group *)

(** X1. After [setForceGroup] with a legal group (0 to 31), every toolkit
    force of the [Force] is in that group and is otherwise what the
    toolkit's own [setForceGroup] makes of it, and [getForceGroup] returns
    the group when the list of forces is not empty. *)
Theorem Force_setForceGroup_getForceGroup (self : Force.t) (group : Z) :
  (0 <= group <= 31)%Z ->
  exists self',
    Force.setForceGroup group self = inr self' /\
    Forall2 (fun f f' => OpenMM.setForceGroup group f = inr f')
            (Force.forces self) (Force.forces self') /\
    one_group group self' /\
    (Force.forces self <> [] -> Force.getForceGroup self' = inr group).
Proof.
  intros H. destruct (GroupFacts.mapM_setForceGroup_ok group (Force.forces self) H)
    as (fs' & E & A & B).
  exists (Force.Build fs'). split; [|split; [exact A | split; [exact B|]]].
  - unfold Force.setForceGroup. rewrite E. reflexivity.
  - intros N. unfold Force.getForceGroup. cbn [Force.forces].
    destruct B as [|f' fs' Hf' _].
    + apply Forall2_length in A. destruct (Force.forces self); [contradiction | discriminate A].
    + now rewrite Hf'.
Qed.


(** X3. The constructor of [Force] accepts every list of toolkit forces and
    puts them all in group 0; so every force built by the constructors of
    [DampedSmoothedForce], [NonbondedExceptionsForce], [NearNonbondedForce]
    and [FarNonbondedForce] is in group 0, with one, one, one and two
    toolkit forces. *)
Theorem constructors_group_zero :
  (forall fs, exists F,
      Force.__init__ fs = inr F /\ one_group 0 F /\
      length (Force.forces F) = length fs) /\
  (forall alpha rc rs degree F,
      DampedSmoothedForce.__init__ alpha rc rs degree = inr F ->
      one_group 0 F /\ length (Force.forces F) = 1%nat) /\
  (exists F, NonbondedExceptionsForce.__init__ = inr F /\
             one_group 0 F /\ length (Force.forces F) = 1%nat) /\
  (forall rc rs shifted, exists near,
      NearNonbondedForce.__init__ rc rs shifted = inr near /\
      one_group 0 (NearNonbondedForce.base near) /\
      length (Force.forces (NearNonbondedForce.base near)) = 1%nat) /\
  (forall preceding cutoff switch method F,
      FarNonbondedForce.__init__ preceding cutoff switch method = inr F ->
      one_group 0 F /\ length (Force.forces F) = 2%nat).
Proof.
  assert (G : forall fs, exists F,
      Force.__init__ fs = inr F /\ one_group 0 F /\ length (Force.forces F) = length fs).
  { intros fs.
    destruct (GroupFacts.setForceGroup_all (Force.Build fs) 0 ltac:(lia))
      as (F & E & A & B & _).
    exists F. split; [exact E|]. split; [exact B|].
    symmetry. exact (Forall2_length _ _ _ A). }
  split; [exact G|]. split; [|split; [|split]].
  - intros alpha rc rs degree F. unfold DampedSmoothedForce.__init__.
    destruct (_ || _); [discriminate|].
    match goal with |- Force.__init__ ?l = _ -> _ => destruct (G l) as (F' & E & A & L) end.
    rewrite E. intros [= <-]. split; [exact A | exact L].
  - unfold NonbondedExceptionsForce.__init__.
    destruct (G [FCustomBond _CustomBondForce.__init__]) as (F & E & A & L).
    exists F. split; [exact E|]. split; [exact A | exact L].
  - intros rc rs shifted. rewrite Near_init. eexists. split; [reflexivity|].
    split; [|reflexivity]. repeat constructor.
  - intros preceding cutoff switch method F. unfold FarNonbondedForce.__init__.
    destruct preceding; cbn [isinstance_NearNonbondedForce negb]; try discriminate.
    cbn [attributes mbind exn_bind].
    match goal with |- Force.__init__ ?l = _ -> _ => destruct (G l) as (F' & E & A & L) end.
    rewrite E. intros [= <-]. split; [exact A | exact L].
Qed.

(** X4. A [Force] whose toolkit forces share one legal group keeps that
    property under every method: [getForceGroup] returns the group,
    [includeExceptions] appends one bond force without bonds in the same
    group, [importFrom] changes neither the groups nor the number of
    forces, and [setForceGroup] moves all of them together. *)
Theorem Force_one_group_preserved (self : Force.t) (g : Z) :
  one_group g self -> Force.forces self <> [] -> (0 <= g <= 31)%Z ->
  Force.getForceGroup self = inr g /\
  (exists b,
      Force.includeExceptions self = inr (Force.Build (Force.forces self ++ [FCustomBond b])) /\
      b = cb_setForceGroup g _CustomBondForce.__init__ /\
      cb_bonds b = [] /\
      one_group g (Force.Build (Force.forces self ++ [FCustomBond b]))) /\
  (forall force self',
      Force.importFrom force self = inr self' ->
      one_group g self' /\ length (Force.forces self') = length (Force.forces self)) /\
  (forall g', (0 <= g' <= 31)%Z ->
      exists self', Force.setForceGroup g' self = inr self' /\ one_group g' self').
Proof.
  intros A N L.
  assert (E : Force.getForceGroup self = inr g).
  { unfold Force.getForceGroup. unfold one_group in A.
    destruct (Force.forces self) as [|f fs]; [contradiction|]. f_equal. now inversion A. }
  split; [exact E|]. split; [|split].
  - exists (cb_setForceGroup g _CustomBondForce.__init__).
    split; [|split; [reflexivity | split; [reflexivity|]]].
    + unfold Force.includeExceptions. rewrite E. cbn [mbind exn_bind].
      destruct (GroupFacts.setForceGroup_ok g (FCustomBond _CustomBondForce.__init__) L)
        as (f' & Ef & _).
      rewrite Ef. cbn [mbind exn_bind mret exn_ret].
      unfold OpenMM.setForceGroup in Ef. destruct (_ || _); [discriminate|].
      injection Ef as <-. reflexivity.
    + unfold one_group. cbn [Force.forces]. apply Forall_app. split; [exact A|].
      repeat constructor.
  - intros force self'. unfold Force.importFrom.
    destruct (mapM (Force.importFrom_one force) (Force.forces self)) as [e|fs'] eqn:M;
      [discriminate|].
    cbn. intros [= <-]. apply ImportAll.mapM_importFrom_one in M.
    split; [|symmetry; exact (Forall2_length _ _ _ M)].
    unfold one_group in *. cbn [Force.forces].
    revert A. clear -M. induction M as [|f f' fs fs' Hf _ IH]; intros A; [constructor|].
    inversion A as [|? ? Hg A']. subst. constructor; [|now apply IH].
    apply ImportAll.importFrom_one_group in Hf as [-> _]. reflexivity.
  - intros g' L'.
    destruct (GroupFacts.setForceGroup_all self g' L') as (s & Es & _ & B & _).
    now exists s.
Qed.

(** ** What [importFrom] does with particles and exceptions *)

(** X5. A new [_NonbondedForce] that imports from a reference force has the
    particles of the reference, and one exception for each exception of the
    reference, on the same pair and with the same sigma, but with a zero
    charge product and a zero epsilon: every exception has become an
    exclusion, whose energy is zero at every distance. The settings of the
    constructor are kept. *)
Theorem NonbondedForce_importFrom_exclusions
    (force : NonbondedForce) (cutoff : R) (switch : option R) (method : NonbondedMethod) :
  let self := _NonbondedForce.importFrom force (_NonbondedForce.__init__ cutoff switch method) in
  nb_particles self = nb_particles force /\
  map (fun x => (exc_i x, exc_j x, exc_sigma x)) (nb_exceptions self)
  = map (fun x => (exc_i x, exc_j x, exc_sigma x)) (nb_exceptions force) /\
  Forall (fun x => exc_chargeprod x = 0 /\ exc_epsilon x = 0 /\
                   forall r, Kernel.exception_energy x r = 0)
         (nb_exceptions self) /\
  nb_nonbondedMethod self = method /\
  nb_cutoffDistance self = cutoff /\
  nb_useDispersionCorrection self = true /\
  nb_useSwitchingFunction self = (match switch with Some _ => true | None => false end) /\
  (forall s, switch = Some s -> nb_switchingDistance self = s).
Proof.
  cbv zeta.
  assert (E : exists u s,
    _NonbondedForce.__init__ cutoff switch method
    = MkNonbondedForce method cutoff true u s [] [] 0 /\
    u = (match switch with Some _ => true | None => false end) /\ (forall s', switch = Some s' -> s = s')).
  { destruct switch as [s'|].
    - exists true, s'. repeat split. now intros ? [= <-].
    - exists false, (-1). repeat split. discriminate. }
  destruct E as (u & s & -> & Hu & Hs).
  rewrite ImportAll.NonbondedForce_importFrom_all.
  cbn [nb_particles nb_exceptions nb_nonbondedMethod nb_cutoffDistance
       nb_useDispersionCorrection nb_useSwitchingFunction nb_switchingDistance app].
  split; [reflexivity|]. split; [|split; [|repeat split; assumption]].
  - rewrite map_map. reflexivity.
  - apply Forall_forall. intros x Hx. apply list_elem_of_In, in_map_iff in Hx as (y & <- & _).
    cbn [zeroed exc_chargeprod exc_epsilon]. split; [lra|]. split; [lra|].
    intros r. unfold Kernel.exception_energy. cbn [zeroed exc_chargeprod exc_epsilon exc_sigma].
    lra.
Qed.

(** X6. [_CustomBondForce.importFrom] appends to the bonds, in the order of
    the reference force, one bond for each exception that has a nonzero
    charge product or a nonzero epsilon, with the three parameters of the
    exception, and nothing for the others; it changes nothing else of the
    bond force. *)
Theorem CustomBondForce_importFrom_bonds (force : NonbondedForce) (self : CustomBondForce) :
  let self' := _CustomBondForce.importFrom force self in
  cb_bonds self' = cb_bonds self ++ map bond_of (filter interacting (nb_exceptions force)) /\
  (length (cb_bonds self') <= length (cb_bonds self) + length (nb_exceptions force))%nat /\
  cb_energy self' = cb_energy self /\
  cb_globalParameters self' = cb_globalParameters self /\
  cb_perBondParameters self' = cb_perBondParameters self /\
  cb_forceGroup self' = cb_forceGroup self.
Proof.
  cbv zeta. destruct self as [e gp bp bs g].
  rewrite ImportAll.CustomBondForce_importFrom_all.
  cbn [cb_bonds cb_energy cb_globalParameters cb_perBondParameters cb_forceGroup].
  repeat split.
  rewrite length_app, length_map. apply Nat.add_le_mono_l. apply length_filter.
Qed.

(** X7. A [NonbondedExceptionsForce] that imports from a reference force
    has the energy of the exceptions of the reference: the sum, over all the
    exceptions, of the Lennard-Jones and Coulomb terms with the parameters of
    the exception at the distance of its pair (no pair at distance zero). *)
Theorem NonbondedExceptionsForce_energy (force : NonbondedForce) (dist : nat -> nat -> R) :
  Forall (fun x => dist (exc_i x) (exc_j x) <> 0) (nb_exceptions force) ->
  exists b,
    (F ← NonbondedExceptionsForce.__init__; Force.importFrom force F)
    = inr (Force.Build [FCustomBond b]) /\
    cb_bonds b = map bond_of (filter interacting (nb_exceptions force)) /\
    Kernel.custom_bond_energy b dist = Some (exceptions_energy force dist).
Proof.
  intros H.
  set (b0 := MkCustomBondForce (cb_energy _CustomBondForce.__init__) [("Kc", Kc)]
               ["chargeprod"; "sigma"; "epsilon"] [] 0).
  exists (_CustomBondForce.importFrom force b0).
  split; [reflexivity|].
  unfold b0. rewrite ImportAll.CustomBondForce_importFrom_all. cbn [app cb_bonds].
  split; [reflexivity|].
  unfold Kernel.custom_bond_energy, exceptions_energy. cbn [cb_bonds].
  apply BondFacts.bonds_energy; [reflexivity | reflexivity | reflexivity | exact H].
Qed.

(** X8. After [_CustomNonbondedForce.importFrom] into a force without
    exclusions, a pair of particles is excluded exactly when the reference
    force has an exception on it, in either order; the particles of the
    reference are appended with their charge, sigma and epsilon, and the
    energy expression and the cutoff are kept. *)
Theorem CustomNonbondedForce_importFrom_excluded
    (force : NonbondedForce) (self : CustomNonbondedForce) (i j : nat) :
  cnb_exclusions self = [] ->
  let self' := _CustomNonbondedForce.importFrom force self in
  (Kernel.excluded self' i j = true
   <-> exists x, x ∈ nb_exceptions force /\
                 ((exc_i x = i /\ exc_j x = j) \/ (exc_i x = j /\ exc_j x = i))) /\
  cnb_particles self' = cnb_particles self ++ map Kernel.parameters (nb_particles force) /\
  cnb_energy self' = cnb_energy self /\
  cnb_cutoffDistance self' = cnb_cutoffDistance self /\
  cnb_forceGroup self' = cnb_forceGroup self.
Proof.
  intros Hex. cbv zeta. rewrite CustomNonbondedForce_importFrom.
  destruct self as [e pp gp m c l u s ps ex g]. cbn [cnb_exclusions] in Hex. subst ex.
  cbn [app cnb_particles cnb_energy cnb_cutoffDistance cnb_forceGroup].
  split; [|repeat split].
  unfold Kernel.excluded. cbn [cnb_exclusions]. rewrite existsb_exists. split.
  - intros ([a b] & Hin & Hab). apply in_map_iff in Hin as (x & [= <- <-] & Hx).
    exists x. split; [now apply list_elem_of_In|].
    apply orb_true_iff in Hab as [Hab|Hab]; apply andb_true_iff in Hab as [H1 H2];
      apply Nat.eqb_eq in H1, H2; [left | right]; now split.
  - intros (x & Hx & Hij). exists (exc_i x, exc_j x). split.
    + apply in_map_iff. exists x. split; [reflexivity | now apply list_elem_of_In].
    + apply orb_true_iff.
      destruct Hij as [[<- <-]|[<- <-]]; [left | right];
        apply andb_true_iff; split; apply Nat.eqb_refl.
Qed.

(** X9. When a [FarNonbondedForce] imports from a reference force, its two
    toolkit forces get the same particles and leave out the same pairs: the
    exceptions of the reference are exclusions of the discount force and
    zeroed exceptions of the total force. *)
Theorem FarNonbondedForce_importFrom_consistent
    (near : NearNonbondedForce.t) (cutoff : R) (switch : option R) (method : NonbondedMethod)
    (force : NonbondedForce) :
  exists F total discount,
    FarNonbondedForce.__init__ (VNearNonbondedForce near) cutoff switch method = inr F /\
    Force.importFrom force F
    = inr (Force.Build [FNonbonded total; FCustomNonbonded discount]) /\
    nb_particles total = nb_particles force /\
    cnb_particles discount = map Kernel.parameters (nb_particles total) /\
    cnb_exclusions discount = map (fun x => (exc_i x, exc_j x)) (nb_exceptions total) /\
    Forall (fun x => exc_chargeprod x = 0 /\ exc_epsilon x = 0) (nb_exceptions total) /\
    length (nb_exceptions total) = length (nb_exceptions force).
Proof.
  unfold FarNonbondedForce.__init__.
  cbn [isinstance_NearNonbondedForce negb attributes mbind exn_bind].
  rewrite CustomNonbondedForce_init.
  set (e := FarNonbondedForce.energy _ _ _). set (gp := [_; _; _]).
  assert (E : exists u s,
    _NonbondedForce.__init__ cutoff switch method
    = MkNonbondedForce method cutoff true u s [] [] 0).
  { destruct switch as [s'|]; eexists _, _; reflexivity. }
  destruct E as (u & s & ->).
  eexists _, _, _. split; [reflexivity|].
  split.
  { unfold Force.importFrom. cbn [Force.forces mapM Force.importFrom_one mbind exn_bind
                                   mret exn_ret nb_setForceGroup cnb_setForceGroup].
    rewrite ImportAll.NonbondedForce_importFrom_all, CustomNonbondedForce_importFrom.
    reflexivity. }
  cbn [nb_particles nb_exceptions cnb_particles cnb_exclusions app].
  split; [reflexivity|]. split; [reflexivity|]. split; [|split].
  - rewrite map_map. reflexivity.
  - apply Forall_forall. intros x Hx. apply list_elem_of_In, in_map_iff in Hx as (y & <- & _).
    cbn [zeroed exc_chargeprod exc_epsilon]. split; lra.
  - apply length_map.
Qed.

(** X10. A [DampedSmoothedForce] with [includeExceptions] that imports from
    a reference force computes every exception of the reference once, and
    with the parameters of the exception: the pair of the exception adds
    nothing to the energy of the nonbonded force, and the energy of the bond
    force is the energy of the exceptions. *)
Theorem DampedSmoothedForce_with_exceptions
    (alpha rc rs : R) (degree : Z) (force : NonbondedForce) (dist : nat -> nat -> R) :
  0 <= rs < rc ->
  Forall (fun x => dist (exc_i x) (exc_j x) <> 0) (nb_exceptions force) ->
  exists f b,
    (F ← DampedSmoothedForce.__init__ alpha rc rs degree;
     F ← Force.includeExceptions F;
     Force.importFrom force F)
    = inr (Force.Build [FCustomNonbonded f; FCustomBond b]) /\
    (forall x, x ∈ nb_exceptions force ->
               Kernel.pair_contribution f dist (exc_i x) (exc_j x) = Some 0) /\
    Kernel.custom_bond_energy b dist = Some (exceptions_energy force dist).
Proof.
  intros Hrs H.
  set (b0 := MkCustomBondForce (cb_energy _CustomBondForce.__init__) [("Kc", Kc)]
               ["chargeprod"; "sigma"; "epsilon"] [] 0).
  exists (_CustomNonbondedForce.importFrom force (damped_force alpha rc rs degree)),
         (_CustomBondForce.importFrom force b0).
  split; [|split].
  - rewrite DampedSmoothed_init by exact Hrs. reflexivity.
  - intros x Hx. unfold Kernel.pair_contribution.
    now rewrite excluded_after_import.
  - unfold b0. rewrite ImportAll.CustomBondForce_importFrom_all.
    unfold Kernel.custom_bond_energy, exceptions_energy. cbn [app cb_bonds].
    apply BondFacts.bonds_energy; [reflexivity | reflexivity | reflexivity | exact H].
Qed.

(** X11. The energy that a [DampedSmoothedForce] gives to a pair of
    particles: inside the cutoff, the Lennard-Jones term plus the Coulomb
    term damped by [erfc(alpha*r)], with the Lorentz-Berthelot parameters,
    times the switching multiplier; that potential itself up to the
    switching distance; and zero from the cutoff on. *)
Theorem DampedSmoothedForce_pair_energy
    (alpha rc rs : R) (degree : Z) (q1 s1 e1 q2 s2 e2 : R) :
  0 <= rs < rc -> (1 <= degree)%Z -> 0 <= e1 * e2 ->
  let V := fun r => Formula.LennardJones (0.5 * (s1 + s2)) (sqrt (e1 * e2)) r
                    + erfc (alpha * r) * Formula.Coulomb (q1 * q2) r in
  exists f,
    DampedSmoothedForce.__init__ alpha rc rs degree = inr (Force.Build [FCustomNonbonded f]) /\
    (forall r, 0 < r < rc ->
       exists m, Energy.multiplier f [q1; s1; e1] [q2; s2; e2] r = Some m /\
                 Energy.pair_energy f [q1; s1; e1] [q2; s2; e2] r = Some (m * V r)) /\
    (forall r, 0 < r <= rs ->
       Energy.pair_energy f [q1; s1; e1] [q2; s2; e2] r = Some (V r)) /\
    (forall r, rc <= r -> Energy.pair_energy f [q1; s1; e1] [q2; s2; e2] r = Some 0).
Proof.
  intros Hrs Hd He V. exists (damped_force alpha rc rs degree).
  split; [apply DampedSmoothed_init; exact Hrs|].
  assert (Hm : forall r, exists m,
    Energy.multiplier (damped_force alpha rc rs degree) [q1; s1; e1] [q2; s2; e2] r = Some m).
  { intros r. unfold Energy.multiplier.
    destruct (Z.eq_dec degree 1%Z) as [->|Hne].
    - rewrite DampedSmoothed_S_linear. eexists. reflexivity.
    - rewrite DampedSmoothed_S_degree by (lia || assumption). eexists. reflexivity. }
  split; [|split].
  - intros r Hr. destruct (Hm r) as [m Em]. exists m. split; [exact Em|].
    apply DampedSmoothed_pair_energy; [lia | lra | exact He | lra | exact Em].
  - intros r Hr.
    rewrite (DampedSmoothed_pair_energy alpha rc rs degree q1 s1 e1 q2 s2 e2 r 1);
      [f_equal; unfold V; lra | lia | lra | exact He | lra |].
    apply DampedSmoothed_multiplier_below; [exact Hrs | exact Hd | lra].
  - intros r Hr. unfold Energy.pair_energy.
    change (cnb_energy (damped_force alpha rc rs degree)) with (DampedSmoothedForce.energy degree).
    rewrite ParseFacts.parse_DampedSmoothed by lia. cbn [mbind option_bind].
    unfold Energy.beyond_cutoff.
    set (f := damped_force alpha rc rs degree).
    change (cnb_nonbondedMethod f) with CutoffPeriodic.
    change (cnb_cutoffDistance f) with rc.
    cbn [Energy.uses_cutoff andb].
    destruct (Rle_dec rc r); [reflexivity | contradiction].
Qed.

(** ** [findNonbondedForce], [hijackForce] and [addTo] *)

(** X12. With a position that is not negative, [findNonbondedForce] returns
    the index [i] exactly when the force of index [i] of the system is a
    [NonbondedForce] and the number of forces of that class before it is the
    position; the default position 0 gives the first one. *)
Theorem findNonbondedForce_finds
    (sigma : gmap loc object) (system : loc) (s : System) (fs : list OpenMM.Force)
    (position i : Z) :
  system_at sigma system s fs -> (0 <= position)%Z ->
  findNonbondedForce system position sigma = (inr i, sigma)
  <-> (0 <= i)%Z /\
      exists nb, fs !! Z.to_nat i = Some (FNonbonded nb) /\
                 Z.of_nat (numNonbonded (take (Z.to_nat i) fs)) = position.
Proof.
  intros A Hp. rewrite (SystemFacts.findNonbondedForce_ok _ _ _ _ _ A). split.
  - intros [= E]. apply FindFacts.list_item_inr in E; [|exact Hp].
    apply FindFacts.nonbonded_indices_lookup in E as (j & f & -> & Hj & Hf & Hc).
    rewrite Nat2Z.id. split; [lia|].
    apply HijackProps.isinstance_NonbondedForce_true in Hf as [nb ->].
    exists nb. split; [exact Hj | lia].
  - intros (Hi & nb & Hj & Hc). f_equal.
    apply FindFacts.list_item_inr; [exact Hp|].
    apply FindFacts.nonbonded_indices_lookup.
    exists (Z.to_nat i), (FNonbonded nb).
    split; [lia|]. split; [exact Hj|]. split; [reflexivity | lia].
Qed.

(** X13. In a system with [n] forces of the class [NonbondedForce],
    [findNonbondedForce] raises [IndexError] exactly when the position is
    [n] or more, or below [-n] (so always when [n] is 0), and returns an
    index for every other position. *)
Theorem findNonbondedForce_IndexError
    (sigma : gmap loc object) (system : loc) (s : System) (fs : list OpenMM.Force)
    (position : Z) :
  system_at sigma system s fs ->
  (findNonbondedForce system position sigma
   = (inl (IndexError "list index out of range"), sigma)
   <-> (position < - Z.of_nat (numNonbonded fs) \/ Z.of_nat (numNonbonded fs) <= position)%Z) /\
  ((exists i, findNonbondedForce system position sigma = (inr i, sigma))
   <-> (- Z.of_nat (numNonbonded fs) <= position < Z.of_nat (numNonbonded fs))%Z).
Proof.
  intros A. rewrite (SystemFacts.findNonbondedForce_ok _ _ _ _ _ A).
  pose proof (FindFacts.list_item_IndexError (nonbonded_indices fs) position) as E.
  rewrite FindFacts.length_nonbonded_indices in E.
  assert (T : (exists i, list_item (nonbonded_indices fs) position = inr i) \/
              list_item (nonbonded_indices fs) position
              = inl (IndexError "list index out of range")).
  { unfold list_item. cbv zeta. destruct (_ || _); [now right|].
    destruct (_ !! _); [left; eauto | now right]. }
  split; split.
  - intros [= H]. now apply E.
  - intros H. f_equal. now apply E.
  - intros [i [= H]].
    destruct (decide (- Z.of_nat (numNonbonded fs) <= position < Z.of_nat (numNonbonded fs))%Z)
      as [L|N]; [exact L|].
    assert (B : list_item (nonbonded_indices fs) position
                = inl (IndexError "list index out of range")) by (apply E; lia).
    rewrite B in H. discriminate H.
  - intros H. destruct T as [[i Hi]|B].
    + exists i. now rewrite Hi.
    + apply E in B. lia.
Qed.

(** X14. A negative position counts from the last [NonbondedForce] of the
    system: with [n] forces of the class, the position [-k] gives what the
    position [n-k] gives, for k from 1 to [n]. *)
Theorem findNonbondedForce_negative_position
    (sigma : gmap loc object) (system : loc) (s : System) (fs : list OpenMM.Force)
    (position : Z) :
  system_at sigma system s fs ->
  (- Z.of_nat (numNonbonded fs) <= position < 0)%Z ->
  findNonbondedForce system position sigma
  = findNonbondedForce system (position + Z.of_nat (numNonbonded fs)) sigma.
Proof.
  intros A H. rewrite !(SystemFacts.findNonbondedForce_ok _ _ _ _ _ A). f_equal.
  rewrite <- FindFacts.length_nonbonded_indices in *.
  now apply FindFacts.list_item_negative.
Qed.

(** X15. [findNonbondedForce] changes no object, whether it returns or
    raises, and whatever the store holds. *)
Theorem findNonbondedForce_reads_only
    (sigma : gmap loc object) (system : loc) (position : Z) :
  (findNonbondedForce system position sigma).2 = sigma.
Proof.
  destruct (findNonbondedForce system position sigma) as [r sigma'] eqn:H.
  exact (SystemFacts.findNonbondedForce_run _ _ _ _ _ H).
Qed.

(** X16. [hijackForce] with the index of a force of the system returns a
    new object that holds what the force held; the force has left the list
    of the system and its own object is gone; every other object is as it
    was, and the other forces of the system keep their order. *)
Theorem hijackForce_takes_the_force
    (sigma : gmap loc object) (system : loc) (s : System) (fs : list OpenMM.Force)
    (index : Z) (f : OpenMM.Force) :
  system_at sigma system s fs -> NoDup (sys_forces s) ->
  (0 <= index)%Z -> fs !! Z.to_nat index = Some f ->
  exists l l' sigma',
    sys_forces s !! Z.to_nat index = Some l /\
    hijackForce system index sigma = (inr l', sigma') /\
    sigma !! l' = None /\
    sigma' !! l' = Some (OForce f) /\
    sigma' !! l = None /\
    (forall k, k <> system -> k <> l -> k <> l' -> sigma' !! k = sigma !! k) /\
    system_at sigma' system
      (MkSystem (sys_masses s) (sys_numConstraints s)
         (delete (Z.to_nat index) (sys_forces s)))
      (delete (Z.to_nat index) fs).
Proof.
  intros A N Hi Hf.
  destruct (HijackProps.hijackForce_props sigma system s fs (Z.to_nat index) f A Hf)
    as (l & l' & sigma' & H1 & H2 & H3 & H4 & H5 & _ & H7 & H8).
  rewrite Z2Nat.id in H2 by exact Hi.
  exists l, l', sigma'. repeat split; try assumption; apply (H8 N).
Qed.


(** X18. The index that [findNonbondedForce] returns can be given to
    [hijackForce]: the object returned is a [NonbondedForce], the system has
    one force of that class less, and when it had only one,
    [findNonbondedForce] raises [IndexError] from then on. *)
Theorem hijackForce_of_found
    (sigma : gmap loc object) (system : loc) (s : System) (fs : list OpenMM.Force)
    (position i : Z) :
  system_at sigma system s fs -> NoDup (sys_forces s) ->
  findNonbondedForce system position sigma = (inr i, sigma) ->
  exists l' nb s' sigma',
    hijackForce system i sigma = (inr l', sigma') /\
    sigma' !! l' = Some (OForce (FNonbonded nb)) /\
    system_at sigma' system s' (delete (Z.to_nat i) fs) /\
    S (numNonbonded (delete (Z.to_nat i) fs)) = numNonbonded fs /\
    (numNonbonded fs = 1%nat ->
     forall p, findNonbondedForce system p sigma'
               = (inl (IndexError "list index out of range"), sigma')).
Proof.
  intros A N H. rewrite (SystemFacts.findNonbondedForce_ok _ _ _ _ _ A) in H.
  injection H as H. apply HijackProps.list_item_lookup in H as [k H].
  apply FindFacts.nonbonded_indices_lookup in H as (j & f & -> & Hj & Hf & _).
  apply HijackProps.isinstance_NonbondedForce_true in Hf as [nb ->].
  destruct (HijackProps.hijackForce_props sigma system s fs j _ A Hj)
    as (l & l' & sigma' & _ & H2 & _ & H4 & _ & _ & _ & H8).
  specialize (H8 N). rewrite Nat2Z.id.
  pose proof (HijackFacts.numNonbonded_delete fs j _ Hj) as C. cbn in C.
  eexists l', nb, _, sigma'. split; [exact H2|]. split; [exact H4|].
  split; [exact H8|]. split; [lia|].
  intros One p. rewrite (SystemFacts.findNonbondedForce_ok _ _ _ _ _ H8). f_equal.
  apply FindFacts.list_item_IndexError. rewrite FindFacts.length_nonbonded_indices. lia.
Qed.


(** ** [splitPotentialEnergy] at its bounds *)

Import HijackFacts SplitExact TabulateFacts SplitSum SplitLabels.

(** X20. [splitPotentialEnergy] uses the index of a force as its group, and
    the toolkit has the groups 0 to 31: for a system of more than 32 forces
    the call raises the toolkit's exception, whatever the topology and the
    positions; the objects of the caller are unchanged. *)
Theorem splitPotentialEnergy_more_than_32_forces
    (forceEnergy : OpenMM.Force -> Positions -> R)
    (system topology positions : loc) (sigma : gmap loc object) (s : System) :
  sigma !! system = Some (OSystem s) ->
  Forall (is_force sigma) (sys_forces s) ->
  (32 < length (sys_forces s))%nat ->
  exists sigma',
    splitPotentialEnergy forceEnergy system topology positions sigma
    = (inl (OpenMMException "Force group must be between 0 and 31"), sigma') /\
    sigma ⊆ sigma'.
Proof.
  intros Hs Hf H32.
  destruct (SplitBounds.splitPotentialEnergy_overflow forceEnergy system topology positions
              sigma s Hs Hf H32) as [sigma' E].
  exists sigma'. split; [exact E|].
  eapply SplitBounds.splitPotentialEnergy_subseteq. exact E.
Qed.




(** ** The reporter *)

(** X24. The header of the reporter has one short name for each column that
    is switched on, in the fixed order of the twelve columns, and no name
    twice. *)
Theorem shortName_constructHeaders_columns
    (constants_t : Type) (self : shortName.t constants_t) :
  length (shortName._constructHeaders constants_t self) = shortName.columns constants_t self /\
  sublist (shortName._constructHeaders constants_t self) shortName.names /\
  NoDup (shortName._constructHeaders constants_t self).
Proof.
  split; [apply ReporterFacts.length_constructHeaders|].
  pose proof (ReporterFacts.sublist_constructHeaders constants_t self) as S.
  split; [exact S|]. eapply sublist_NoDup; [|exact S].
  unfold shortName.names. apply NoDup_ListNoDup. repeat constructor.
  all: cbn; intros H; repeat destruct H as [H|H]; try discriminate H; exact H.
Qed.

(** X25. A reporter that has not reported yet writes its header once, as the
    first text, in the first call of [report]; after a run of calls the
    texts written are the header and one line for each call that returned,
    also when calls of the run raised; the header is the short names joined
    by the separator. *)
Theorem shortName_report_header_once
    (simulation_t state_t value_t constants_t error_t : Type)
    (initializeConstants : shortName.t constants_t -> simulation_t -> constants_t)
    (checkForErrors : shortName.t constants_t -> simulation_t -> state_t -> error_t + ())
    (constructReportValues : shortName.t constants_t -> simulation_t -> state_t -> list value_t)
    (str : value_t -> string) (getTime : state_t -> R) (currentStep : simulation_t -> Z)
    (calls : list (R * simulation_t * state_t)) (self : shortName.t constants_t) :
  shortName._hasInitialized constants_t self = false ->
  shortName._out constants_t self = [] ->
  calls <> [] ->
  let self' :=
    shortName.reports simulation_t state_t value_t constants_t error_t initializeConstants
      checkForErrors constructReportValues str getTime currentStep calls self in
  exists lines,
    shortName._out constants_t self'
    = String.concat (shortName._separator constants_t self)
        (shortName._constructHeaders constants_t self) :: lines /\
    length lines
    = shortName.returned simulation_t state_t value_t constants_t error_t initializeConstants
        checkForErrors constructReportValues str getTime currentStep calls self /\
    shortName._hasInitialized constants_t self' = true /\
    shortName._constructHeaders constants_t self'
    = shortName._constructHeaders constants_t self.
Proof.
  intros H O N. cbv zeta.
  destruct (ReporterFacts.reports_first simulation_t state_t value_t constants_t error_t
              initializeConstants checkForErrors constructReportValues str getTime currentStep
              calls self H N) as (F & _ & I & lines & E & L).
  exists lines. rewrite O in E. split; [exact E|]. split; [exact L|]. split; [exact I|].
  apply ReporterFacts.constructHeaders_flags. exact F.
Qed.

(** ** The texts of [utils.py] *)

(** X26. For every variable name [r], the toolkit reads the text of
    [LennardJones(r)] as [4 epsilon ((sigma/v)^12 - (sigma/v)^6)] and the
    text of [Coulomb(r)] as [Kc chargeprod / v], where [v] is the value of
    [r], not zero; and the two texts joined by [+] as their sum. *)
Theorem LennardJones_Coulomb_texts
    (r : string) (rho : Expr.env) (sigma epsilon chargeprod v : R) :
  is_name r = true ->
  Expr.lookup "sigma" rho = Some sigma ->
  Expr.lookup "epsilon" rho = Some epsilon ->
  Expr.lookup "Kc" rho = Some Kc ->
  Expr.lookup "chargeprod" rho = Some chargeprod ->
  Expr.lookup r rho = Some v ->
  v <> 0 ->
  (p ← Expr.parse (LennardJones r); Expr.eval_program p rho)
  = Some (Formula.LennardJones sigma epsilon v) /\
  (p ← Expr.parse (Coulomb r); Expr.eval_program p rho)
  = Some (Formula.Coulomb chargeprod v) /\
  (p ← Expr.parse (LennardJones r +:+ "+" +:+ Coulomb r); Expr.eval_program p rho)
  = Some (Formula.U chargeprod sigma epsilon v).
Proof.
  intros H Hs He Hk Hq Hr Hv.
  rewrite TemplateFacts.parse_LennardJones, TemplateFacts.parse_Coulomb,
    TemplateFacts.parse_potential by exact H.
  cbn [mbind option_bind]. unfold eval_program. cbn [main defs eval_defs].
  split; [|split].
  - eapply eval_LennardJones; eassumption.
  - eapply eval_Coulomb; eassumption.
  - eapply eval_potential; eassumption.
Qed.

(** ** The exceptions in the decomposition into Near, Exceptions and Far *)

(** X27. When a [NearNonbondedForce], a [NonbondedExceptionsForce] and the
    matching [FarNonbondedForce] import from the same reference force, each
    exception of the reference is computed once, by the bond force and with
    the parameters of the exception: its pair adds nothing to the Near force
    nor to the discount force of Far, the total force of Far has it as an
    exception of zero energy, and the energy of the bond force is the energy
    of the exceptions of the reference. *)
Theorem exceptions_in_the_decomposition
    (rc rs : R) (shifted : bool) (cutoff : R) (switch : option R) (method : NonbondedMethod)
    (force : NonbondedForce) (dist : nat -> nat -> R) :
  Forall (fun x => dist (exc_i x) (exc_j x) <> 0) (nb_exceptions force) ->
  exists near inner b total discount,
    NearNonbondedForce.__init__ rc rs shifted = inr near /\
    Force.importFrom force (NearNonbondedForce.base near)
    = inr (Force.Build [FCustomNonbonded inner]) /\
    (F ← NonbondedExceptionsForce.__init__; Force.importFrom force F)
    = inr (Force.Build [FCustomBond b]) /\
    (F ← FarNonbondedForce.__init__ (VNearNonbondedForce near) cutoff switch method;
     Force.importFrom force F)
    = inr (Force.Build [FNonbonded total; FCustomNonbonded discount]) /\
    (forall x, x ∈ nb_exceptions force ->
       Kernel.pair_contribution inner dist (exc_i x) (exc_j x) = Some 0 /\
       Kernel.pair_contribution discount dist (exc_i x) (exc_j x) = Some 0) /\
    Forall (fun x => forall r, Kernel.exception_energy x r = 0) (nb_exceptions total) /\
    length (nb_exceptions total) = length (nb_exceptions force) /\
    Kernel.custom_bond_energy b dist = Some (exceptions_energy force dist).
Proof.
  intros H.
  set (b0 := MkCustomBondForce (cb_energy _CustomBondForce.__init__) [("Kc", Kc)]
               ["chargeprod"; "sigma"; "epsilon"] [] 0).
  assert (E : exists u s,
    far_total cutoff switch method = MkNonbondedForce method cutoff true u s [] [] 0).
  { unfold far_total. destruct switch as [s'|]; eexists _, _; reflexivity. }
  destruct E as (u & s & E).
  exists (NearNonbondedForce.Build (Force.Build [FCustomNonbonded (near_force rc rs shifted)])
            0 rs rc shifted),
         (_CustomNonbondedForce.importFrom force (near_force rc rs shifted)),
         (_CustomBondForce.importFrom force b0),
         (_NonbondedForce.importFrom force (far_total cutoff switch method)),
         (_CustomNonbondedForce.importFrom force (far_discount cutoff rs rc shifted)).
  split; [apply Near_init|]. split; [reflexivity|]. split; [reflexivity|].
  split; [rewrite Far_init; reflexivity|].
  split; [|split; [|split]].
  - intros x Hx. unfold Kernel.pair_contribution.
    rewrite !excluded_after_import by exact Hx. now split.
  - rewrite E, ImportAll.NonbondedForce_importFrom_all. cbn [nb_exceptions app].
    apply Forall_forall. intros x Hx. apply list_elem_of_In, in_map_iff in Hx as (y & <- & _).
    intros r. unfold Kernel.exception_energy. cbn [zeroed exc_chargeprod exc_epsilon exc_sigma].
    lra.
  - rewrite E, ImportAll.NonbondedForce_importFrom_all. cbn [nb_exceptions app].
    apply length_map.
  - unfold b0. rewrite ImportAll.CustomBondForce_importFrom_all.
    unfold Kernel.custom_bond_energy, exceptions_energy. cbn [app cb_bonds].
    apply BondFacts.bonds_energy; [reflexivity | reflexivity | reflexivity | exact H].
Qed.

(** ** Instances of the properties above *)

Lemma Force_setForceGroup_getForceGroup_witness :
  exists self',
    Force.setForceGroup 7 (Force.Build [FOther "HarmonicBondForce" 0]) = inr self' /\
    Force.getForceGroup self' = inr 7%Z.
Proof.
  destruct (Force_setForceGroup_getForceGroup (Force.Build [FOther "HarmonicBondForce" 0]) 7)
    as (self' & H1 & _ & _ & H4); [lia|].
  exists self'. split; [exact H1 | apply H4; discriminate].
Defined.

Lemma Force_one_group_preserved_witness :
  Force.getForceGroup (Force.Build [FOther "HarmonicBondForce" 3]) = inr 3%Z /\
  exists b,
    Force.includeExceptions (Force.Build [FOther "HarmonicBondForce" 3])
    = inr (Force.Build [FOther "HarmonicBondForce" 3; FCustomBond b]) /\
    cb_bonds b = [].
Proof.
  destruct (Force_one_group_preserved (Force.Build [FOther "HarmonicBondForce" 3]) 3)
    as (H1 & (b & H2 & _ & H3 & _) & _).
  - repeat constructor.
  - discriminate.
  - lia.
  - split; [exact H1|]. exists b. split; [exact H2 | exact H3].
Defined.

Lemma NonbondedExceptionsForce_energy_witness :
  exists b,
    (F ← NonbondedExceptionsForce.__init__; Force.importFrom Sample.reference F)
    = inr (Force.Build [FCustomBond b]) /\
    Kernel.custom_bond_energy b (fun _ _ => 1)
    = Some (exceptions_energy Sample.reference (fun _ _ => 1)).
Proof.
  destruct (NonbondedExceptionsForce_energy Sample.reference (fun _ _ => 1))
    as (b & H1 & _ & H3).
  - repeat constructor; cbn; lra.
  - exists b. split; [exact H1 | exact H3].
Defined.

Lemma CustomNonbondedForce_importFrom_excluded_witness :
  Kernel.excluded (_CustomNonbondedForce.importFrom Sample.reference (near_force 2 1 true)) 2 1
  = true.
Proof.
  destruct (CustomNonbondedForce_importFrom_excluded Sample.reference (near_force 2 1 true)
              2 1 eq_refl) as [[_ H] _].
  apply H. exists (MkException 1 2 0.5 1 1). split; [|right; split; reflexivity].
  apply list_elem_of_In. right. left. reflexivity.
Defined.

Lemma DampedSmoothedForce_with_exceptions_witness :
  exists f b,
    (F ← DampedSmoothedForce.__init__ 1 2 1 2;
     F ← Force.includeExceptions F;
     Force.importFrom Sample.reference F)
    = inr (Force.Build [FCustomNonbonded f; FCustomBond b]) /\
    Kernel.custom_bond_energy b (fun _ _ => 1)
    = Some (exceptions_energy Sample.reference (fun _ _ => 1)).
Proof.
  destruct (DampedSmoothedForce_with_exceptions 1 2 1 2 Sample.reference (fun _ _ => 1))
    as (f & b & H1 & _ & H3).
  - lra.
  - repeat constructor; cbn; lra.
  - exists f, b. split; [exact H1 | exact H3].
Defined.

Lemma DampedSmoothedForce_pair_energy_witness :
  exists f,
    DampedSmoothedForce.__init__ 1 2 1 2 = inr (Force.Build [FCustomNonbonded f]) /\
    Energy.pair_energy f [1; 1; 1] [1; 1; 1] 3 = Some 0.
Proof.
  destruct (DampedSmoothedForce_pair_energy 1 2 1 2 1 1 1 1 1 1) as (f & H1 & _ & _ & H4);
    [lra | lia | lra |].
  exists f. split; [exact H1 | apply H4; lra].
Defined.

Lemma sample_system_at :
  system_at Sample.store 0%nat (MkSystem [1; 1] 0 [1%nat; 2%nat; 3%nat]) Sample.forces.
Proof. split; [reflexivity | repeat constructor]. Defined.

Lemma findNonbondedForce_finds_witness :
  findNonbondedForce 0%nat 0 Sample.store = (inr 1%Z, Sample.store).
Proof.
  apply (findNonbondedForce_finds Sample.store 0%nat _ Sample.forces 0 1 sample_system_at);
    [lia|].
  split; [lia|]. exists (Sample.nonbonded 0). split; reflexivity.
Defined.

Lemma findNonbondedForce_IndexError_witness :
  findNonbondedForce 0%nat 2 Sample.store
  = (inl (IndexError "list index out of range"), Sample.store).
Proof.
  destruct (findNonbondedForce_IndexError Sample.store 0%nat _ Sample.forces 2
              sample_system_at) as [[_ H] _].
  apply H. right. vm_compute. discriminate.
Defined.

Lemma findNonbondedForce_negative_position_witness :
  findNonbondedForce 0%nat (-1) Sample.store
  = findNonbondedForce 0%nat (-1 + Z.of_nat (numNonbonded Sample.forces)) Sample.store.
Proof.
  apply (findNonbondedForce_negative_position Sample.store 0%nat _ Sample.forces (-1)
           sample_system_at).
  vm_compute. split; [discriminate | reflexivity].
Defined.

Lemma sample_NoDup : NoDup [1%nat; 2%nat; 3%nat].
Proof. apply NoDup_ListNoDup. repeat constructor; cbn; lia. Defined.

Lemma hijackForce_takes_the_force_witness :
  exists l' sigma',
    hijackForce 0%nat 1 Sample.store = (inr l', sigma') /\
    sigma' !! l' = Some (OForce (FNonbonded (Sample.nonbonded 0))) /\
    sigma' !! 2%nat = None.
Proof.
  destruct (hijackForce_takes_the_force Sample.store 0%nat _ Sample.forces 1
              (FNonbonded (Sample.nonbonded 0)) sample_system_at sample_NoDup)
    as (l & l' & sigma' & H1 & H2 & _ & H4 & H5 & _); [lia | reflexivity |].
  injection H1 as <-. exists l', sigma'. auto.
Defined.


Lemma hijackForce_of_found_witness :
  exists l' nb sigma',
    hijackForce 0%nat 1 Sample.store = (inr l', sigma') /\
    sigma' !! l' = Some (OForce (FNonbonded nb)).
Proof.
  destruct (hijackForce_of_found Sample.store 0%nat _ Sample.forces 0 1
              sample_system_at sample_NoDup) as (l' & nb & s' & sigma' & H1 & H2 & _).
  - reflexivity.
  - exists l', nb, sigma'. auto.
Defined.


Lemma crowded_forces : Forall (is_force Sample.crowded) (seq 1 33).
Proof. repeat constructor; eexists; reflexivity. Defined.

Lemma splitPotentialEnergy_more_than_32_forces_witness :
  exists sigma',
    splitPotentialEnergy Example.unit_energy 0%nat 40%nat 41%nat Sample.crowded
    = (inl (OpenMMException "Force group must be between 0 and 31"), sigma').
Proof.
  destruct (splitPotentialEnergy_more_than_32_forces Example.unit_energy 0%nat 40%nat 41%nat
              Sample.crowded (MkSystem [] 0 (seq 1 33))) as (sigma' & H & _).
  - reflexivity.
  - exact crowded_forces.
  - cbn. lia.
  - exists sigma'. exact H.
Defined.


Lemma example_system_at :
  system_at Example.store 0%nat (MkSystem [1; 1] 0 [1%nat; 2%nat])
    [FOther "HarmonicBondForce" 0; FOther "HarmonicBondForce" 5].
Proof. split; [reflexivity | repeat constructor]. Defined.

Lemma example_plain :
  Forall (fun f => plain (className f))
         [FOther "HarmonicBondForce" 0; FOther "HarmonicBondForce" 5].
Proof.
  repeat constructor; try discriminate;
    cbn; intros H; repeat destruct H as [H|H]; try discriminate H; exact H.
Defined.



Lemma LennardJones_Coulomb_texts_witness :
  (p ← Expr.parse (Coulomb "rc0");
   Expr.eval_program p
     (Expr.bind_values
        [("sigma", 1); ("epsilon", 1); ("Kc", Kc); ("chargeprod", 3); ("rc0", 2)]))
  = Some (Formula.Coulomb 3 2).
Proof.
  destruct (LennardJones_Coulomb_texts "rc0"
              (Expr.bind_values
                 [("sigma", 1); ("epsilon", 1); ("Kc", Kc); ("chargeprod", 3); ("rc0", 2)])
              1 1 3 2) as (_ & H & _); try reflexivity; [lra|].
  exact H.
Defined.

(** The texts take the name as it is: with a sum in its place, the quotient
    of [Coulomb] is that of the first term only. *)
Example Coulomb_of_a_sum :
  Expr.parse (Coulomb "a+b")
  = Some (Program (EBin Add (EBin Div (EBin Mul (EVar "Kc") (EVar "chargeprod")) (EVar "a"))
                            (EVar "b")) []).
Proof. reflexivity. Qed.

Lemma exceptions_in_the_decomposition_witness :
  exists b,
    (F ← NonbondedExceptionsForce.__init__; Force.importFrom Sample.reference F)
    = inr (Force.Build [FCustomBond b]) /\
    cb_bonds b = [(1%nat, 2%nat, [0.5; 1; 1])] /\
    Kernel.custom_bond_energy b (fun _ _ => 1)
    = Some (exceptions_energy Sample.reference (fun _ _ => 1)).
Proof.
  destruct (exceptions_in_the_decomposition 2 1 true 3 None PME Sample.reference
              (fun _ _ => 1)) as (near & inner & b & total & discount & H).
  - repeat constructor; cbn; lra.
  - destruct H as (_ & _ & H3 & _ & _ & _ & _ & H8).
    exists b. split; [exact H3|]. split; [|exact H8].
    injection H3 as <-.
    rewrite ImportAll.CustomBondForce_importFrom_all. cbn [cb_bonds app Sample.reference nb_exceptions].
    rewrite filter_cons_False, filter_cons_True, filter_nil; [reflexivity | |].
    + right. cbn. lra.
    + intros [N|N]; cbn in N; lra.
Defined.

Lemma shortName_report_header_once_witness :
  exists lines,
    shortName._out unit
      (shortName.reports unit unit Z unit string Sample.no_constants Sample.no_error
         Sample.two_values fmt_d Sample.zero_time Sample.zero_step
         [(0, (), ()); (1, (), ())] Sample.reporter)
    = "Step,PE" :: lines /\
    length lines = 2%nat.
Proof.
  destruct (shortName_report_header_once unit unit Z unit string Sample.no_constants
              Sample.no_error Sample.two_values fmt_d Sample.zero_time Sample.zero_step
              [(0, (), ()); (1, (), ())] Sample.reporter)
    as (lines & H1 & H2 & _); [reflexivity | reflexivity | discriminate |].
  exists lines. split; [exact H1 | exact H2].
Defined.

(** What the reporter of the example writes in two calls. *)
Example shortName_report_texts :
  shortName._out unit
    (shortName.reports unit unit Z unit string Sample.no_constants Sample.no_error
       Sample.two_values fmt_d Sample.zero_time Sample.zero_step
       [(0, (), ()); (1, (), ())] Sample.reporter)
  = ["Step,PE"; "10,-3"; "10,-3"].
Proof. reflexivity. Qed.

(** The indices that [findNonbondedForce] returns in the system of the
    example, for the positions 0, 1 and -1. *)
Example findNonbondedForce_positions :
  (findNonbondedForce 0%nat 0 Sample.store).1 = inr 1%Z /\
  (findNonbondedForce 0%nat 1 Sample.store).1 = inr 2%Z /\
  (findNonbondedForce 0%nat (-1) Sample.store).1 = inr 2%Z.
Proof. repeat split; reflexivity. Qed.
